(** * ReelScore: session store, rate limiter, auth middleware and library services

    A shallow embedding of the Go sources
    - [internal/database/redis.go]        (SessionStore),
    - [internal/middleware/ratelimit.go]  (RateLimiter),
    - the auth middleware                 (AuthMiddleware),
    - the movie and serie services        (MovieService, SerieService),
    - [internal/handlers/movies.go]       (MovieHandler),
    together with the properties their specification states about them.

    Conventions.
    - Go [int]/[int64] values are [Z]; the one place where the code can wrap
      around (the page offset) has the wrap written out.
    - A [uuid.UUID] is its 128-bit value, an [N]; [uuid.Nil] is [0].
    - Instants are Unix seconds and durations are whole seconds, both [Z].
    - The [numeric(3,1)] score columns are kept in tenths, as [Z].
    - A Go [(T, error)] result is a sum [T + error]; a bare [error] result is
      an [option error], [None] being [nil].
    - Redis and the response writer are threaded through the code as one
      [World]; every command sent and every response write is appended to
      its [trace], in program order.
    - A PostgreSQL table is the list of its rows in table order; a service
      method takes the tables it queries and returns the table it changed.
      The [db] pool, the [redis] client and the [userService] fields of the
      Go structs have no counterpart. *)

From Stdlib Require Import ZArith NArith Strings.Ascii Strings.HexString.
From stdpp Require Import base option list gmap strings pretty sorting.

Open Scope Z_scope.

(** ** Go errors *)

(** The error values the code creates, receives and compares.  [Wrapf p e]
    is [fmt.Errorf(p + "%w", e)]; [Errorf m] is [fmt.Errorf(m)]. *)
Inductive error : Type :=
  | ErrNoRows                                (* pgx.ErrNoRows *)
  | RedisNil                                 (* redis.Nil *)
  | ErrNoCookie                              (* http.ErrNoCookie *)
  | PgError (code : string) (message : string) (* *pgconn.PgError *)
  | OpError (msg : string)                   (* transport failure of a client *)
  | InvalidUUID (input : string)             (* error of uuid.Parse *)
  | Errorf (msg : string)
  | Wrapf (prefix : string) (inner : error).

(** [err.Error()]. *)
Fixpoint Error (e : error) : string :=
  match e with
  | ErrNoRows => "no rows in result set"
  | RedisNil => "redis: nil"
  | ErrNoCookie => "http: named cookie not present"
  | PgError code message => "ERROR: " +:+ message +:+ " (SQLSTATE " +:+ code +:+ ")"
  | OpError msg => msg
  | InvalidUUID input =>
      let n := String.length input in
      if bool_decide (n = 32 \/ n = 36 \/ n = 38 \/ n = 45)%nat
      then "invalid UUID format"
      else "invalid UUID length: " +:+ pretty n
  | Errorf msg => msg
  | Wrapf prefix inner => prefix +:+ Error inner
  end.

(** [err == pgx.ErrNoRows]: identity with the sentinel, which a wrapped
    error never has. *)
Definition is_ErrNoRows (e : error) : bool :=
  match e with ErrNoRows => true | _ => false end.

(** [err == redis.Nil]. *)
Definition is_RedisNil (e : error) : bool :=
  match e with RedisNil => true | _ => false end.

(** [errors.Is(err, target)] for the two sentinels: follows the [%w] chain. *)
Fixpoint errors_Is (e : error) (target : error -> bool) : bool :=
  target e || match e with Wrapf _ inner => errors_Is inner target | _ => false end.

(** ** Go integers and literals *)

(** A Go [int] product that left the 64-bit range wraps around. *)
Definition wrap64 (z : Z) : Z := (z + 2 ^ 63) mod 2 ^ 64 - 2 ^ 63.

(** The double-quote character, and a word between double quotes. *)
Definition dq : string := String "034"%char EmptyString.
Definition quoted (s : string) : string := dq +:+ s +:+ dq.

(** The literal [{"error":"msg"}] the handlers and middlewares write. *)
Definition json_error (msg : string) : string :=
  "{" +:+ quoted "error" +:+ ":" +:+ quoted msg +:+ "}".

(** ** Primitives of the libraries the code calls *)

Abbreviation uuid := N.
Definition uuid_Nil : uuid := 0%N.

(** What the code takes from [google/uuid], [time] and the SQL engine, kept
    as an interface: the services and the stores never look inside. *)
Class Env : Type := {
  uuid_String : uuid -> string;              (* uuid.UUID.String *)
  uuid_Parse : string -> option uuid;        (* uuid.Parse, [None] on error *)
  time_Parse : string -> option Z;           (* time.Parse("2006-01-02", s) *)
  ilike : string -> string -> bool           (* title ILIKE pattern *)
}.

(** The one law of the interface the session store relies on. *)
Class EnvLaws `{Env} : Prop := {
  uuid_Parse_String : forall u : uuid, uuid_Parse (uuid_String u) = Some u
}.

(** ** internal/models *)

Inductive Provider : Type := ProviderGitHub | ProviderGoogle.

Module User.
Record t : Type := {
  ID : uuid;
  ProviderID : string;
  Provider : Provider;
  Email : string;
  Name : string;
  CreatedAt : Z;
  UpdatedAt : Z
}.
End User.

Module Movie.
Record t : Type := {
  ID : uuid;
  TmdbID : Z;
  CreatedAt : Z;
  UpdatedAt : Z;
  Title : string;
  PosterPath : option string;
  ReleaseDate : option Z;
  TmdbScore : Z;
  Score : Z;
  Watched : bool;
  UserID : uuid
}.
End Movie.

Module CreateMovieInput.
Record t : Type := {
  TmdbID : Z;
  Title : string;
  PosterPath : option string;
  ReleaseDate : option string;
  Watched : bool;
  TmdbScore : Z;
  Score : option Z
}.
End CreateMovieInput.

Module UpdateMovieInput.
Record t : Type := {
  ID : uuid;
  Score : option Z;
  Watched : option bool
}.
End UpdateMovieInput.

Module ListMoviesInput.
Record t : Type := {
  Watched : bool;
  Query : string;
  Page : Z;
  Limit : Z
}.
End ListMoviesInput.

Module PaginatedMovies.
Record t : Type := {
  Results : list Movie.t;
  Page : Z;
  Count : Z;
  TotalPages : Z
}.
End PaginatedMovies.

Module Serie.
Record t : Type := {
  ID : uuid;
  TmdbID : Z;
  CreatedAt : Z;
  UpdatedAt : Z;
  Title : string;
  PosterPath : option string;
  FirstAired : option Z;
  TmdbScore : Z;
  Score : Z;
  Watched : bool;
  UserID : uuid
}.
End Serie.

Module CreateSerieInput.
Record t : Type := {
  TmdbID : Z;
  Title : string;
  PosterPath : option string;
  FirstAired : option string;
  Watched : bool;
  TmdbScore : Z;
  Score : option Z
}.
End CreateSerieInput.

Module UpdateSerieInput.
Record t : Type := {
  ID : uuid;
  Score : option Z;
  Watched : option bool
}.
End UpdateSerieInput.

Module ListSeriesInput.
Record t : Type := {
  Watched : bool;
  Query : string;
  Page : Z;
  Limit : Z
}.
End ListSeriesInput.

Module PaginatedSeries.
Record t : Type := {
  Results : list Serie.t;
  Page : Z;
  Count : Z;
  TotalPages : Z
}.
End PaginatedSeries.

(** ** The world outside the process *)

Record Cookie : Type := {
  Cookie_Name : string;
  Cookie_Value : string;
  Cookie_Path : string;
  Cookie_MaxAge : Z;
  Cookie_HttpOnly : bool;
  Cookie_Secure : bool;
  Cookie_SameSiteLax : bool
}.

Inductive event : Type :=
  | RedisGET (key : string)
  | RedisSET (key value : string) (ttl : Z)
  | RedisEXPIRE (key : string) (ttl : Z)
  | RedisDEL (key : string)
  | RedisEXISTS (key : string)
  | RedisZREMRANGEBYSCORE (key : string) (lo hi : Z)
  | RedisZCARD (key : string)
  | RedisZADD (key : string) (score : Z) (member : string)
  | HttpSetCookie (c : Cookie)
  | HttpRedirect (url : string) (code : Z)
  | HttpError (body : string) (code : Z)
  | HttpServeNext (identity : option (User.t * uuid)).

(** Redis keeps a string keyspace (sessions) and a sorted-set keyspace (rate
    windows); the two never meet because their keys carry different
    prefixes.  Every key has an optional absolute expiry; a key whose expiry
    has passed is invisible to every command. *)
Record World : Type := {
  redis_up : bool;
  strings : gmap string (string * option Z);
  zsets : gmap string (gmap string Z * option Z);
  trace : list event
}.

Definition emit (e : event) (w : World) : World :=
  {| redis_up := redis_up w; strings := strings w; zsets := zsets w;
     trace := trace w ++ [e] |}.

Definition set_strings (s : gmap string (string * option Z)) (w : World) : World :=
  {| redis_up := redis_up w; strings := s; zsets := zsets w; trace := trace w |}.

Definition set_zsets (z : gmap string (gmap string Z * option Z)) (w : World) : World :=
  {| redis_up := redis_up w; strings := strings w; zsets := z; trace := trace w |}.

(** State monad over the world. *)
Definition M (A : Type) : Type := World -> A * World.

#[global] Instance M_ret : MRet M := fun A a w => (a, w).
#[global] Instance M_bind : MBind M :=
  fun A B k m w => let '(a, w') := m w in k a w'.

Definition tell (e : event) : M unit := fun w => (tt, emit e w).

(** ** Redis commands *)

Module Redis.

Definition conn_refused : error := OpError "dial tcp: connect: connection refused".

Definition live {V} (now : Z) (e : V * option Z) : bool :=
  match e.2 with
  | None => true
  | Some t => now <? t
  end.

Definition expiry (now ttl : Z) : option Z :=
  if 0 <? ttl then Some (now + ttl) else None.

(** The visible entry of a key at instant [now]. *)
Definition peek {V} (now : Z) (m : gmap string (V * option Z)) (key : string)
  : option (V * option Z) :=
  match m !! key with
  | Some e => if live now e then Some e else None
  | None => None
  end.

(** [GET key]. *)
Definition GET (now : Z) (key : string) : M (string + error) :=
  fun w0 =>
    let w := emit (RedisGET key) w0 in
    if redis_up w then
      match peek now (strings w) key with
      | Some (v, _) => (inl v, w)
      | None => (inr RedisNil, w)
      end
    else (inr conn_refused, w).

(** [SET key value EX ttl]; without a positive [ttl] the key never expires. *)
Definition SET (now : Z) (key value : string) (ttl : Z) : M (option error) :=
  fun w0 =>
    let w := emit (RedisSET key value ttl) w0 in
    if redis_up w then
      (None, set_strings (<[key := (value, expiry now ttl)]> (strings w)) w)
    else (Some conn_refused, w).

(** [EXPIRE key ttl] on a string key: a non-positive [ttl] deletes it. *)
Definition EXPIRE (now : Z) (key : string) (ttl : Z) : M (bool + error) :=
  fun w0 =>
    let w := emit (RedisEXPIRE key ttl) w0 in
    if redis_up w then
      match peek now (strings w) key with
      | Some (v, _) =>
          if 0 <? ttl
          then (inl true, set_strings (<[key := (v, Some (now + ttl))]> (strings w)) w)
          else (inl true, set_strings (delete key (strings w)) w)
      | None => (inl false, w)
      end
    else (inr conn_refused, w).

(** [DEL key]: the number of keys removed. *)
Definition DEL (now : Z) (key : string) : M (Z + error) :=
  fun w0 =>
    let w := emit (RedisDEL key) w0 in
    if redis_up w then
      match peek now (strings w) key with
      | Some _ => (inl 1, set_strings (delete key (strings w)) w)
      | None => (inl 0, set_strings (delete key (strings w)) w)
      end
    else (inr conn_refused, w).

(** [EXISTS key]. *)
Definition EXISTS (now : Z) (key : string) : M (Z + error) :=
  fun w0 =>
    let w := emit (RedisEXISTS key) w0 in
    if redis_up w then
      match peek now (strings w) key with
      | Some _ => (inl 1, w)
      | None => (inl 0, w)
      end
    else (inr conn_refused, w).

(** The visible members of a sorted set. *)
Definition zpeek (now : Z) (w : World) (key : string) : gmap string Z :=
  match peek now (zsets w) key with
  | Some (z, _) => z
  | None => ∅
  end.

Definition zexpiry (now : Z) (w : World) (key : string) : option Z :=
  match peek now (zsets w) key with
  | Some (_, t) => t
  | None => None
  end.

(** Store a sorted set back; an empty set removes its key. *)
Definition zstore (key : string) (z : gmap string Z) (t : option Z) (w : World) : World :=
  if decide (z = ∅) then set_zsets (delete key (zsets w)) w
  else set_zsets (<[key := (z, t)]> (zsets w)) w.

(** [ZREMRANGEBYSCORE key lo hi]: drops the members scored in [lo, hi]. *)
Definition ZREMRANGEBYSCORE (now : Z) (key : string) (lo hi : Z) (w : World) : World :=
  let z := filter (fun kv => negb ((lo <=? kv.2) && (kv.2 <=? hi)) = true) (zpeek now w key) in
  zstore key z (zexpiry now w key) w.

(** [ZCARD key]. *)
Definition ZCARD (now : Z) (key : string) (w : World) : Z :=
  Z.of_nat (size (zpeek now w key)).

(** [ZADD key score member]: a member already present only has its score
    replaced. *)
Definition ZADD (now : Z) (key : string) (score : Z) (member : string) (w : World) : World :=
  zstore key (<[member := score]> (zpeek now w key)) (zexpiry now w key) w.

(** [EXPIRE key ttl] on a sorted-set key. *)
Definition ZEXPIRE (now : Z) (key : string) (ttl : Z) (w : World) : World :=
  match peek now (zsets w) key with
  | Some (z, _) =>
      if 0 <? ttl then set_zsets (<[key := (z, Some (now + ttl))]> (zsets w)) w
      else set_zsets (delete key (zsets w)) w
  | None => w
  end.

End Redis.

(** ** internal/database/redis.go: SessionStore *)

Module SessionStore.
Section SessionStore.
Context `{Env}.

Record t : Type := { ttl : Z }.

(** [NewSessionStore]: a zero TTL means the default of seven days. *)
Definition NewSessionStore (ttl : Z) : t :=
  {| ttl := if ttl =? 0 then 7 * 24 * 3600 else ttl |}.

Definition key (sessionID : string) : string := "session:" +:+ sessionID.

(** [Set]. *)
Definition Set_ (s : t) (now : Z) (sessionID : string) (userID : uuid) : M (option error) :=
  Redis.SET now (key sessionID) (uuid_String userID) (ttl s).

(** [Get]. *)
Definition Get (s : t) (now : Z) (sessionID : string) : M (uuid + error) :=
  r ← Redis.GET now (key sessionID);
  match r with
  | inr err =>
      if is_RedisNil err then mret (inr (Errorf "session not found"))
      else mret (inr (Wrapf "failed to get session: " err))
  | inl val =>
      match uuid_Parse val with
      | None => mret (inr (Wrapf "invalid user ID in session: " (InvalidUUID val)))
      | Some userID =>
          (* Refresh TTL on access; the result of Expire is dropped *)
          Redis.EXPIRE now (key sessionID) (ttl s) ;;
          mret (inl userID)
      end
  end.

(** [Delete]. *)
Definition Delete (s : t) (now : Z) (sessionID : string) : M (option error) :=
  r ← Redis.DEL now (key sessionID);
  match r with
  | inl _ => mret None
  | inr err => mret (Some err)
  end.

(** [Exists]. *)
Definition Exists (s : t) (now : Z) (sessionID : string) : M (bool + error) :=
  r ← Redis.EXISTS now (key sessionID);
  match r with
  | inr err => mret (inr (Wrapf "failed to check session existence: " err))
  | inl result => mret (inl (0 <? result))
  end.

End SessionStore.
End SessionStore.

(** ** internal/middleware/ratelimit.go: RateLimiter *)

Module RateLimiter.

Record t : Type := {
  maxRequests : Z;
  window : Z;
  isProduction : bool
}.

Definition NewRateLimiter (maxRequests window : Z) (isProduction : bool) : t :=
  {| maxRequests := maxRequests; window := window; isProduction := isProduction |}.

Definition key (identifier : string) : string := "ratelimit:" +:+ identifier.

(** [checkRateLimit].  The four queued commands are sent by [pipe.Exec] and
    run in order; [fmt.Sprintf("%d", now)] is the decimal rendering of
    [now]. *)
Definition checkRateLimit (rl : t) (now : Z) (identifier : string)
  : M (bool * option error) :=
  if negb (isProduction rl) then mret (true, None)
  else
    let key := key identifier in
    let windowStart := now - window rl in
    let member := pretty now in
    fun w0 =>
      let w := emit (RedisEXPIRE key (window rl))
                 (emit (RedisZADD key now member)
                    (emit (RedisZCARD key)
                       (emit (RedisZREMRANGEBYSCORE key 0 windowStart) w0))) in
      if redis_up w then
        let w1 := Redis.ZREMRANGEBYSCORE now key 0 windowStart w in
        let count := Redis.ZCARD now key w1 in
        let w2 := Redis.ZADD now key now member w1 in
        let w3 := Redis.ZEXPIRE now key (window rl) w2 in
        ((count <? maxRequests rl, None), w3)
      else ((false, Some Redis.conn_refused), w).

End RateLimiter.

(** ** internal/services/user_service.go: UserService.Get *)

Module UserService.

(** [SELECT ... FROM "User" WHERE id = $1], scanned by [QueryRow]. *)
Definition Get (users : list User.t) (id : uuid) : User.t + error :=
  match find (fun u => bool_decide (User.ID u = id)) users with
  | Some user => inl user
  | None => inr ErrNoRows
  end.

End UserService.

(** ** The auth middleware *)

Definition StatusSeeOther : Z := 303.
Definition StatusUnauthorized : Z := 401.

Module AuthMiddleware.
Section AuthMiddleware.
Context `{Env}.

Record t : Type := {
  sessionStore : SessionStore.t;
  cookieName : string;
  isProduction : bool
}.

Definition NewAuthMiddleware (sessionStore : SessionStore.t) (cookieName : string)
    (isProduction : bool) : t :=
  {| sessionStore := sessionStore;
     cookieName := if String.eqb cookieName EmptyString then "session" else cookieName;
     isProduction := isProduction |}.

(** The part of [*http.Request] the middleware reads: the cookies sent,
    as (name, value) pairs in header order. *)
Record Request : Type := { Cookies : list (string * string) }.

(** [r.Cookie(name)]: the first cookie of that name. *)
Definition Request_Cookie (r : Request) (name : string) : string + error :=
  if String.eqb name EmptyString then inr ErrNoCookie
  else
    match find (fun c => String.eqb c.1 name) (Cookies r) with
    | Some c => inl c.2
    | None => inr ErrNoCookie
    end.

(** The cookie [RequireAuth] writes to clear the session. *)
Definition cleared_cookie (m : t) : Cookie :=
  {| Cookie_Name := cookieName m; Cookie_Value := EmptyString; Cookie_Path := "/";
     Cookie_MaxAge := -1; Cookie_HttpOnly := false; Cookie_Secure := false;
     Cookie_SameSiteLax := false |}.

(** [RequireAuth]. *)
Definition RequireAuth (m : t) (users : list User.t) (now : Z) (r : Request) : M unit :=
  match Request_Cookie r (cookieName m) with
  | inr _ => tell (HttpRedirect "/login" StatusSeeOther)
  | inl cookieValue =>
      res ← SessionStore.Get (sessionStore m) now cookieValue;
      match res with
      | inr _ => tell (HttpRedirect "/login" StatusSeeOther)
      | inl userID =>
          match UserService.Get users userID with
          | inr _ =>
              SessionStore.Delete (sessionStore m) now cookieValue;;
              tell (HttpSetCookie (cleared_cookie m));;
              tell (HttpRedirect "/login" StatusSeeOther)
          | inl user => tell (HttpServeNext (Some (user, userID)))
          end
      end
  end.

(** [OptionalAuth]. *)
Definition OptionalAuth (m : t) (users : list User.t) (now : Z) (r : Request) : M unit :=
  match Request_Cookie r (cookieName m) with
  | inr _ => tell (HttpServeNext None)
  | inl cookieValue =>
      res ← SessionStore.Get (sessionStore m) now cookieValue;
      match res with
      | inr _ => tell (HttpServeNext None)
      | inl userID =>
          match UserService.Get users userID with
          | inr _ => tell (HttpServeNext None)
          | inl user => tell (HttpServeNext (Some (user, userID)))
          end
      end
  end.

(** [RequireAuthAPI]. *)
Definition RequireAuthAPI (m : t) (users : list User.t) (now : Z) (r : Request) : M unit :=
  match Request_Cookie r (cookieName m) with
  | inr _ => tell (HttpError (json_error "Unauthorized") StatusUnauthorized)
  | inl cookieValue =>
      res ← SessionStore.Get (sessionStore m) now cookieValue;
      match res with
      | inr _ => tell (HttpError (json_error "Unauthorized") StatusUnauthorized)
      | inl userID =>
          match UserService.Get users userID with
          | inr _ => tell (HttpError (json_error "Unauthorized") StatusUnauthorized)
          | inl user => tell (HttpServeNext (Some (user, userID)))
          end
      end
  end.

End AuthMiddleware.
End AuthMiddleware.

(** ** The SQL engine *)

Module Pg.

Definition unique_message (constraint : string) : string :=
  "duplicate key value violates unique constraint " +:+ quoted constraint.

Definition foreign_key_message (table constraint : string) : string :=
  "insert or update on table " +:+ quoted table +:+
  " violates foreign key constraint " +:+ quoted constraint.

(** SQLSTATE 23505. *)
Definition unique_violation (constraint : string) : error :=
  PgError "23505" (unique_message constraint).

(** SQLSTATE 23503. *)
Definition foreign_key_violation (table constraint : string) : error :=
  PgError "23503" (foreign_key_message table constraint).

(** SQLSTATE 2201X, raised while the rows are produced. *)
Definition negative_offset : error := PgError "2201X" "OFFSET must not be negative".

(** [ORDER BY key DESC]; rows with equal keys keep their table order. *)
Fixpoint insert_desc {A} (key : A -> Z) (x : A) (l : list A) : list A :=
  match l with
  | [] => [x]
  | y :: l' => if key y <=? key x then x :: l else y :: insert_desc key x l'
  end.

Definition order_by_desc {A} (key : A -> Z) (l : list A) : list A :=
  foldr (insert_desc key) [] l.

(** [LIMIT limit OFFSET offset], both non-negative. *)
Definition limit_offset {A} (limit offset : Z) (l : list A) : list A :=
  take (Z.to_nat limit) (drop (Z.to_nat offset) l).

(** [REFERENCES "User"("id")]. *)
Definition user_exists (users : list User.t) (id : uuid) : bool :=
  existsb (fun u => bool_decide (User.ID u = id)) users.

End Pg.

(** [int(math.Ceil(float64(total) / float64(limit)))] for a row count and a
    limit in [1, 100]: the quotient of two such integers is an integer or
    lies at least 1/100 away from one, far more than the rounding of a
    float64 division of counts below 2^47, so the result is the integer
    ceiling. *)
Definition ceil_div (total limit : Z) : Z := (total + limit - 1) / limit.

(** ** The movie service *)

Module MovieService.
Section MovieService.
Context `{Env}.

(** [WHERE "userId" = $1 AND watched = $2], and [AND title ILIKE $3] with
    [$3 = "%" + Query + "%"] when the query text is not empty. *)
Definition list_where (userID : uuid) (watched : bool) (query : string)
    (m : Movie.t) : bool :=
  bool_decide (Movie.UserID m = userID)
  && Bool.eqb (Movie.Watched m) watched
  && (if String.eqb query EmptyString then true
      else ilike (Movie.Title m) ("%" +:+ query +:+ "%")).

(** [List]. *)
Definition List (tbl : list Movie.t) (userID : uuid) (input : ListMoviesInput.t)
  : PaginatedMovies.t + error :=
  let Page :=
    if ListMoviesInput.Page input <? 1 then 1 else ListMoviesInput.Page input in
  let Limit :=
    if (ListMoviesInput.Limit input <? 1) || (100 <? ListMoviesInput.Limit input)
    then 27 else ListMoviesInput.Limit input in
  let offset := wrap64 ((Page - 1) * Limit) in
  let matching :=
    List.filter
      (list_where userID (ListMoviesInput.Watched input) (ListMoviesInput.Query input))
      tbl in
  (* SELECT COUNT( * ) *)
  let total := Z.of_nat (length matching) in
  (* SELECT ... ORDER BY "tmdbScore" DESC LIMIT $n OFFSET $m *)
  if offset <? 0 then inr (Wrapf "error iterating movies: " Pg.negative_offset)
  else
    let movies := Pg.limit_offset Limit offset (Pg.order_by_desc Movie.TmdbScore matching) in
    let totalPages := ceil_div total Limit in
    inl {| PaginatedMovies.Results := movies;
           PaginatedMovies.Page := Page;
           PaginatedMovies.Count := total;
           PaginatedMovies.TotalPages := totalPages |}.

(** [INSERT INTO "Movie" ... RETURNING ...] under the constraints of the
    table: primary key [id], [UNIQUE("tmdbId", "userId")], and the
    reference to ["User"]. *)
Definition insert (users : list User.t) (tbl : list Movie.t) (row : Movie.t)
  : (Movie.t + error) * list Movie.t :=
  if existsb (fun m => bool_decide (Movie.ID m = Movie.ID row)) tbl
  then (inr (Pg.unique_violation "Movie_pkey"), tbl)
  else if existsb (fun m => bool_decide (Movie.TmdbID m = Movie.TmdbID row)
                            && bool_decide (Movie.UserID m = Movie.UserID row)) tbl
  then (inr (Pg.unique_violation "Movie_tmdbId_userId_unique"), tbl)
  else if negb (Pg.user_exists users (Movie.UserID row))
  then (inr (Pg.foreign_key_violation "Movie" "Movie_userId_User_id_fk"), tbl)
  else (inl row, tbl ++ [row]).

(** [Create].  [newid] is the value [gen_random_uuid()] draws and [now] the
    value of [now()] for the inserted row. *)
Definition Create (users : list User.t) (tbl : list Movie.t) (newid : uuid) (now : Z)
    (userID : uuid) (input : CreateMovieInput.t) : (Movie.t + error) * list Movie.t :=
  let score :=
    match CreateMovieInput.Score input with
    | Some s => s
    | None => 0
    end in
  let releaseDate :=
    match CreateMovieInput.ReleaseDate input with
    | Some d =>
        if String.eqb d EmptyString then None
        else match time_Parse d with
             | Some parsedDate => Some parsedDate
             | None => None
             end
    | None => None
    end in
  let row :=
    {| Movie.ID := newid;
       Movie.TmdbID := CreateMovieInput.TmdbID input;
       Movie.CreatedAt := now;
       Movie.UpdatedAt := now;
       Movie.Title := CreateMovieInput.Title input;
       Movie.PosterPath := CreateMovieInput.PosterPath input;
       Movie.ReleaseDate := releaseDate;
       Movie.TmdbScore := CreateMovieInput.TmdbScore input;
       Movie.Score := score;
       Movie.Watched := CreateMovieInput.Watched input;
       Movie.UserID := userID |} in
  match insert users tbl row with
  | (inr err, tbl') => (inr (Wrapf "failed to create movie: " err), tbl')
  | (inl movie, tbl') => (inl movie, tbl')
  end.

(** [WHERE id = $1 AND "userId" = $2]. *)
Definition owned (id userID : uuid) (m : Movie.t) : bool :=
  bool_decide (Movie.ID m = id) && bool_decide (Movie.UserID m = userID).

(** [Get]: the error of [QueryRow(...).Scan] is returned as it is. *)
Definition Get (tbl : list Movie.t) (id userID : uuid) : Movie.t + error :=
  match find (owned id userID) tbl with
  | Some movie => inl movie
  | None => inr ErrNoRows
  end.

(** The [SET] list of [Update]: ["updatedAt" = NOW()], then [score] and
    [watched] when supplied. *)
Definition assign (now : Z) (input : UpdateMovieInput.t) (m : Movie.t) : Movie.t :=
  {| Movie.ID := Movie.ID m;
     Movie.TmdbID := Movie.TmdbID m;
     Movie.CreatedAt := Movie.CreatedAt m;
     Movie.UpdatedAt := now;
     Movie.Title := Movie.Title m;
     Movie.PosterPath := Movie.PosterPath m;
     Movie.ReleaseDate := Movie.ReleaseDate m;
     Movie.TmdbScore := Movie.TmdbScore m;
     Movie.Score :=
       match UpdateMovieInput.Score input with
       | Some s => s
       | None => Movie.Score m
       end;
     Movie.Watched :=
       match UpdateMovieInput.Watched input with
       | Some b => b
       | None => Movie.Watched m
       end;
     Movie.UserID := Movie.UserID m |}.

(** [Update]: every error of [QueryRow(...).Scan], [pgx.ErrNoRows]
    included, is wrapped. *)
Definition Update (tbl : list Movie.t) (now : Z) (userID : uuid)
    (input : UpdateMovieInput.t) : (Movie.t + error) * list Movie.t :=
  let hit := owned (UpdateMovieInput.ID input) userID in
  let tbl' := map (fun m => if hit m then assign now input m else m) tbl in
  match find hit tbl with
  | Some m => (inl (assign now input m), tbl')
  | None => (inr (Wrapf "failed to update movie: " ErrNoRows), tbl')
  end.

(** [Delete]. *)
Definition Delete (tbl : list Movie.t) (id userID : uuid)
  : option error * list Movie.t :=
  let rowsAffected := length (List.filter (owned id userID) tbl) in
  let tbl' := List.filter (fun m => negb (owned id userID m)) tbl in
  if (rowsAffected =? 0)%nat then (Some ErrNoRows, tbl') else (None, tbl').

End MovieService.
End MovieService.

(** ** The serie service *)

Module SerieService.
Section SerieService.
Context `{Env}.

(** [WHERE "userId" = $1 AND watched = $2], and [AND title ILIKE $3] with
    [$3 = "%" + Query + "%"] when the query text is not empty. *)
Definition list_where (userID : uuid) (watched : bool) (query : string)
    (m : Serie.t) : bool :=
  bool_decide (Serie.UserID m = userID)
  && Bool.eqb (Serie.Watched m) watched
  && (if String.eqb query EmptyString then true
      else ilike (Serie.Title m) ("%" +:+ query +:+ "%")).

(** [List]. *)
Definition List (tbl : list Serie.t) (userID : uuid) (input : ListSeriesInput.t)
  : PaginatedSeries.t + error :=
  let Page :=
    if ListSeriesInput.Page input <? 1 then 1 else ListSeriesInput.Page input in
  let Limit :=
    if (ListSeriesInput.Limit input <? 1) || (100 <? ListSeriesInput.Limit input)
    then 27 else ListSeriesInput.Limit input in
  let offset := wrap64 ((Page - 1) * Limit) in
  let matching :=
    List.filter
      (list_where userID (ListSeriesInput.Watched input) (ListSeriesInput.Query input))
      tbl in
  (* SELECT COUNT( * ) *)
  let total := Z.of_nat (length matching) in
  (* SELECT ... ORDER BY "tmdbScore" DESC LIMIT $n OFFSET $m *)
  if offset <? 0 then inr (Wrapf "error iterating series: " Pg.negative_offset)
  else
    let series := Pg.limit_offset Limit offset (Pg.order_by_desc Serie.TmdbScore matching) in
    let totalPages := ceil_div total Limit in
    inl {| PaginatedSeries.Results := series;
           PaginatedSeries.Page := Page;
           PaginatedSeries.Count := total;
           PaginatedSeries.TotalPages := totalPages |}.

(** [INSERT INTO "Serie" ... RETURNING ...] under the constraints of the
    table: primary key [id], [UNIQUE("tmdbId", "userId")], and the
    reference to ["User"]. *)
Definition insert (users : list User.t) (tbl : list Serie.t) (row : Serie.t)
  : (Serie.t + error) * list Serie.t :=
  if existsb (fun m => bool_decide (Serie.ID m = Serie.ID row)) tbl
  then (inr (Pg.unique_violation "Serie_pkey"), tbl)
  else if existsb (fun m => bool_decide (Serie.TmdbID m = Serie.TmdbID row)
                            && bool_decide (Serie.UserID m = Serie.UserID row)) tbl
  then (inr (Pg.unique_violation "Serie_tmdbId_userId_unique"), tbl)
  else if negb (Pg.user_exists users (Serie.UserID row))
  then (inr (Pg.foreign_key_violation "Serie" "Serie_userId_User_id_fk"), tbl)
  else (inl row, tbl ++ [row]).

(** [Create].  [newid] is the value [gen_random_uuid()] draws and [now] the
    value of [now()] for the inserted row. *)
Definition Create (users : list User.t) (tbl : list Serie.t) (newid : uuid) (now : Z)
    (userID : uuid) (input : CreateSerieInput.t) : (Serie.t + error) * list Serie.t :=
  let score :=
    match CreateSerieInput.Score input with
    | Some s => s
    | None => 0
    end in
  let firstAired :=
    match CreateSerieInput.FirstAired input with
    | Some d =>
        if String.eqb d EmptyString then None
        else match time_Parse d with
             | Some parsedDate => Some parsedDate
             | None => None
             end
    | None => None
    end in
  let row :=
    {| Serie.ID := newid;
       Serie.TmdbID := CreateSerieInput.TmdbID input;
       Serie.CreatedAt := now;
       Serie.UpdatedAt := now;
       Serie.Title := CreateSerieInput.Title input;
       Serie.PosterPath := CreateSerieInput.PosterPath input;
       Serie.FirstAired := firstAired;
       Serie.TmdbScore := CreateSerieInput.TmdbScore input;
       Serie.Score := score;
       Serie.Watched := CreateSerieInput.Watched input;
       Serie.UserID := userID |} in
  match insert users tbl row with
  | (inr err, tbl') => (inr (Wrapf "failed to create serie: " err), tbl')
  | (inl serie, tbl') => (inl serie, tbl')
  end.

(** [WHERE id = $1 AND "userId" = $2]. *)
Definition owned (id userID : uuid) (m : Serie.t) : bool :=
  bool_decide (Serie.ID m = id) && bool_decide (Serie.UserID m = userID).

(** [Get]: the error of [QueryRow(...).Scan] is returned as it is. *)
Definition Get (tbl : list Serie.t) (id userID : uuid) : Serie.t + error :=
  match find (owned id userID) tbl with
  | Some serie => inl serie
  | None => inr ErrNoRows
  end.

(** The [SET] list of [Update]: ["updatedAt" = NOW()], then [score] and
    [watched] when supplied. *)
Definition assign (now : Z) (input : UpdateSerieInput.t) (m : Serie.t) : Serie.t :=
  {| Serie.ID := Serie.ID m;
     Serie.TmdbID := Serie.TmdbID m;
     Serie.CreatedAt := Serie.CreatedAt m;
     Serie.UpdatedAt := now;
     Serie.Title := Serie.Title m;
     Serie.PosterPath := Serie.PosterPath m;
     Serie.FirstAired := Serie.FirstAired m;
     Serie.TmdbScore := Serie.TmdbScore m;
     Serie.Score :=
       match UpdateSerieInput.Score input with
       | Some s => s
       | None => Serie.Score m
       end;
     Serie.Watched :=
       match UpdateSerieInput.Watched input with
       | Some b => b
       | None => Serie.Watched m
       end;
     Serie.UserID := Serie.UserID m |}.

(** [Update]: every error of [QueryRow(...).Scan], [pgx.ErrNoRows]
    included, is wrapped. *)
Definition Update (tbl : list Serie.t) (now : Z) (userID : uuid)
    (input : UpdateSerieInput.t) : (Serie.t + error) * list Serie.t :=
  let hit := owned (UpdateSerieInput.ID input) userID in
  let tbl' := map (fun m => if hit m then assign now input m else m) tbl in
  match find hit tbl with
  | Some m => (inl (assign now input m), tbl')
  | None => (inr (Wrapf "failed to update serie: " ErrNoRows), tbl')
  end.

(** [Delete]. *)
Definition Delete (tbl : list Serie.t) (id userID : uuid)
  : option error * list Serie.t :=
  let rowsAffected := length (List.filter (owned id userID) tbl) in
  let tbl' := List.filter (fun m => negb (owned id userID m)) tbl in
  if (rowsAffected =? 0)%nat then (Some ErrNoRows, tbl') else (None, tbl').

End SerieService.
End SerieService.

(** ** internal/handlers/movies.go: MovieHandler *)

Definition StatusOK : Z := 200.
Definition StatusCreated : Z := 201.
Definition StatusNoContent : Z := 204.
Definition StatusBadRequest : Z := 400.
Definition StatusNotFound : Z := 404.
Definition StatusConflict : Z := 409.
Definition StatusInternalServerError : Z := 500.

Module MovieHandler.
Section MovieHandler.
Context `{Env}.

(** What a handler reads of its request: the user ID the auth middleware
    left in the context, the [{id}] path segment, and the JSON body already
    decoded ([None] when decoding fails). *)
Record Request (B : Type) : Type := {
  UserIDFromContext : option uuid;
  PathValue_id : string;
  Body : option B
}.
Arguments UserIDFromContext {B} _.
Arguments PathValue_id {B} _.
Arguments Body {B} _.

Inductive Payload : Type :=
  | Text (body : string)                             (* http.Error *)
  | MovieJSON (movie : Movie.t)
  | CreatedJSON (movie : Movie.t) (message : string)
  | NoBody.

Record Response : Type := { Status : Z; Written : Payload }.

Definition http_Error (body : string) (code : Z) : Response :=
  {| Status := code; Written := Text body |}.

(** [Create]: POST /api/movies. *)
Definition Create (users : list User.t) (tbl : list Movie.t) (newid : uuid) (now : Z)
    (r : Request CreateMovieInput.t) : Response * list Movie.t :=
  match UserIDFromContext r with
  | None => (http_Error (json_error "Unauthorized") StatusUnauthorized, tbl)
  | Some userID =>
      match Body r with
      | None => (http_Error (json_error "Invalid request body") StatusBadRequest, tbl)
      | Some input =>
          match MovieService.Create users tbl newid now userID input with
          | (inr err, tbl') =>
              (* Check for duplicate *)
              if String.eqb (Error err) "duplicate key value violates unique constraint"
              then (http_Error (json_error "Movie already in your library") StatusConflict, tbl')
              else (http_Error (json_error "Failed to create movie")
                      StatusInternalServerError, tbl')
          | (inl movie, tbl') =>
              ({| Status := StatusCreated;
                  Written := CreatedJSON movie "Movie added to your library!" |}, tbl')
          end
      end
  end.

(** [Get]: GET /api/movies/{id}. *)
Definition Get (tbl : list Movie.t) (r : Request unit) : Response :=
  match UserIDFromContext r with
  | None => http_Error (json_error "Unauthorized") StatusUnauthorized
  | Some userID =>
      match uuid_Parse (PathValue_id r) with
      | None => http_Error (json_error "Invalid movie ID") StatusBadRequest
      | Some movieID =>
          match MovieService.Get tbl movieID userID with
          | inr err =>
              if is_ErrNoRows err
              then http_Error (json_error "Movie not found") StatusNotFound
              else http_Error (json_error "Failed to fetch movie") StatusInternalServerError
          | inl movie => {| Status := StatusOK; Written := MovieJSON movie |}
          end
      end
  end.

(** [Update]: PATCH /api/movies/{id}. *)
Definition Update (tbl : list Movie.t) (now : Z) (r : Request UpdateMovieInput.t)
  : Response * list Movie.t :=
  match UserIDFromContext r with
  | None => (http_Error (json_error "Unauthorized") StatusUnauthorized, tbl)
  | Some userID =>
      match uuid_Parse (PathValue_id r) with
      | None => (http_Error (json_error "Invalid movie ID") StatusBadRequest, tbl)
      | Some movieID =>
          match Body r with
          | None => (http_Error (json_error "Invalid request body") StatusBadRequest, tbl)
          | Some decoded =>
              let input :=
                {| UpdateMovieInput.ID := movieID;
                   UpdateMovieInput.Score := UpdateMovieInput.Score decoded;
                   UpdateMovieInput.Watched := UpdateMovieInput.Watched decoded |} in
              match MovieService.Update tbl now userID input with
              | (inr err, tbl') =>
                  if is_ErrNoRows err
                  then (http_Error (json_error "Movie not found") StatusNotFound, tbl')
                  else (http_Error (json_error "Failed to update movie")
                          StatusInternalServerError, tbl')
              | (inl movie, tbl') => ({| Status := StatusOK; Written := MovieJSON movie |}, tbl')
              end
          end
      end
  end.

(** [Delete]: DELETE /api/movies/{id}. *)
Definition Delete (tbl : list Movie.t) (r : Request unit) : Response * list Movie.t :=
  match UserIDFromContext r with
  | None => (http_Error (json_error "Unauthorized") StatusUnauthorized, tbl)
  | Some userID =>
      match uuid_Parse (PathValue_id r) with
      | None => (http_Error (json_error "Invalid movie ID") StatusBadRequest, tbl)
      | Some movieID =>
          match MovieService.Delete tbl movieID userID with
          | (Some err, tbl') =>
              if is_ErrNoRows err
              then (http_Error (json_error "Movie not found") StatusNotFound, tbl')
              else (http_Error (json_error "Failed to delete movie")
                      StatusInternalServerError, tbl')
          | (None, tbl') => ({| Status := StatusNoContent; Written := NoBody |}, tbl')
          end
      end
  end.

End MovieHandler.

Arguments UserIDFromContext {B} _.
Arguments PathValue_id {B} _.
Arguments Body {B} _.
Arguments Build_Request {B} _ _ _.

End MovieHandler.

(** ** A concrete environment

    One implementation of [Env], used to run the model on concrete inputs:
    identifiers are written in hexadecimal and only that canonical writing
    parses back; a date is ten characters with dashes in the fifth and eighth
    place; a pattern matches when, case aside, its text between the two [%]
    occurs in the title. *)

Module Sample.

Definition hex_of_uuid (u : uuid) : string := HexString.of_N u.

Definition uuid_of_hex (s : string) : option uuid :=
  let n := HexString.to_N s in
  if String.eqb (HexString.of_N n) s then Some n else None.

Fixpoint digits_from (acc : Z) (s : string) : Z :=
  match s with
  | EmptyString => acc
  | String c s' => digits_from (10 * acc + (Z.of_nat (nat_of_ascii c) - 48)) s'
  end.

Definition digits_value (s : string) : Z := digits_from 0 s.

Definition parse_date (s : string) : option Z :=
  if (String.length s =? 10)%nat
     && String.eqb (String.substring 4 1 s) "-"
     && String.eqb (String.substring 7 1 s) "-"
  then Some (digits_value (String.substring 0 4 s) * 10000
             + digits_value (String.substring 5 2 s) * 100
             + digits_value (String.substring 8 2 s))
  else None.

Definition lower (c : ascii) : ascii :=
  let n := nat_of_ascii c in
  if (65 <=? n)%nat && (n <=? 90)%nat then ascii_of_nat (n + 32) else c.

Fixpoint fold_case (s : string) : string :=
  match s with
  | EmptyString => EmptyString
  | String c s' => String (lower c) (fold_case s')
  end.

Fixpoint contains (fuel : nat) (needle hay : string) : bool :=
  String.prefix needle hay
  || match fuel, hay with
     | S fuel', String _ hay' => contains fuel' needle hay'
     | _, _ => false
     end.

Definition matches (title pattern : string) : bool :=
  let inner := String.substring 1 (String.length pattern - 2) pattern in
  contains (String.length title) (fold_case inner) (fold_case title).

#[global] Instance env : Env :=
  {| uuid_String := hex_of_uuid;
     uuid_Parse := uuid_of_hex;
     time_Parse := parse_date;
     ilike := matches |}.

End Sample.

(** ** Reading the movie side as the serie side

    The translation under which the two services are compared: a movie row
    read as a serie row ([releaseDate] as [firstAired]), the inputs and the
    page likewise, and an error with the name of the relation replaced in
    its texts. *)

Module AsSerie.

Definition item (m : Movie.t) : Serie.t :=
  {| Serie.ID := Movie.ID m;
     Serie.TmdbID := Movie.TmdbID m;
     Serie.CreatedAt := Movie.CreatedAt m;
     Serie.UpdatedAt := Movie.UpdatedAt m;
     Serie.Title := Movie.Title m;
     Serie.PosterPath := Movie.PosterPath m;
     Serie.FirstAired := Movie.ReleaseDate m;
     Serie.TmdbScore := Movie.TmdbScore m;
     Serie.Score := Movie.Score m;
     Serie.Watched := Movie.Watched m;
     Serie.UserID := Movie.UserID m |}.

Definition list_input (i : ListMoviesInput.t) : ListSeriesInput.t :=
  {| ListSeriesInput.Watched := ListMoviesInput.Watched i;
     ListSeriesInput.Query := ListMoviesInput.Query i;
     ListSeriesInput.Page := ListMoviesInput.Page i;
     ListSeriesInput.Limit := ListMoviesInput.Limit i |}.

Definition create_input (i : CreateMovieInput.t) : CreateSerieInput.t :=
  {| CreateSerieInput.TmdbID := CreateMovieInput.TmdbID i;
     CreateSerieInput.Title := CreateMovieInput.Title i;
     CreateSerieInput.PosterPath := CreateMovieInput.PosterPath i;
     CreateSerieInput.FirstAired := CreateMovieInput.ReleaseDate i;
     CreateSerieInput.Watched := CreateMovieInput.Watched i;
     CreateSerieInput.TmdbScore := CreateMovieInput.TmdbScore i;
     CreateSerieInput.Score := CreateMovieInput.Score i |}.

Definition update_input (i : UpdateMovieInput.t) : UpdateSerieInput.t :=
  {| UpdateSerieInput.ID := UpdateMovieInput.ID i;
     UpdateSerieInput.Score := UpdateMovieInput.Score i;
     UpdateSerieInput.Watched := UpdateMovieInput.Watched i |}.

Definition page (p : PaginatedMovies.t) : PaginatedSeries.t :=
  {| PaginatedSeries.Results := map item (PaginatedMovies.Results p);
     PaginatedSeries.Page := PaginatedMovies.Page p;
     PaginatedSeries.Count := PaginatedMovies.Count p;
     PaginatedSeries.TotalPages := PaginatedMovies.TotalPages p |}.

(** The texts that name the relation, on either side. *)
Definition renames : list (string * string) :=
  [ ("error iterating movies: ", "error iterating series: ");
    ("failed to create movie: ", "failed to create serie: ");
    ("failed to update movie: ", "failed to update serie: ");
    (Pg.unique_message "Movie_pkey", Pg.unique_message "Serie_pkey");
    (Pg.unique_message "Movie_tmdbId_userId_unique",
     Pg.unique_message "Serie_tmdbId_userId_unique");
    (Pg.foreign_key_message "Movie" "Movie_userId_User_id_fk",
     Pg.foreign_key_message "Serie" "Serie_userId_User_id_fk") ].

Definition text (s : string) : string :=
  match find (fun r => String.eqb r.1 s) renames with
  | Some r => r.2
  | None => s
  end.

Fixpoint err (e : error) : error :=
  match e with
  | PgError code message => PgError code (text message)
  | Errorf msg => Errorf (text msg)
  | Wrapf prefix inner => Wrapf (text prefix) (err inner)
  | _ => e
  end.

Definition result {A B} (f : A -> B) (r : A + error) : B + error :=
  match r with
  | inl a => inl (f a)
  | inr e => inr (err e)
  end.

(** The way back, for rows and inputs. *)
Definition item_back (s : Serie.t) : Movie.t :=
  {| Movie.ID := Serie.ID s;
     Movie.TmdbID := Serie.TmdbID s;
     Movie.CreatedAt := Serie.CreatedAt s;
     Movie.UpdatedAt := Serie.UpdatedAt s;
     Movie.Title := Serie.Title s;
     Movie.PosterPath := Serie.PosterPath s;
     Movie.ReleaseDate := Serie.FirstAired s;
     Movie.TmdbScore := Serie.TmdbScore s;
     Movie.Score := Serie.Score s;
     Movie.Watched := Serie.Watched s;
     Movie.UserID := Serie.UserID s |}.

Definition list_input_back (i : ListSeriesInput.t) : ListMoviesInput.t :=
  {| ListMoviesInput.Watched := ListSeriesInput.Watched i;
     ListMoviesInput.Query := ListSeriesInput.Query i;
     ListMoviesInput.Page := ListSeriesInput.Page i;
     ListMoviesInput.Limit := ListSeriesInput.Limit i |}.

Definition create_input_back (i : CreateSerieInput.t) : CreateMovieInput.t :=
  {| CreateMovieInput.TmdbID := CreateSerieInput.TmdbID i;
     CreateMovieInput.Title := CreateSerieInput.Title i;
     CreateMovieInput.PosterPath := CreateSerieInput.PosterPath i;
     CreateMovieInput.ReleaseDate := CreateSerieInput.FirstAired i;
     CreateMovieInput.Watched := CreateSerieInput.Watched i;
     CreateMovieInput.TmdbScore := CreateSerieInput.TmdbScore i;
     CreateMovieInput.Score := CreateSerieInput.Score i |}.

Definition update_input_back (i : UpdateSerieInput.t) : UpdateMovieInput.t :=
  {| UpdateMovieInput.ID := UpdateSerieInput.ID i;
     UpdateMovieInput.Score := UpdateSerieInput.Score i;
     UpdateMovieInput.Watched := UpdateSerieInput.Watched i |}.

End AsSerie.

(** ** Vocabulary of the properties *)

(** Consecutive checks of one identifier at the given instants. *)
Fixpoint checks (rl : RateLimiter.t) (identifier : string) (times : list Z) (w : World)
  : list (bool * option error) * World :=
  match times with
  | [] => ([], w)
  | now :: times' =>
      let '(r, w') := RateLimiter.checkRateLimit rl now identifier w in
      let '(rs, w'') := checks rl identifier times' w' in
      (r :: rs, w'')
  end.

(** The window of an identifier that was last seen at second [t] only. *)
Definition seen_once (rl : RateLimiter.t) (identifier : string) (t : Z) (w : World) : Prop :=
  redis_up w = true
  /\ zsets w !! RateLimiter.key identifier
     = Some ({[ pretty t := t ]}, Some (t + RateLimiter.window rl)).

(** The redirect statuses that are not permanent (301 and 308 are). *)
Definition temporary_redirect (code : Z) : bool :=
  (code =? 302) || (code =? 303) || (code =? 307).

Section Pagination.
Context `{Env}.

(** The limit [List] works with. *)
Definition effective_limit (limit : Z) : Z :=
  if decide (1 <= limit <= 100) then limit else 27.

(** The page [List] works with. *)
Definition effective_page (page : Z) : Z :=
  if decide (1 <= page) then page else 1.

Definition with_Page (page : Z) (input : ListMoviesInput.t) : ListMoviesInput.t :=
  {| ListMoviesInput.Watched := ListMoviesInput.Watched input;
     ListMoviesInput.Query := ListMoviesInput.Query input;
     ListMoviesInput.Page := page;
     ListMoviesInput.Limit := ListMoviesInput.Limit input |}.

Definition with_Limit (limit : Z) (input : ListMoviesInput.t) : ListMoviesInput.t :=
  {| ListMoviesInput.Watched := ListMoviesInput.Watched input;
     ListMoviesInput.Query := ListMoviesInput.Query input;
     ListMoviesInput.Page := ListMoviesInput.Page input;
     ListMoviesInput.Limit := limit |}.

(** The rows a [List] call is about, before pagination. *)
Definition matching (tbl : list Movie.t) (userID : uuid) (input : ListMoviesInput.t)
  : list Movie.t :=
  List.filter
    (MovieService.list_where userID (ListMoviesInput.Watched input)
       (ListMoviesInput.Query input)) tbl.

End Pagination.

(** ** Sample data

    Stores, configurations and a small library on which the model is run. *)

Definition world0 : World :=
  {| redis_up := true; strings := ∅; zsets := ∅; trace := [] |}.

Definition world_down : World :=
  {| redis_up := false; strings := ∅; zsets := ∅; trace := [] |}.

Definition week : SessionStore.t := SessionStore.NewSessionStore 0.

Definition world_garbage : World :=
  set_strings {[ SessionStore.key "tok" := ("not-a-uuid", Some 1000) ]} world0.

Definition world_orphan : World :=
  set_strings {[ SessionStore.key "tok" := (uuid_String 42%N, Some 1000) ]} world0.

Definition dev_limiter : RateLimiter.t := RateLimiter.NewRateLimiter 1000 60 false.

Definition two_per_minute : RateLimiter.t := RateLimiter.NewRateLimiter 2 60 true.

Definition auth : AuthMiddleware.t :=
  AuthMiddleware.NewAuthMiddleware week EmptyString true.

Definition request_tok : AuthMiddleware.Request :=
  {| AuthMiddleware.Cookies := [("theme", "dark"); ("session", "tok")] |}.

Definition alice : User.t :=
  {| User.ID := 7%N; User.ProviderID := "gh-7"; User.Provider := ProviderGitHub;
     User.Email := "alice@example.org"; User.Name := "Alice";
     User.CreatedAt := 10; User.UpdatedAt := 10 |}.

Definition bob : User.t :=
  {| User.ID := 8%N; User.ProviderID := "gg-8"; User.Provider := ProviderGoogle;
     User.Email := "bob@example.org"; User.Name := "Bob";
     User.CreatedAt := 11; User.UpdatedAt := 11 |}.

Definition the_matrix : Movie.t :=
  {| Movie.ID := 1%N; Movie.TmdbID := 603; Movie.CreatedAt := 20; Movie.UpdatedAt := 20;
     Movie.Title := "The Matrix"; Movie.PosterPath := None; Movie.ReleaseDate := None;
     Movie.TmdbScore := 87; Movie.Score := 0; Movie.Watched := false;
     Movie.UserID := 7%N |}.

Definition matrix_reloaded : Movie.t :=
  {| Movie.ID := 2%N; Movie.TmdbID := 604; Movie.CreatedAt := 21; Movie.UpdatedAt := 21;
     Movie.Title := "Matrix Reloaded"; Movie.PosterPath := None; Movie.ReleaseDate := None;
     Movie.TmdbScore := 70; Movie.Score := 65; Movie.Watched := true;
     Movie.UserID := 7%N |}.

Definition library : list Movie.t := [the_matrix; matrix_reloaded].

Definition add_the_matrix : CreateMovieInput.t :=
  {| CreateMovieInput.TmdbID := 603; CreateMovieInput.Title := "The Matrix";
     CreateMovieInput.PosterPath := None; CreateMovieInput.ReleaseDate := Some "1999-03-31";
     CreateMovieInput.Watched := false; CreateMovieInput.TmdbScore := 87;
     CreateMovieInput.Score := None |}.

Definition page_zero : ListMoviesInput.t :=
  {| ListMoviesInput.Watched := false; ListMoviesInput.Query := "matrix";
     ListMoviesInput.Page := 0; ListMoviesInput.Limit := 101 |}.

Definition mark_watched : UpdateMovieInput.t :=
  {| UpdateMovieInput.ID := 0%N; UpdateMovieInput.Score := None;
     UpdateMovieInput.Watched := Some true |}.

(** ** Sequences of session reads *)

Section SessionReads.
Context `{Env}.

(** Consecutive [Get]s of one token at the given instants. *)
Fixpoint reads (s : SessionStore.t) (token : string) (times : list Z) (w : World)
  : list (uuid + error) * World :=
  match times with
  | [] => ([], w)
  | now :: times' =>
      let '(r, w') := SessionStore.Get s now token w in
      let '(rs, w'') := reads s token times' w' in
      (r :: rs, w'')
  end.

(** Each instant is at or after the one before and less than [ttl] later. *)
Fixpoint paced (ttl : Z) (last : Z) (times : list Z) : Prop :=
  match times with
  | [] => True
  | now :: times' => last <= now < last + ttl /\ paced ttl now times'
  end.

End SessionReads.

(** ** internal/services/user_service.go: the other methods *)

(** [Provider.String] of the two values the ["Provider"] enum has. *)
Definition Provider_String (p : Provider) : string :=
  match p with
  | ProviderGitHub => "GITHUB"
  | ProviderGoogle => "GOOGLE"
  end.

(** [Provider.IsValid] of a Go [models.Provider], which is a string. *)
Definition Provider_IsValid (p : string) : bool :=
  String.eqb p "GITHUB" || String.eqb p "GOOGLE".

Module UserAccounts.

(** [FindByProviderID]: [WHERE "providerId" = $1]; the provider is not part
    of the lookup. *)
Definition FindByProviderID (users : list User.t) (providerID : string) : User.t + error :=
  match find (fun u => String.eqb (User.ProviderID u) providerID) users with
  | Some user => inl user
  | None => inr ErrNoRows
  end.

(** [INSERT INTO "User" ... RETURNING ...] under the primary key [id] and the
    [UNIQUE] constraint on ["providerId"]. *)
Definition insert (users : list User.t) (row : User.t) : (User.t + error) * list User.t :=
  if existsb (fun u => bool_decide (User.ID u = User.ID row)) users
  then (inr (Pg.unique_violation "User_pkey"), users)
  else if existsb (fun u => String.eqb (User.ProviderID u) (User.ProviderID row)) users
  then (inr (Pg.unique_violation "User_providerId_key"), users)
  else (inl row, users ++ [row]).

(** [Create].  [newid] is the value [gen_random_uuid()] draws and [now] the
    value of [now()]. *)
Definition Create (users : list User.t) (newid : uuid) (now : Z)
    (providerID provider email name : string) : (User.t + error) * list User.t :=
  if negb (Provider_IsValid provider)
  then (inr (Errorf ("invalid provider: " +:+ provider)), users)
  else
    let row :=
      {| User.ID := newid;
         User.ProviderID := providerID;
         User.Provider :=
           if String.eqb provider "GITHUB" then ProviderGitHub else ProviderGoogle;
         User.Email := email;
         User.Name := name;
         User.CreatedAt := now;
         User.UpdatedAt := now |} in
    match insert users row with
    | (inr err, users') => (inr (Wrapf "failed to create user: " err), users')
    | (inl user, users') => (inl user, users')
    end.

(** [FindOrCreate]. *)
Definition FindOrCreate (users : list User.t) (newid : uuid) (now : Z)
    (providerID provider email name : string) : (User.t + error) * list User.t :=
  match FindByProviderID users providerID with
  | inl user => (inl user, users)
  | inr err =>
      if is_ErrNoRows err then Create users newid now providerID provider email name
      else (inr (Wrapf "failed to find user: " err), users)
  end.

(** [Update]: [SET email = $2, name = $3, "updatedAt" = NOW() WHERE id = $1]. *)
Definition Update (users : list User.t) (now : Z) (id : uuid) (email name : string)
  : (User.t + error) * list User.t :=
  let hit := fun u => bool_decide (User.ID u = id) in
  let set := fun u =>
    {| User.ID := User.ID u;
       User.ProviderID := User.ProviderID u;
       User.Provider := User.Provider u;
       User.Email := email;
       User.Name := name;
       User.CreatedAt := User.CreatedAt u;
       User.UpdatedAt := now |} in
  let users' := map (fun u => if hit u then set u else u) users in
  match find hit users with
  | Some u => (inl (set u), users')
  | None => (inr (Wrapf "failed to update user: " ErrNoRows), users')
  end.

(** [Delete]: [DELETE FROM "User" WHERE id = $1]; the rows of ["Movie"] and
    ["Serie"] that reference the user go with it ([ON DELETE CASCADE]). *)
Definition Delete (users : list User.t) (movies : list Movie.t) (series : list Serie.t)
    (id : uuid) : option error * (list User.t * list Movie.t * list Serie.t) :=
  let rowsAffected := length (List.filter (fun u => bool_decide (User.ID u = id)) users) in
  if (rowsAffected =? 0)%nat then (Some ErrNoRows, (users, movies, series))
  else
    (None,
     (List.filter (fun u => negb (bool_decide (User.ID u = id))) users,
      List.filter (fun m => negb (bool_decide (Movie.UserID m = id))) movies,
      List.filter (fun s => negb (bool_decide (Serie.UserID s = id))) series)).

End UserAccounts.

(** ** The auth middleware: the session cookie *)

Module SessionCookie.
Section SessionCookie.
Context `{Env}.

(** [AuthMiddleware.SetSessionCookie]. *)
Definition SetSessionCookie (m : AuthMiddleware.t) (sessionID : string) : M unit :=
  tell (HttpSetCookie
          {| Cookie_Name := AuthMiddleware.cookieName m;
             Cookie_Value := sessionID;
             Cookie_Path := "/";
             Cookie_MaxAge := 7 * 24 * 60 * 60;
             Cookie_HttpOnly := true;
             Cookie_Secure := AuthMiddleware.isProduction m;
             Cookie_SameSiteLax := true |}).

(** [AuthMiddleware.ClearSessionCookie]. *)
Definition ClearSessionCookie (m : AuthMiddleware.t) : M unit :=
  tell (HttpSetCookie
          {| Cookie_Name := AuthMiddleware.cookieName m;
             Cookie_Value := EmptyString;
             Cookie_Path := "/";
             Cookie_MaxAge := -1;
             Cookie_HttpOnly := true;
             Cookie_Secure := AuthMiddleware.isProduction m;
             Cookie_SameSiteLax := true |}).

End SessionCookie.
End SessionCookie.

(** ** The auth handler *)

Definition StatusTemporaryRedirect : Z := 307.

Module AuthHandler.
Section AuthHandler.
Context `{Env}.

Record t : Type := {
  sessionStore : SessionStore.t;
  authMiddleware : AuthMiddleware.t
}.

(** What the OAuth provider and the network return to a callback: the code
    exchange fails, the user-info request fails, its body does not decode, or
    the user info is obtained. *)
Inductive OAuth (A : Type) : Type :=
  | ExchangeFailed
  | GetFailed
  | DecodeFailed
  | UserInfo (info : A).
Arguments ExchangeFailed {A}.
Arguments GetFailed {A}.
Arguments DecodeFailed {A}.
Arguments UserInfo {A} _.

Record GoogleUserInfo : Type := {
  Google_ID : string;
  Google_Email : string;
  Google_Name : string
}.

(** [SessionStore.GenerateSessionID]: [entropy] is the URL-safe base64 text
    of the 32 bytes read from the random source, [None] when the read
    fails. *)
Definition GenerateSessionID (entropy : option string) : string + error :=
  match entropy with
  | Some sessionID => inl sessionID
  | None => inr (Wrapf "failed to generate session ID: " (OpError "crypto/rand: read failed"))
  end.

(** [GoogleCallback].  [code] is the [code] query parameter. *)
Definition GoogleCallback (h : t) (users : list User.t) (newid : uuid) (now : Z)
    (code : string) (oauth : OAuth GoogleUserInfo) (entropy : option string)
  : M (list User.t) :=
  if String.eqb code EmptyString
  then tell (HttpError "No code provided" StatusBadRequest);; mret users
  else
    match oauth with
    | ExchangeFailed =>
        tell (HttpError "Failed to exchange code" StatusInternalServerError);; mret users
    | GetFailed =>
        tell (HttpError "Failed to get user info" StatusInternalServerError);; mret users
    | DecodeFailed =>
        tell (HttpError "Failed to decode user info" StatusInternalServerError);; mret users
    | UserInfo userInfo =>
        match UserAccounts.FindOrCreate users newid now (Google_ID userInfo) "GOOGLE"
                (Google_Email userInfo) (Google_Name userInfo) with
        | (inr _, users') =>
            tell (HttpError "Failed to create user" StatusInternalServerError);; mret users'
        | (inl user, users') =>
            match GenerateSessionID entropy with
            | inr _ =>
                tell (HttpError "Failed to create session" StatusInternalServerError);;
                mret users'
            | inl sessionID =>
                err ← SessionStore.Set_ (sessionStore h) now sessionID (User.ID user);
                match err with
                | Some _ =>
                    tell (HttpError "Failed to store session" StatusInternalServerError);;
                    mret users'
                | None =>
                    SessionCookie.SetSessionCookie (authMiddleware h) sessionID;;
                    tell (HttpRedirect "/movies" StatusSeeOther);;
                    mret users'
                end
            end
        end
    end.

(** [Logout].  The cookie read is the one named "session", whatever name the
    middleware was given. *)
Definition Logout (h : t) (now : Z) (r : AuthMiddleware.Request) : M unit :=
  match AuthMiddleware.Request_Cookie r "session" with
  | inl value => SessionStore.Delete (sessionStore h) now value;; mret tt
  | inr _ => mret tt
  end;;
  SessionCookie.ClearSessionCookie (authMiddleware h);;
  tell (HttpRedirect "/login" StatusSeeOther).

End AuthHandler.

Arguments ExchangeFailed {A}.
Arguments GetFailed {A}.
Arguments DecodeFailed {A}.
Arguments UserInfo {A} _.

End AuthHandler.

(** A command a session lookup sends. *)
Definition lookup_command (e : event) : Prop :=
  (exists k, e = RedisGET k) \/ (exists k ttl, e = RedisEXPIRE k ttl).

(** ** Vocabulary of the library properties *)

Section LibraryVocabulary.
Context `{Env}.

(** The constraints of the ["Movie"] table: primary key [id],
    [UNIQUE("tmdbId", "userId")], and every owner a row of ["User"]. *)
Definition table_ok (users : list User.t) (tbl : list Movie.t) : Prop :=
  NoDup (Movie.ID <$> tbl)
  /\ NoDup ((fun m => (Movie.TmdbID m, Movie.UserID m)) <$> tbl)
  /\ forall m, m ∈ tbl -> Pg.user_exists users (Movie.UserID m) = true.

(** The rows of the table that belong to other users than [userID]. *)
Definition others (userID : uuid) (tbl : list Movie.t) : list Movie.t :=
  List.filter (fun m => negb (bool_decide (Movie.UserID m = userID))) tbl.


(** Each row is rated by the catalog at least as high as every later one. *)
Definition by_rating : list Movie.t -> Prop :=
  StronglySorted (fun a b => Movie.TmdbScore b <= Movie.TmdbScore a).

(** A create input with another date text. *)
Definition with_ReleaseDate (d : option string) (i : CreateMovieInput.t)
  : CreateMovieInput.t :=
  {| CreateMovieInput.TmdbID := CreateMovieInput.TmdbID i;
     CreateMovieInput.Title := CreateMovieInput.Title i;
     CreateMovieInput.PosterPath := CreateMovieInput.PosterPath i;
     CreateMovieInput.ReleaseDate := d;
     CreateMovieInput.Watched := CreateMovieInput.Watched i;
     CreateMovieInput.TmdbScore := CreateMovieInput.TmdbScore i;
     CreateMovieInput.Score := CreateMovieInput.Score i |}.

End LibraryVocabulary.

(** ** internal/middleware/ratelimit.go: the middleware *)

Module RateLimitMiddleware.
Section RateLimitMiddleware.
Context `{Env}.

(** What [Limit] reads of its request: the user ID in the context, the
    [X-Forwarded-For] header (empty when absent) and the remote address. *)
Record Request : Type := {
  UserIDFromContext : option uuid;
  XForwardedFor : string;
  RemoteAddr : string
}.

(** [getIdentifier]. *)
Definition getIdentifier (r : Request) : string :=
  match UserIDFromContext r with
  | Some userID => "user:" +:+ uuid_String userID
  | None =>
      let ip := XForwardedFor r in
      let ip := if String.eqb ip EmptyString then RemoteAddr r else ip in
      "ip:" +:+ ip
  end.

(** What [Limit] does with the request: hand it to the next handler, or
    write a response of its own. *)
Inductive Outcome : Type :=
  | ServeNext
  | Wrote (code : Z) (contentType : string) (body : string).

Definition StatusTooManyRequests : Z := 429.

(** [Limit]. *)
Definition Limit (rl : RateLimiter.t) (now : Z) (r : Request) : M Outcome :=
  let identifier := getIdentifier r in
  res ← RateLimiter.checkRateLimit rl now identifier;
  match res with
  | (_, Some _) =>
      mret (Wrote StatusInternalServerError "text/plain; charset=utf-8"
              (json_error "Rate limit check failed"))
  | (false, None) =>
      mret (Wrote StatusTooManyRequests "application/json"
              (json_error "Too many requests. Please try again later."))
  | (true, None) => mret ServeNext
  end.

(** Consecutive requests through [Limit], each with its instant. *)
Fixpoint serve (rl : RateLimiter.t) (requests : list (Z * Request)) (w : World)
  : list Outcome * World :=
  match requests with
  | [] => ([], w)
  | (now, r) :: requests' =>
      let '(o, w') := Limit rl now r w in
      let '(os, w'') := serve rl requests' w' in
      (o :: os, w'')
  end.

End RateLimitMiddleware.
End RateLimitMiddleware.

(** The limiter as [main] builds it: 100 requests per minute in production,
    1000 otherwise. *)
Definition main_rateLimiter (isProduction : bool) : RateLimiter.t :=
  RateLimiter.NewRateLimiter (if isProduction then 100 else 1000) 60 isProduction.

(** ** Vocabulary of the rate-limit properties *)

(** Every member of the window is the decimal text of its own score, and the
    scores lie between [lo] and [hi]. *)
Definition stamped (z : gmap string Z) (lo hi : Z) : Prop :=
  forall m s, z !! m = Some s -> m = pretty s /\ lo <= s <= hi.

(** Each instant is at or after the one before. *)
Fixpoint ascending (last : Z) (times : list Z) : Prop :=
  match times with
  | [] => True
  | now :: times' => last <= now /\ ascending now times'
  end.

(** Each instant is after the one before. *)
Fixpoint climbing (last : Z) (times : list Z) : Prop :=
  match times with
  | [] => True
  | now :: times' => last < now /\ climbing now times'
  end.

(** ** More sample data *)

Definition carol : User.t :=
  {| User.ID := 9%N; User.ProviderID := "gg-9"; User.Provider := ProviderGoogle;
     User.Email := "carol@example.org"; User.Name := "Carol";
     User.CreatedAt := 50; User.UpdatedAt := 50 |}.

Definition world_alice : World :=
  set_strings {[ SessionStore.key "tok" := (uuid_String 7%N, Some 1000) ]} world0.

Definition auth_handler : AuthHandler.t :=
  {| AuthHandler.sessionStore := week; AuthHandler.authMiddleware := auth |}.

Definition carol_at_google : AuthHandler.GoogleUserInfo :=
  {| AuthHandler.Google_ID := "gg-9"; AuthHandler.Google_Email := "carol@example.org";
     AuthHandler.Google_Name := "Carol" |}.


Definition watchlist_page : PaginatedMovies.t :=
  {| PaginatedMovies.Results := [the_matrix]; PaginatedMovies.Page := 1;
     PaginatedMovies.Count := 1; PaginatedMovies.TotalPages := 1 |}.

Definition page_five : ListMoviesInput.t :=
  {| ListMoviesInput.Watched := false; ListMoviesInput.Query := EmptyString;
     ListMoviesInput.Page := 5; ListMoviesInput.Limit := 27 |}.

Definition empty_page_five : PaginatedMovies.t :=
  {| PaginatedMovies.Results := []; PaginatedMovies.Page := 5;
     PaginatedMovies.Count := 1; PaginatedMovies.TotalPages := 1 |}.

Definition delete_the_matrix : MovieHandler.Request unit :=
  {| MovieHandler.UserIDFromContext := Some 7%N;
     MovieHandler.PathValue_id := uuid_String 1%N;
     MovieHandler.Body := None |}.

Definition anonymous_patch : MovieHandler.Request UpdateMovieInput.t :=
  {| MovieHandler.UserIDFromContext := None;
     MovieHandler.PathValue_id := uuid_String 1%N;
     MovieHandler.Body := Some mark_watched |}.

Definition two_per_second : RateLimiter.t := RateLimiter.NewRateLimiter 2 1 true.

Definition one_per_minute : RateLimiter.t := RateLimiter.NewRateLimiter 1 60 true.

Definition from_proxy (addr : string) : RateLimitMiddleware.Request :=
  {| RateLimitMiddleware.UserIDFromContext := None;
     RateLimitMiddleware.XForwardedFor := addr;
     RateLimitMiddleware.RemoteAddr := "10.0.0.1:4000" |}.

(** * Properties *)

(** ** Redis keys *)

Lemma peek_None {V} (now : Z) (m : gmap string (V * option Z)) (k : string) :
  m !! k = None -> Redis.peek now m k = None.
Proof. unfold Redis.peek. intros ->. reflexivity. Qed.

Lemma peek_expired {V} (now t : Z) (m : gmap string (V * option Z)) (k : string) (v : V) :
  m !! k = Some (v, Some t) -> t <= now -> Redis.peek now m k = None.
Proof.
  unfold Redis.peek, Redis.live. intros -> Hle. simpl.
  destruct (Z.ltb_spec now t); [lia | reflexivity].
Qed.

Lemma peek_live {V} (now t : Z) (m : gmap string (V * option Z)) (k : string) (v : V) :
  m !! k = Some (v, Some t) -> now < t -> Redis.peek now m k = Some (v, Some t).
Proof.
  unfold Redis.peek, Redis.live. intros -> Hlt. simpl.
  destruct (Z.ltb_spec now t); [reflexivity | lia].
Qed.

Lemma peek_Some {V} (now : Z) (m : gmap string (V * option Z)) (k : string) e :
  Redis.peek now m k = Some e -> m !! k = Some e /\ Redis.live now e = true.
Proof.
  unfold Redis.peek. destruct (m !! k) as [e'|]; [|discriminate].
  destruct (Redis.live now e') eqn:Hl; [|discriminate].
  intros [= <-]. auto.
Qed.

(** ** SessionStore *)

Section SessionStoreProperties.
Context `{EL : EnvLaws}.

(** What [Get] does on a key that is not visible. *)
Lemma Get_invisible (s : SessionStore.t) (now : Z) (token : string) (w : World) :
  redis_up w = true ->
  Redis.peek now (strings w) (SessionStore.key token) = None ->
  SessionStore.Get s now token w
  = (inr (Errorf "session not found"), emit (RedisGET (SessionStore.key token)) w).
Proof.
  intros Hup Hp. unfold SessionStore.Get, mbind, M_bind, Redis.GET. simpl.
  rewrite Hup, Hp. reflexivity.
Qed.

(** What [Get] does on a visible key whose value parses. *)
Lemma Get_visible (s : SessionStore.t) (now : Z) (token : string) (w : World)
    (v : string) (t : option Z) (u : uuid) :
  redis_up w = true ->
  Redis.peek now (strings w) (SessionStore.key token) = Some (v, t) ->
  uuid_Parse v = Some u ->
  0 < SessionStore.ttl s ->
  SessionStore.Get s now token w
  = (inl u,
     set_strings
       (<[SessionStore.key token := (v, Some (now + SessionStore.ttl s))]> (strings w))
       (emit (RedisEXPIRE (SessionStore.key token) (SessionStore.ttl s))
          (emit (RedisGET (SessionStore.key token)) w))).
Proof.
  intros Hup Hp Hparse Httl.
  unfold SessionStore.Get, mbind, M_bind, Redis.GET, Redis.EXPIRE, mret, M_ret. simpl.
  rewrite Hup, Hp, Hparse. simpl. rewrite Hup, Hp.
  destruct (Z.ltb_spec 0 (SessionStore.ttl s)); [reflexivity | lia].
Qed.

(** A successful [Get] found a visible key whose value parses. *)
Lemma Get_inl_inv (s : SessionStore.t) (now : Z) (token : string) (w : World) (u : uuid) :
  (SessionStore.Get s now token w).1 = inl u ->
  redis_up w = true /\
  exists v t, Redis.peek now (strings w) (SessionStore.key token) = Some (v, t)
              /\ uuid_Parse v = Some u.
Proof.
  unfold SessionStore.Get, mbind, M_bind, Redis.GET, Redis.EXPIRE, mret, M_ret. simpl.
  destruct (redis_up w) eqn:Hup; [|simpl; discriminate].
  destruct (Redis.peek now (strings w) (SessionStore.key token)) as [[v t]|] eqn:Hp;
    [|simpl; discriminate].
  destruct (uuid_Parse v) as [u'|] eqn:Hparse; [|simpl; discriminate].
  simpl. rewrite Hup, Hp.
  destruct (0 <? SessionStore.ttl s); simpl; intros [= <-]; eauto.
Qed.

(** C5.  A session read back within its TTL yields the user ID that was
    set; a token that is absent, or whose TTL has elapsed, is reported as
    "session not found"; and every successful read leaves the key with the
    full configured TTL counted from the instant of the read. *)
Theorem SessionStore_Get_after_Set (s : SessionStore.t) (w : World) (now : Z)
    (token : string) (userID : uuid) :
  0 < SessionStore.ttl s ->
  redis_up w = true ->
  let w1 := (SessionStore.Set_ s now token userID w).2 in
  (SessionStore.Set_ s now token userID w).1 = None
  /\ (forall now', now <= now' < now + SessionStore.ttl s ->
        (SessionStore.Get s now' token w1).1 = inl userID)
  /\ (forall now', now + SessionStore.ttl s <= now' ->
        (SessionStore.Get s now' token w1).1 = inr (Errorf "session not found"))
  /\ (forall now' w0, redis_up w0 = true ->
        (strings w0 !! SessionStore.key token = None
         \/ exists v t, strings w0 !! SessionStore.key token = Some (v, Some t) /\ t <= now') ->
        (SessionStore.Get s now' token w0).1 = inr (Errorf "session not found"))
  /\ (forall now' w0 u, (SessionStore.Get s now' token w0).1 = inl u ->
        exists v, strings (SessionStore.Get s now' token w0).2 !! SessionStore.key token
                  = Some (v, Some (now' + SessionStore.ttl s))).
Proof.
  intros Httl Hup w1.
  assert (Hset : SessionStore.Set_ s now token userID w
                 = (None,
                    set_strings
                      (<[SessionStore.key token :=
                           (uuid_String userID, Some (now + SessionStore.ttl s))]>
                         (strings w))
                      (emit (RedisSET (SessionStore.key token) (uuid_String userID)
                               (SessionStore.ttl s)) w))).
  { unfold SessionStore.Set_, Redis.SET, Redis.expiry. simpl. rewrite Hup.
    destruct (Z.ltb_spec 0 (SessionStore.ttl s)); [reflexivity | lia]. }
  assert (Hup1 : redis_up w1 = true) by (subst w1; rewrite Hset; exact Hup).
  assert (Hk : strings w1 !! SessionStore.key token
               = Some (uuid_String userID, Some (now + SessionStore.ttl s))).
  { subst w1. rewrite Hset. simpl. apply lookup_insert_eq. }
  split; [rewrite Hset; reflexivity|].
  split.
  { intros now' Hnow'.
    erewrite Get_visible; eauto using uuid_Parse_String.
    eapply peek_live; [exact Hk | lia]. }
  split.
  { intros now' Hnow'. rewrite Get_invisible; auto.
    eapply peek_expired; [exact Hk | lia]. }
  split.
  { intros now' w0 Hup0 [Hnone | (v & t & Hsome & Ht)].
    - rewrite Get_invisible; auto using peek_None.
    - rewrite Get_invisible; eauto using peek_expired. }
  intros now' w0 u Hget.
  destruct (Get_inl_inv _ _ _ _ _ Hget) as (Hup0 & v & t & Hp & Hparse).
  exists v. erewrite Get_visible; eauto. simpl. apply lookup_insert_eq.
Qed.

(** C10.  A visible session key whose value is not a parseable UUID makes
    [Get] fail with the "invalid user ID in session" error, which is
    neither the not-found error nor a store failure; the key keeps its
    value and its expiry, and no EXPIRE is sent. *)
Theorem SessionStore_Get_invalid_user_ID (s : SessionStore.t) (w : World) (now : Z)
    (token : string) (v : string) (t : option Z) :
  redis_up w = true ->
  strings w !! SessionStore.key token = Some (v, t) ->
  Redis.live now (v, t) = true ->
  uuid_Parse v = None ->
  SessionStore.Get s now token w
  = (inr (Wrapf "invalid user ID in session: " (InvalidUUID v)),
     emit (RedisGET (SessionStore.key token)) w)
  /\ strings (SessionStore.Get s now token w).2 !! SessionStore.key token = Some (v, t)
  /\ (SessionStore.Get s now token w).1 <> inr (Errorf "session not found")
  /\ (forall err, (SessionStore.Get s now token w).1
                  <> inr (Wrapf "failed to get session: " err)).
Proof.
  intros Hup Hk Hlive Hparse.
  assert (Hget : SessionStore.Get s now token w
                 = (inr (Wrapf "invalid user ID in session: " (InvalidUUID v)),
                    emit (RedisGET (SessionStore.key token)) w)).
  { unfold SessionStore.Get, mbind, M_bind, Redis.GET, Redis.peek, mret, M_ret. simpl.
    rewrite Hup, Hk, Hlive, Hparse. reflexivity. }
  rewrite Hget. simpl. repeat split; try assumption; discriminate.
Qed.

End SessionStoreProperties.

(** ** The concrete environment satisfies the law *)

#[global] Instance Sample_laws : @EnvLaws Sample.env.
Proof.
  constructor. intros u. cbn. unfold Sample.uuid_of_hex, Sample.hex_of_uuid.
  rewrite HexString.to_N_of_N, String.eqb_refl. reflexivity.
Qed.

Lemma SessionStore_Get_after_Set_witness :
  0 < SessionStore.ttl week
  /\ redis_up world0 = true
  /\ (SessionStore.Get week 150 "tok"
        (SessionStore.Set_ week 100 "tok" 42%N world0).2).1 = inl 42%N.
Proof.
  split; [reflexivity|]. split; [reflexivity|].
  destruct (SessionStore_Get_after_Set week world0 100 "tok" 42%N) as (_ & Hget & _);
    [reflexivity | reflexivity |].
  apply Hget. cbn. lia.
Defined.

Lemma SessionStore_Get_invalid_user_ID_witness :
  (SessionStore.Get week 150 "tok" world_garbage).1
  = inr (Wrapf "invalid user ID in session: " (InvalidUUID "not-a-uuid")).
Proof.
  destruct (SessionStore_Get_invalid_user_ID week world_garbage 150 "tok" "not-a-uuid"
              (Some 1000)) as (Hget & _).
  - reflexivity.
  - vm_compute. reflexivity.
  - reflexivity.
  - vm_compute. reflexivity.
  - rewrite Hget. reflexivity.
Defined.

(** ** RateLimiter *)

(** C9.  Outside production a check answers "allowed" and leaves the world as
      it was: no command is sent, nothing is recorded, whatever the state of
      the store, reachable or not. *)
Theorem RateLimiter_skipped_outside_production (rl : RateLimiter.t) (now : Z)
    (identifier : string) (w : World) :
  RateLimiter.isProduction rl = false ->
  RateLimiter.checkRateLimit rl now identifier w = ((true, None), w).
Proof.
  intros Hdev. unfold RateLimiter.checkRateLimit. rewrite Hdev. reflexivity.
Qed.

Lemma RateLimiter_skipped_outside_production_witness :
  RateLimiter.isProduction dev_limiter = false
  /\ RateLimiter.checkRateLimit dev_limiter 1000 "ip:10.0.0.1" world_down
     = ((true, None), world_down).
Proof.
  split; [reflexivity|].
  apply (RateLimiter_skipped_outside_production dev_limiter 1000 "ip:10.0.0.1" world_down).
  reflexivity.
Defined.

Lemma set_zsets_id (w : World) : set_zsets (zsets w) w = w.
Proof. destruct w. reflexivity. Qed.

Lemma live_zexpiry (now : Z) (w : World) (key : string) (z : gmap string Z) :
  Redis.live now (z, Redis.zexpiry now w key) = true.
Proof.
  unfold Redis.zexpiry, Redis.peek.
  destruct (zsets w !! key) as [[z0 t]|]; [|reflexivity].
  destruct (Redis.live now (z0, t)) eqn:Hl; [exact Hl | reflexivity].
Qed.

Lemma zpeek_zstore (now : Z) (key : string) (z : gmap string Z) (t : option Z) (w : World) :
  Redis.live now (z, t) = true ->
  Redis.zpeek now (Redis.zstore key z t w) key = z.
Proof.
  intros Hl. unfold Redis.zstore, Redis.zpeek, Redis.peek.
  destruct (decide (z = ∅)) as [->|Hne]; simpl.
  - rewrite lookup_delete_eq. reflexivity.
  - rewrite lookup_insert_eq, Hl. reflexivity.
Qed.

(** X29.  The rule of a check in production, on a reachable store: the answer is
    whether the members left after the purge, counted before the insertion,
    are fewer than the limit; and the member of the current second is in the
    window afterwards, whatever the answer. *)
Lemma checkRateLimit_rule (rl : RateLimiter.t) (now : Z) (identifier : string) (w : World) :
  RateLimiter.isProduction rl = true ->
  redis_up w = true ->
  0 < RateLimiter.window rl ->
  let key := RateLimiter.key identifier in
  let kept :=
    filter (fun kv : string * Z =>
              negb ((0 <=? kv.2) && (kv.2 <=? now - RateLimiter.window rl)) = true)
      (Redis.zpeek now w key) in
  (RateLimiter.checkRateLimit rl now identifier w).1
  = (Z.of_nat (size kept) <? RateLimiter.maxRequests rl, None)
  /\ Redis.zpeek now (RateLimiter.checkRateLimit rl now identifier w).2 key !! pretty now
     = Some now.
Proof.
  intros Hprod Hup Hwin key kept.
  unfold RateLimiter.checkRateLimit. rewrite Hprod. simpl. rewrite Hup. fold key.
  set (w0 := emit _ (emit _ (emit _ (emit _ w)))).
  set (w1 := Redis.ZREMRANGEBYSCORE now key 0 (now - RateLimiter.window rl) w0).
  assert (H1 : Redis.zpeek now w1 key = kept).
  { subst w1. unfold Redis.ZREMRANGEBYSCORE. rewrite zpeek_zstore by apply live_zexpiry.
    reflexivity. }
  simpl. split.
  { unfold Redis.ZCARD. rewrite H1. reflexivity. }
  set (w2 := Redis.ZADD now key now (pretty now) w1).
  assert (H2 : Redis.peek now (zsets w2) key
               = Some (<[pretty now := now]> kept, Redis.zexpiry now w1 key)).
  { subst w2. unfold Redis.ZADD, Redis.zstore. rewrite H1.
    destruct (decide (<[pretty now := now]> kept = ∅)) as [He|_].
    { apply (f_equal (fun m => m !! pretty now)) in He.
      rewrite lookup_insert_eq, lookup_empty in He. discriminate. }
    unfold Redis.peek. simpl. rewrite lookup_insert_eq, live_zexpiry. reflexivity. }
  unfold Redis.ZEXPIRE. rewrite H2.
  destruct (Z.ltb_spec 0 (RateLimiter.window rl)); [|lia].
  unfold Redis.zpeek, Redis.peek, Redis.live. simpl. rewrite lookup_insert_eq. simpl.
  destruct (Z.ltb_spec now (now + RateLimiter.window rl)); [|lia].
  apply lookup_insert_eq.
Qed.

Lemma check_first (rl : RateLimiter.t) (identifier : string) (t : Z) (w : World) :
  RateLimiter.isProduction rl = true ->
  0 < RateLimiter.window rl ->
  redis_up w = true ->
  zsets w !! RateLimiter.key identifier = None ->
  exists w',
    RateLimiter.checkRateLimit rl t identifier w
    = ((0 <? RateLimiter.maxRequests rl, None), w')
    /\ seen_once rl identifier t w'.
Proof.
  intros Hprod Hwin Hup Hnone.
  unfold RateLimiter.checkRateLimit. rewrite Hprod. simpl.
  rewrite Hup.
  set (w0 := emit _ (emit _ (emit _ (emit _ w)))).
  assert (Hz0 : zsets w0 = zsets w) by reflexivity.
  assert (Hrem : Redis.ZREMRANGEBYSCORE t (RateLimiter.key identifier) 0
                   (t - RateLimiter.window rl) w0
                 = set_zsets (delete (RateLimiter.key identifier) (zsets w0)) w0).
  { unfold Redis.ZREMRANGEBYSCORE, Redis.zpeek, Redis.zexpiry, Redis.peek, Redis.zstore.
    rewrite Hz0, Hnone. rewrite map_filter_empty.
    destruct (decide (∅ =@{gmap string Z} ∅)); [reflexivity | congruence]. }
  rewrite Hrem.
  set (w1 := set_zsets _ w0).
  assert (Hz1 : zsets w1 !! RateLimiter.key identifier = None).
  { subst w1. simpl. apply lookup_delete_eq. }
  assert (Hcard : Redis.ZCARD t (RateLimiter.key identifier) w1 = 0).
  { unfold Redis.ZCARD, Redis.zpeek, Redis.peek. rewrite Hz1. reflexivity. }
  rewrite Hcard.
  eexists. split; [reflexivity|].
  unfold seen_once, Redis.ZADD, Redis.ZEXPIRE, Redis.zpeek, Redis.zexpiry, Redis.peek,
    Redis.zstore.
  rewrite Hz1. rewrite insert_empty.
  destruct (decide ({[pretty t := t]} =@{gmap string Z} ∅)) as [He|_].
  { apply (f_equal (fun m => m !! pretty t)) in He.
    rewrite lookup_singleton_eq, lookup_empty in He. discriminate. }
  simpl. rewrite lookup_insert_eq. simpl.
  destruct (Z.ltb_spec 0 (RateLimiter.window rl)); [|lia].
  simpl. split; [exact Hup|]. apply lookup_insert_eq.
Qed.

Lemma check_again (rl : RateLimiter.t) (identifier : string) (t : Z) (w : World) :
  RateLimiter.isProduction rl = true ->
  0 < RateLimiter.window rl ->
  seen_once rl identifier t w ->
  exists w',
    RateLimiter.checkRateLimit rl t identifier w
    = ((1 <? RateLimiter.maxRequests rl, None), w')
    /\ seen_once rl identifier t w'.
Proof.
  intros Hprod Hwin [Hup Hk].
  unfold RateLimiter.checkRateLimit. rewrite Hprod. simpl.
  rewrite Hup.
  set (w0 := emit _ (emit _ (emit _ (emit _ w)))).
  assert (Hk0 : zsets w0 !! RateLimiter.key identifier
                = Some ({[ pretty t := t ]}, Some (t + RateLimiter.window rl))) by exact Hk.
  assert (Hlive : forall w', zsets w' !! RateLimiter.key identifier
                    = Some ({[ pretty t := t ]}, Some (t + RateLimiter.window rl)) ->
                  Redis.peek t (zsets w') (RateLimiter.key identifier)
                  = Some ({[ pretty t := t ]}, Some (t + RateLimiter.window rl))).
  { intros w' Hw'. eapply peek_live; [exact Hw' | lia]. }
  assert (Hsame : forall w', zsets w' !! RateLimiter.key identifier
                    = Some ({[ pretty t := t ]}, Some (t + RateLimiter.window rl)) ->
                  Redis.zstore (RateLimiter.key identifier) {[ pretty t := t ]}
                    (Some (t + RateLimiter.window rl)) w' = w').
  { intros w' Hw'. unfold Redis.zstore.
    destruct (decide ({[pretty t := t]} =@{gmap string Z} ∅)) as [He|_].
    { apply (f_equal (fun m => m !! pretty t)) in He.
      rewrite lookup_singleton_eq, lookup_empty in He. discriminate. }
    rewrite insert_id by exact Hw'. apply set_zsets_id. }
  assert (Hrem : Redis.ZREMRANGEBYSCORE t (RateLimiter.key identifier) 0
                   (t - RateLimiter.window rl) w0 = w0).
  { unfold Redis.ZREMRANGEBYSCORE, Redis.zpeek, Redis.zexpiry.
    rewrite (Hlive w0 Hk0).
    rewrite map_filter_singleton_True.
    - apply Hsame, Hk0.
    - simpl. destruct (Z.leb_spec t (t - RateLimiter.window rl)); [lia|].
      rewrite andb_false_r. reflexivity. }
  rewrite Hrem.
  assert (Hcard : Redis.ZCARD t (RateLimiter.key identifier) w0 = 1).
  { unfold Redis.ZCARD, Redis.zpeek. rewrite (Hlive w0 Hk0).
    rewrite map_size_singleton. reflexivity. }
  rewrite Hcard.
  assert (Hadd : Redis.ZADD t (RateLimiter.key identifier) t (pretty t) w0 = w0).
  { unfold Redis.ZADD, Redis.zpeek, Redis.zexpiry. rewrite (Hlive w0 Hk0).
    rewrite insert_singleton_eq. apply Hsame, Hk0. }
  rewrite Hadd.
  eexists. split; [reflexivity|].
  unfold seen_once, Redis.ZEXPIRE. rewrite (Hlive w0 Hk0).
  destruct (Z.ltb_spec 0 (RateLimiter.window rl)); [|lia].
  simpl. split; [exact Hup|]. apply lookup_insert_eq.
Qed.

Lemma checks_again (rl : RateLimiter.t) (identifier : string) (t : Z) (n : nat) :
  RateLimiter.isProduction rl = true ->
  0 < RateLimiter.window rl ->
  forall w, seen_once rl identifier t w ->
  (checks rl identifier (replicate n t) w).1
  = replicate n (1 <? RateLimiter.maxRequests rl, None).
Proof.
  intros Hprod Hwin. induction n as [|n IH]; intros w Hw; [reflexivity|].
  simpl. destruct (check_again rl identifier t w Hprod Hwin Hw) as (w' & -> & Hw').
  specialize (IH w' Hw').
  destruct (checks rl identifier (replicate n t) w') as [rs w'']. simpl in *.
  rewrite IH. reflexivity.
Qed.

(** C3, on the code.  In production, with a limit of at least two and an
      identifier not seen before, every one of any number of checks made within
      the same second is allowed: the window holds one member per second, not
      one per request, so the count read before the insertion stays at one and
      the check after the limit is not rejected. *)
Theorem RateLimiter_same_second_never_rejected (rl : RateLimiter.t) (identifier : string)
    (t : Z) (n : nat) (w : World) :
  RateLimiter.isProduction rl = true ->
  0 < RateLimiter.window rl ->
  2 <= RateLimiter.maxRequests rl ->
  redis_up w = true ->
  zsets w !! RateLimiter.key identifier = None ->
  (checks rl identifier (replicate n t) w).1 = replicate n (true, None).
Proof.
  intros Hprod Hwin Hmax Hup Hnone.
  destruct n as [|n]; [reflexivity|].
  simpl. destruct (check_first rl identifier t w Hprod Hwin Hup Hnone) as (w' & -> & Hw').
  pose proof (checks_again rl identifier t n Hprod Hwin w' Hw') as Hrest.
  destruct (checks rl identifier (replicate n t) w') as [rs w'']. simpl in *.
  rewrite Hrest.
  destruct (Z.ltb_spec 0 (RateLimiter.maxRequests rl)); [|lia].
  destruct (Z.ltb_spec 1 (RateLimiter.maxRequests rl)); [|lia].
  reflexivity.
Qed.

Lemma RateLimiter_same_second_never_rejected_witness :
  (checks two_per_minute "ip:10.0.0.1" [1000; 1000; 1000] world0).1
  = [(true, None); (true, None); (true, None)].
Proof.
  apply (RateLimiter_same_second_never_rejected two_per_minute "ip:10.0.0.1" 1000 3 world0).
  - reflexivity.
  - reflexivity.
  - discriminate.
  - reflexivity.
  - reflexivity.
Defined.

(** ** AuthMiddleware *)

Section AuthMiddlewareProperties.
Context `{Env}.

Lemma Delete_strings (s : SessionStore.t) (now : Z) (token : string) (w : World) :
  redis_up w = true ->
  trace (SessionStore.Delete s now token w).2
  = trace w ++ [RedisDEL (SessionStore.key token)]
  /\ strings (SessionStore.Delete s now token w).2 !! SessionStore.key token = None
  /\ redis_up (SessionStore.Delete s now token w).2 = true.
Proof.
  intros Hup. unfold SessionStore.Delete, mbind, M_bind, Redis.DEL, mret, M_ret. simpl.
  rewrite Hup.
  destruct (Redis.peek now (strings w) (SessionStore.key token)); simpl;
    rewrite lookup_delete_eq; auto.
Qed.

Lemma Get_preserves_up (s : SessionStore.t) (now : Z) (token : string) (w : World) :
  redis_up (SessionStore.Get s now token w).2 = redis_up w.
Proof.
  unfold SessionStore.Get, mbind, M_bind, Redis.GET, Redis.EXPIRE, mret, M_ret. simpl.
  destruct (redis_up w) eqn:Hup; cbn; [|exact Hup].
  destruct (Redis.peek now (strings w) (SessionStore.key token)) as [[v t]|] eqn:Hp;
    cbn; [|exact Hup].
  destruct (uuid_Parse v); cbn; [|exact Hup].
  rewrite Hup, Hp. destruct (0 <? SessionStore.ttl s); exact Hup.
Qed.

Lemma Get_inl_up (s : SessionStore.t) (now : Z) (token : string) (w : World) (u : uuid) :
  (SessionStore.Get s now token w).1 = inl u -> redis_up w = true.
Proof.
  unfold SessionStore.Get, mbind, M_bind, Redis.GET, mret, M_ret. simpl.
  destruct (redis_up w); [reflexivity | simpl; discriminate].
Qed.

(** C7.  Each failure branch of [RequireAuth] ends in a redirect to
    [/login] with status 303, a temporary redirect, and never reaches the
    next handler; when the session resolves to a user that cannot be found,
    the session key is deleted and the clearing cookie is written first, in
    that order, and the key is gone from the store afterwards. *)
Theorem RequireAuth_failures_redirect (m : AuthMiddleware.t) (users : list User.t)
    (now : Z) (r : AuthMiddleware.Request) (w : World) :
  let s := AuthMiddleware.sessionStore m in
  let name := AuthMiddleware.cookieName m in
  let to_login := HttpRedirect "/login" StatusSeeOther in
  let out := (AuthMiddleware.RequireAuth m users now r w).2 in
  temporary_redirect StatusSeeOther = true
  /\ ((forall c, c ∈ AuthMiddleware.Cookies r -> c.1 <> name) ->
      out = emit to_login w)
  /\ (forall token err,
        AuthMiddleware.Request_Cookie r name = inl token ->
        (SessionStore.Get s now token w).1 = inr err ->
        out = emit to_login (SessionStore.Get s now token w).2)
  /\ (forall token userID,
        AuthMiddleware.Request_Cookie r name = inl token ->
        (SessionStore.Get s now token w).1 = inl userID ->
        (forall u, u ∈ users -> User.ID u <> userID) ->
        trace out
        = trace (SessionStore.Get s now token w).2
          ++ [RedisDEL (SessionStore.key token);
              HttpSetCookie (AuthMiddleware.cleared_cookie m);
              to_login]
        /\ strings out !! SessionStore.key token = None
        /\ Cookie_Name (AuthMiddleware.cleared_cookie m) = name
        /\ Cookie_Value (AuthMiddleware.cleared_cookie m) = EmptyString
        /\ Cookie_MaxAge (AuthMiddleware.cleared_cookie m) = -1).
Proof.
  intros s name to_login out. subst to_login out name. split; [reflexivity|].
  split.
  { intros Hmiss. unfold AuthMiddleware.RequireAuth.
    assert (Hc : AuthMiddleware.Request_Cookie r (AuthMiddleware.cookieName m)
                 = inr ErrNoCookie).
    { unfold AuthMiddleware.Request_Cookie.
      destruct (String.eqb _ EmptyString); [reflexivity|].
      destruct (find _ (AuthMiddleware.Cookies r)) as [c|] eqn:Hf; [|reflexivity].
      apply find_some in Hf as [Hin Heq]. apply String.eqb_eq in Heq.
      exfalso. apply (Hmiss c); [apply list_elem_of_In; exact Hin | exact Heq]. }
    rewrite Hc. reflexivity. }
  split.
  { intros token err Hc Hget. unfold AuthMiddleware.RequireAuth.
    rewrite Hc. unfold mbind, M_bind. fold s.
    destruct (SessionStore.Get s now token w) as [res w1]. simpl in *. subst res.
    reflexivity. }
  intros token userID Hc Hget Hgone. unfold AuthMiddleware.RequireAuth.
  rewrite Hc. unfold mbind, M_bind. fold s.
  pose proof (Get_inl_up s now token w userID Hget) as Hup.
  pose proof (Get_preserves_up s now token w) as Hup1. rewrite Hup in Hup1.
  destruct (SessionStore.Get s now token w) as [res w1]. simpl in *. subst res.
  assert (Hu : UserService.Get users userID = inr ErrNoRows).
  { unfold UserService.Get.
    destruct (find _ users) as [u|] eqn:Hf; [|reflexivity].
    apply find_some in Hf as [Hin Heq]. apply bool_decide_eq_true in Heq.
    exfalso. apply (Hgone u); [apply list_elem_of_In; exact Hin | exact Heq]. }
  rewrite Hu.
  destruct (Delete_strings s now token w1 Hup1) as (Htr & Hstr & _).
  destruct (SessionStore.Delete s now token w1) as [d w2]. simpl in *.
  rewrite Htr, <- !app_assoc. simpl. auto.
Qed.

End AuthMiddlewareProperties.

Lemma RequireAuth_failures_redirect_witness :
  trace (AuthMiddleware.RequireAuth auth [] 150 request_tok world_orphan).2
  = [RedisGET "session:tok"; RedisEXPIRE "session:tok" 604800; RedisDEL "session:tok";
     HttpSetCookie (AuthMiddleware.cleared_cookie auth);
     HttpRedirect "/login" 303]
  /\ strings (AuthMiddleware.RequireAuth auth [] 150 request_tok world_orphan).2
     !! "session:tok" = None.
Proof.
  destruct (RequireAuth_failures_redirect auth [] 150 request_tok world_orphan)
    as (_ & _ & _ & Hvanished).
  destruct (Hvanished "tok" 42%N) as (Htrace & Hgone & _).
  - reflexivity.
  - vm_compute. reflexivity.
  - intros u Hu. inversion Hu.
  - split; [rewrite Htrace; vm_compute; reflexivity | exact Hgone].
Defined.

(** ** The SQL engine *)

Lemma insert_desc_elem {A} (key : A -> Z) (x y : A) (l : list A) :
  y ∈ Pg.insert_desc key x l <-> y = x \/ y ∈ l.
Proof.
  induction l as [|z l IH]; simpl.
  - rewrite list_elem_of_singleton, elem_of_nil. tauto.
  - destruct (key z <=? key x).
    + rewrite !elem_of_cons. tauto.
    + rewrite !elem_of_cons, IH. tauto.
Qed.

Lemma order_by_desc_elem {A} (key : A -> Z) (y : A) (l : list A) :
  y ∈ Pg.order_by_desc key l <-> y ∈ l.
Proof.
  induction l as [|x l IH]; simpl; [reflexivity|].
  rewrite insert_desc_elem, elem_of_cons, IH. reflexivity.
Qed.

Lemma limit_offset_elem {A} (limit offset : Z) (y : A) (l : list A) :
  y ∈ Pg.limit_offset limit offset l -> y ∈ l.
Proof.
  unfold Pg.limit_offset. intros Hy.
  apply (subseteq_drop (Z.to_nat offset) l), (subseteq_take (Z.to_nat limit)), Hy.
Qed.

Lemma find_none_iff {A} (f : A -> bool) (l : list A) :
  find f l = None <-> forall x, x ∈ l -> f x = false.
Proof.
  induction l as [|y l IH]; simpl.
  - split; [intros _ x Hx; inversion Hx | reflexivity].
  - destruct (f y) eqn:Hy.
    + split; [discriminate|]. intros Hall.
      rewrite (Hall y) in Hy by apply list_elem_of_here. discriminate.
    + rewrite IH. split.
      * intros Hall x Hx. apply elem_of_cons in Hx as [->|Hx]; auto.
      * intros Hall x Hx. apply Hall. apply list_elem_of_further, Hx.
Qed.

Lemma ceil_div_spec (total limit : Z) :
  0 < limit ->
  (ceil_div total limit - 1) * limit < total <= ceil_div total limit * limit.
Proof.
  intros Hl. unfold ceil_div.
  pose proof (Z.div_mod (total + limit - 1) limit) as Hdm.
  pose proof (Z.mod_pos_bound (total + limit - 1) limit Hl) as Hb.
  nia.
Qed.

Lemma wrap64_small (z : Z) : 0 <= z < 2 ^ 63 -> wrap64 z = z.
Proof.
  intros Hz. unfold wrap64. rewrite Z.mod_small; lia.
Qed.

(** ** The movie service: ownership and pagination *)

Section LibraryProperties.
Context `{Env}.

Lemma List_unfold (tbl : list Movie.t) (userID : uuid) (input : ListMoviesInput.t) :
  let page := effective_page (ListMoviesInput.Page input) in
  let limit := effective_limit (ListMoviesInput.Limit input) in
  let offset := wrap64 ((page - 1) * limit) in
  MovieService.List tbl userID input
  = if offset <? 0 then inr (Wrapf "error iterating movies: " Pg.negative_offset)
    else inl {| PaginatedMovies.Results :=
                  Pg.limit_offset limit offset
                    (Pg.order_by_desc Movie.TmdbScore (matching tbl userID input));
                PaginatedMovies.Page := page;
                PaginatedMovies.Count := Z.of_nat (length (matching tbl userID input));
                PaginatedMovies.TotalPages :=
                  ceil_div (Z.of_nat (length (matching tbl userID input))) limit |}.
Proof.
  unfold MovieService.List, effective_page, effective_limit, matching. simpl.
  assert (Hp : (if ListMoviesInput.Page input <? 1 then 1 else ListMoviesInput.Page input)
               = if decide (1 <= ListMoviesInput.Page input)
                 then ListMoviesInput.Page input else 1).
  { case_decide; destruct (Z.ltb_spec (ListMoviesInput.Page input) 1); simpl; lia. }
  assert (Hl : (if (ListMoviesInput.Limit input <? 1) || (100 <? ListMoviesInput.Limit input)
                then 27 else ListMoviesInput.Limit input)
               = if decide (1 <= ListMoviesInput.Limit input <= 100)
                 then ListMoviesInput.Limit input else 27).
  { destruct (decide (1 <= ListMoviesInput.Limit input <= 100));
      destruct (Z.ltb_spec (ListMoviesInput.Limit input) 1);
      destruct (Z.ltb_spec 100 (ListMoviesInput.Limit input)); simpl; lia. }
  rewrite Hp, Hl. reflexivity.
Qed.

Lemma effective_limit_range (limit : Z) : 1 <= effective_limit limit <= 100.
Proof. unfold effective_limit. case_decide; lia. Qed.

Lemma List_results (tbl : list Movie.t) (userID : uuid) (input : ListMoviesInput.t)
    (p : PaginatedMovies.t) (x : Movie.t) :
  MovieService.List tbl userID input = inl p ->
  x ∈ PaginatedMovies.Results p ->
  x ∈ tbl /\ Movie.UserID x = userID
  /\ Movie.Watched x = ListMoviesInput.Watched input.
Proof.
  rewrite List_unfold. cbv zeta.
  destruct (_ <? 0); [discriminate|]. intros [= <-]. simpl.
  intros Hx. apply limit_offset_elem, order_by_desc_elem in Hx.
  unfold matching in Hx. apply list_elem_of_In, filter_In in Hx as [Hin Hw].
  unfold MovieService.list_where in Hw.
  apply andb_prop in Hw as [Hw _]. apply andb_prop in Hw as [Hu Hwatched].
  apply bool_decide_eq_true in Hu. apply Bool.eqb_prop in Hwatched.
  split; [apply list_elem_of_In, Hin | auto].
Qed.

(** C2.  An item owned by [V] is never among the results of a [List] call
    made for another user [U], whose results are all owned by [U]; [Get]
    for [U] never returns a row of another owner, and, the item ID being a
    primary key, [Get] of that item for [U] fails with [pgx.ErrNoRows],
    which the handler answers with 404. *)
Theorem Library_ownership (tbl : list Movie.t) (U V : uuid) (item : Movie.t) :
  U <> V ->
  item ∈ tbl ->
  Movie.UserID item = V ->
  (forall input p,
      MovieService.List tbl U input = inl p ->
      (item ∉ PaginatedMovies.Results p)
      /\ (forall x, x ∈ PaginatedMovies.Results p -> Movie.UserID x = U))
  /\ (forall id m, MovieService.Get tbl id U = inl m -> Movie.ID m = id /\ Movie.UserID m = U)
  /\ (NoDup (Movie.ID <$> tbl) ->
      MovieService.Get tbl (Movie.ID item) U = inr ErrNoRows
      /\ forall r : MovieHandler.Request unit,
          MovieHandler.UserIDFromContext r = Some U ->
          uuid_Parse (MovieHandler.PathValue_id r) = Some (Movie.ID item) ->
          MovieHandler.Get tbl r
          = MovieHandler.http_Error (json_error "Movie not found") StatusNotFound).
Proof.
  intros Hne Hin Hown. split.
  { intros input p Hlist. split.
    - intros Hres. destruct (List_results _ _ _ _ _ Hlist Hres) as (_ & Hu & _).
      congruence.
    - intros x Hx. destruct (List_results _ _ _ _ _ Hlist Hx) as (_ & Hu & _).
      exact Hu. }
  split.
  { intros id m. unfold MovieService.Get.
    destruct (find _ tbl) as [m'|] eqn:Hf; [|discriminate].
    intros [= <-]. apply find_some in Hf as [_ Ho].
    unfold MovieService.owned in Ho. apply andb_prop in Ho as [Hi Hu].
    apply bool_decide_eq_true in Hi. apply bool_decide_eq_true in Hu. auto. }
  intros Hpk.
  assert (Hget : MovieService.Get tbl (Movie.ID item) U = inr ErrNoRows).
  { unfold MovieService.Get.
    destruct (find _ tbl) as [m|] eqn:Hf; [|reflexivity].
    apply find_some in Hf as [Hm Ho].
    unfold MovieService.owned in Ho. apply andb_prop in Ho as [Hi Hu].
    apply bool_decide_eq_true in Hi. apply bool_decide_eq_true in Hu.
    assert (m = item).
    { apply list_elem_of_In in Hm.
      apply list_elem_of_lookup in Hm as [i Hi'].
      apply list_elem_of_lookup in Hin as [j Hj'].
      assert (i = j).
      { eapply NoDup_lookup; [exact Hpk | |].
        - rewrite list_lookup_fmap, Hi'. simpl. reflexivity.
        - rewrite list_lookup_fmap, Hj'. simpl. f_equal. symmetry. exact Hi. }
      subst j. congruence. }
    subst m. congruence. }
  split; [exact Hget|].
  intros r Hctx Hid. unfold MovieHandler.Get. rewrite Hctx, Hid, Hget. reflexivity.
Qed.

(** C6.  [List] treats a page below 1 as page 1 and a limit outside
    [1, 100] as 27; when it answers, [Count] is the number of matching rows
    before pagination and [TotalPages] is the ceiling of [Count] over the
    limit in force, which is 0 when nothing matches; and it does answer
    whenever the page offset fits a 64-bit integer. *)
Theorem List_pagination (tbl : list Movie.t) (userID : uuid) (input : ListMoviesInput.t) :
  let limit := effective_limit (ListMoviesInput.Limit input) in
  (ListMoviesInput.Page input < 1 ->
     MovieService.List tbl userID input = MovieService.List tbl userID (with_Page 1 input))
  /\ (ListMoviesInput.Limit input < 1 \/ 100 < ListMoviesInput.Limit input ->
     MovieService.List tbl userID input = MovieService.List tbl userID (with_Limit 27 input))
  /\ (forall p, MovieService.List tbl userID input = inl p ->
        PaginatedMovies.Count p = Z.of_nat (length (matching tbl userID input))
        /\ (PaginatedMovies.TotalPages p - 1) * limit < PaginatedMovies.Count p
           <= PaginatedMovies.TotalPages p * limit
        /\ (PaginatedMovies.Count p = 0 -> PaginatedMovies.TotalPages p = 0))
  /\ (ListMoviesInput.Page input < 2 ^ 56 ->
        exists p, MovieService.List tbl userID input = inl p).
Proof.
  intros limit. pose proof (effective_limit_range (ListMoviesInput.Limit input)) as Hlim.
  fold limit in Hlim.
  split.
  { intros Hpage. rewrite !List_unfold. cbv zeta. unfold with_Page, matching. simpl.
    unfold effective_page. repeat case_decide; try lia. reflexivity. }
  split.
  { intros Hlimit. rewrite !List_unfold. cbv zeta. unfold with_Limit, matching. simpl.
    unfold effective_limit. repeat case_decide; try lia; reflexivity. }
  split.
  { intros p. rewrite List_unfold. cbv zeta. fold limit.
    destruct (_ <? 0); [discriminate|]. intros [= <-]. simpl.
    split; [reflexivity|].
    pose proof (ceil_div_spec (Z.of_nat (length (matching tbl userID input))) limit) as Hc.
    split; [apply Hc; lia|].
    intros Hzero. rewrite Hzero in *. nia. }
  intros Hpage. rewrite List_unfold. cbv zeta. fold limit.
  assert (Hp : 1 <= effective_page (ListMoviesInput.Page input) < 2 ^ 56).
  { unfold effective_page. case_decide; lia. }
  rewrite wrap64_small.
  - destruct (Z.ltb_spec ((effective_page (ListMoviesInput.Page input) - 1) * limit) 0);
      [nia | eauto].
  - split; [nia|].
    assert ((effective_page (ListMoviesInput.Page input) - 1) * limit < 2 ^ 56 * 100)
      by nia.
    assert (2 ^ 56 * 100 < 2 ^ 63) by reflexivity. lia.
Qed.

End LibraryProperties.

(** ** A small library *)

Example List_scenario :
  MovieService.List library 7%N (with_Limit 27 (with_Page 1 page_zero))
  = inl {| PaginatedMovies.Results := [the_matrix]; PaginatedMovies.Page := 1;
           PaginatedMovies.Count := 1; PaginatedMovies.TotalPages := 1 |}.
Proof. vm_compute. reflexivity. Qed.

Lemma Library_ownership_witness :
  MovieService.Get library 1%N 8%N = inr ErrNoRows
  /\ forall input p, MovieService.List library 8%N input = inl p ->
                     the_matrix ∉ PaginatedMovies.Results p.
Proof.
  destruct (Library_ownership library 8%N 7%N the_matrix) as (Hlist & _ & Hget).
  - discriminate.
  - apply list_elem_of_here.
  - reflexivity.
  - split.
    + apply Hget. repeat constructor; rewrite ?elem_of_cons, ?elem_of_nil;
        intros Hdup; repeat destruct Hdup as [Hdup|Hdup]; try discriminate; exact Hdup.
    + intros input p Hp. apply (Hlist input p Hp).
Defined.

Lemma List_pagination_witness :
  MovieService.List library 7%N page_zero
  = MovieService.List library 7%N (with_Page 1 page_zero)
  /\ MovieService.List library 7%N page_zero
     = MovieService.List library 7%N (with_Limit 27 page_zero)
  /\ exists p, MovieService.List library 7%N page_zero = inl p.
Proof.
  destruct (List_pagination library 7%N page_zero) as (Hpage & Hlimit & _ & Hsome).
  split; [apply Hpage; reflexivity|].
  split; [apply Hlimit; right; reflexivity|].
  apply Hsome. reflexivity.
Defined.

(** ** The movie service and its handler: conflicts and missing rows *)

Section CreateUpdateProperties.
Context `{Env}.

(** The text of a wrapped error starts with the prefix of the wrapper, so
    it is never the literal the handler compares it with. *)
Lemma wrapped_create_text (err : error) :
  String.eqb (Error (Wrapf "failed to create movie: " err))
    "duplicate key value violates unique constraint" = false.
Proof. reflexivity. Qed.

(** [Create] answers 201 or 401, 400, 500: the 409 branch cannot be taken. *)
Lemma MovieHandler_Create_never_Conflict (users : list User.t) (tbl : list Movie.t)
    (newid : uuid) (now : Z) (r : MovieHandler.Request CreateMovieInput.t) :
  MovieHandler.Status (MovieHandler.Create users tbl newid now r).1 <> StatusConflict.
Proof.
  unfold MovieHandler.Create.
  destruct (MovieHandler.UserIDFromContext r); [|discriminate].
  destruct (MovieHandler.Body r) as [input|]; [|discriminate].
  unfold MovieService.Create.
  destruct (MovieService.insert _ _ _) as [[movie|err] tbl']; [discriminate|].
  rewrite wrapped_create_text. discriminate.
Qed.

Lemma existsb_elem {A} (f : A -> bool) (l : list A) (x : A) :
  x ∈ l -> f x = true -> existsb f l = true.
Proof.
  intros Hx Hf. apply existsb_exists. exists x. split; [apply list_elem_of_In, Hx | exact Hf].
Qed.

(** C1, on the code.  When the user's library already holds an item with
    the tmdbId of the input, the service fails with the storage error
    wrapped under "failed to create movie: ", the table is left as it was,
    and the handler answers 500 "Failed to create movie", not 409. *)
Theorem MovieHandler_Create_duplicate_is_500 (users : list User.t) (tbl : list Movie.t)
    (newid : uuid) (now : Z) (userID : uuid) (input : CreateMovieInput.t)
    (existing : Movie.t) (path : string) :
  existing ∈ tbl ->
  Movie.UserID existing = userID ->
  Movie.TmdbID existing = CreateMovieInput.TmdbID input ->
  (exists constraint,
      MovieService.Create users tbl newid now userID input
      = (inr (Wrapf "failed to create movie: " (Pg.unique_violation constraint)), tbl))
  /\ MovieHandler.Create users tbl newid now
       {| MovieHandler.UserIDFromContext := Some userID;
          MovieHandler.PathValue_id := path;
          MovieHandler.Body := Some input |}
     = (MovieHandler.http_Error (json_error "Failed to create movie")
          StatusInternalServerError, tbl).
Proof.
  intros Hin Hu Ht.
  assert (Hsvc : exists constraint,
             MovieService.Create users tbl newid now userID input
             = (inr (Wrapf "failed to create movie: " (Pg.unique_violation constraint)),
                tbl)).
  { unfold MovieService.Create, MovieService.insert. simpl.
    destruct (existsb _ tbl); [eauto|].
    rewrite (existsb_elem _ tbl existing Hin); [eauto|].
    simpl. rewrite Hu, Ht, !bool_decide_eq_true_2; reflexivity. }
  split; [exact Hsvc|].
  destruct Hsvc as [constraint Hsvc].
  unfold MovieHandler.Create. simpl. rewrite Hsvc. reflexivity.
Qed.


Lemma map_unowned (tbl : list Movie.t) (f : Movie.t -> Movie.t) (p : Movie.t -> bool) :
  (forall m, m ∈ tbl -> p m = false) ->
  map (fun m => if p m then f m else m) tbl = tbl.
Proof.
  induction tbl as [|x tbl IH]; intros Hall; simpl; [reflexivity|].
  rewrite (Hall x) by apply list_elem_of_here.
  rewrite IH; [reflexivity|]. intros m Hm. apply Hall, list_elem_of_further, Hm.
Qed.

(** C4, on the code.  When no row has both the item ID and the owner, the
    service fails with [pgx.ErrNoRows] wrapped under "failed to update
    movie: ": the sentinel is in the chain but the error is not equal to it,
    and the handler, which compares with [==], answers 500 "Failed to update
    movie", not 404. *)
Theorem MovieHandler_Update_missing_is_500 (tbl : list Movie.t) (now : Z)
    (r : MovieHandler.Request UpdateMovieInput.t) (userID movieID : uuid)
    (decoded : UpdateMovieInput.t) :
  MovieHandler.UserIDFromContext r = Some userID ->
  uuid_Parse (MovieHandler.PathValue_id r) = Some movieID ->
  MovieHandler.Body r = Some decoded ->
  (forall m, m ∈ tbl -> ~ (Movie.ID m = movieID /\ Movie.UserID m = userID)) ->
  let input :=
    {| UpdateMovieInput.ID := movieID;
       UpdateMovieInput.Score := UpdateMovieInput.Score decoded;
       UpdateMovieInput.Watched := UpdateMovieInput.Watched decoded |} in
  MovieService.Update tbl now userID input
  = (inr (Wrapf "failed to update movie: " ErrNoRows), tbl)
  /\ is_ErrNoRows (Wrapf "failed to update movie: " ErrNoRows) = false
  /\ errors_Is (Wrapf "failed to update movie: " ErrNoRows) is_ErrNoRows = true
  /\ MovieHandler.Update tbl now r
     = (MovieHandler.http_Error (json_error "Failed to update movie")
          StatusInternalServerError, tbl).
Proof.
  intros Hctx Hid Hbody Hmiss input.
  assert (Hnone : forall m, m ∈ tbl -> MovieService.owned movieID userID m = false).
  { intros m Hm. unfold MovieService.owned.
    destruct (bool_decide (Movie.ID m = movieID)) eqn:H1;
      destruct (bool_decide (Movie.UserID m = userID)) eqn:H2; try reflexivity.
    apply bool_decide_eq_true in H1. apply bool_decide_eq_true in H2.
    exfalso. apply (Hmiss m Hm). auto. }
  assert (Hsvc : MovieService.Update tbl now userID input
                 = (inr (Wrapf "failed to update movie: " ErrNoRows), tbl)).
  { unfold MovieService.Update. simpl.
    rewrite (proj2 (find_none_iff _ tbl) Hnone).
    rewrite map_unowned by exact Hnone. reflexivity. }
  split; [exact Hsvc|]. split; [reflexivity|]. split; [reflexivity|].
  unfold MovieHandler.Update. rewrite Hctx, Hid, Hbody. fold input. rewrite Hsvc.
  reflexivity.
Qed.


End CreateUpdateProperties.

Lemma MovieHandler_Create_duplicate_is_500_witness :
  MovieHandler.Create [alice; bob] library 3%N 30
    {| MovieHandler.UserIDFromContext := Some 7%N;
       MovieHandler.PathValue_id := EmptyString;
       MovieHandler.Body := Some add_the_matrix |}
  = (MovieHandler.http_Error (json_error "Failed to create movie")
       StatusInternalServerError, library).
Proof.
  destruct (MovieHandler_Create_duplicate_is_500 [alice; bob] library 3%N 30 7%N
              add_the_matrix the_matrix EmptyString) as [_ Hhandler].
  - apply list_elem_of_here.
  - reflexivity.
  - reflexivity.
  - exact Hhandler.
Defined.

Lemma MovieHandler_Update_missing_is_500_witness :
  MovieHandler.Update library 30
    {| MovieHandler.UserIDFromContext := Some 8%N;
       MovieHandler.PathValue_id := uuid_String 1%N;
       MovieHandler.Body := Some mark_watched |}
  = (MovieHandler.http_Error (json_error "Failed to update movie")
       StatusInternalServerError, library).
Proof.
  destruct (MovieHandler_Update_missing_is_500 library 30
              {| MovieHandler.UserIDFromContext := Some 8%N;
                 MovieHandler.PathValue_id := uuid_String 1%N;
                 MovieHandler.Body := Some mark_watched |}
              8%N 1%N mark_watched) as (_ & _ & _ & Hhandler).
  - reflexivity.
  - vm_compute. reflexivity.
  - reflexivity.
  - intros m Hm [Hid Hu].
    repeat (apply elem_of_cons in Hm as [->|Hm]; [discriminate Hu|]).
    inversion Hm.
  - exact Hhandler.
Defined.

(** ** The two services side by side *)

Lemma filter_map {A B} (f : A -> B) (g : B -> bool) (l : list A) :
  List.filter g (map f l) = map f (List.filter (fun a => g (f a)) l).
Proof.
  induction l as [|x l IH]; simpl; [reflexivity|].
  destruct (g (f x)); simpl; rewrite IH; reflexivity.
Qed.

Lemma find_map {A B} (f : A -> B) (g : B -> bool) (l : list A) :
  find g (map f l) = option_map f (find (fun a => g (f a)) l).
Proof.
  induction l as [|x l IH]; simpl; [reflexivity|].
  destruct (g (f x)); [reflexivity | exact IH].
Qed.

Lemma existsb_map {A B} (f : A -> B) (g : B -> bool) (l : list A) :
  existsb g (map f l) = existsb (fun a => g (f a)) l.
Proof.
  induction l as [|x l IH]; simpl; [reflexivity|]. rewrite IH. reflexivity.
Qed.

Lemma insert_desc_map {A B} (f : A -> B) (key : A -> Z) (key' : B -> Z) (x : A) (l : list A) :
  (forall a, key' (f a) = key a) ->
  Pg.insert_desc key' (f x) (map f l) = map f (Pg.insert_desc key x l).
Proof.
  intros Hkey. induction l as [|y l IH]; simpl; [reflexivity|].
  rewrite !Hkey. destruct (key y <=? key x); simpl; [reflexivity|].
  rewrite IH. reflexivity.
Qed.

Lemma order_by_desc_map {A B} (f : A -> B) (key : A -> Z) (key' : B -> Z) (l : list A) :
  (forall a, key' (f a) = key a) ->
  Pg.order_by_desc key' (map f l) = map f (Pg.order_by_desc key l).
Proof.
  intros Hkey. unfold Pg.order_by_desc.
  induction l as [|x l IH]; simpl; [reflexivity|].
  rewrite IH. apply insert_desc_map, Hkey.
Qed.

Lemma limit_offset_map {A B} (f : A -> B) (limit offset : Z) (l : list A) :
  Pg.limit_offset limit offset (map f l) = map f (Pg.limit_offset limit offset l).
Proof.
  unfold Pg.limit_offset. rewrite skipn_map, firstn_map. reflexivity.
Qed.

Section TwoServices.
Context `{Env}.

Lemma SerieService_List_mirror (tbl : list Movie.t) (userID : uuid)
    (input : ListMoviesInput.t) :
  SerieService.List (map AsSerie.item tbl) userID (AsSerie.list_input input)
  = AsSerie.result AsSerie.page (MovieService.List tbl userID input).
Proof.
  unfold SerieService.List, MovieService.List. simpl.
  rewrite filter_map.
  replace (fun a => SerieService.list_where userID (ListMoviesInput.Watched input)
                      (ListMoviesInput.Query input) (AsSerie.item a))
    with (MovieService.list_where userID (ListMoviesInput.Watched input)
            (ListMoviesInput.Query input)) by reflexivity.
  rewrite length_map.
  destruct (wrap64 _ <? 0); [reflexivity|].
  simpl. unfold AsSerie.page. simpl.
  rewrite (order_by_desc_map AsSerie.item Movie.TmdbScore Serie.TmdbScore)
    by reflexivity.
  rewrite limit_offset_map. reflexivity.
Qed.

Lemma SerieService_Create_mirror (users : list User.t) (tbl : list Movie.t)
    (newid : uuid) (now : Z) (userID : uuid) (input : CreateMovieInput.t) :
  SerieService.Create users (map AsSerie.item tbl) newid now userID
    (AsSerie.create_input input)
  = (AsSerie.result AsSerie.item (MovieService.Create users tbl newid now userID input).1,
     map AsSerie.item (MovieService.Create users tbl newid now userID input).2).
Proof.
  unfold SerieService.Create, MovieService.Create, SerieService.insert,
    MovieService.insert. simpl.
  rewrite !existsb_map. simpl.
  destruct (existsb _ tbl); [reflexivity|].
  match goal with
  | |- context [existsb ?f tbl] => destruct (existsb f tbl)
  end; [reflexivity|].
  destruct (negb (Pg.user_exists users userID)); [reflexivity|].
  simpl. rewrite map_app. reflexivity.
Qed.

Lemma SerieService_Get_mirror (tbl : list Movie.t) (id userID : uuid) :
  SerieService.Get (map AsSerie.item tbl) id userID
  = AsSerie.result AsSerie.item (MovieService.Get tbl id userID).
Proof.
  unfold SerieService.Get, MovieService.Get. rewrite find_map.
  replace (fun a => SerieService.owned id userID (AsSerie.item a))
    with (MovieService.owned id userID) by reflexivity.
  destruct (find _ tbl); reflexivity.
Qed.

Lemma SerieService_Update_mirror (tbl : list Movie.t) (now : Z) (userID : uuid)
    (input : UpdateMovieInput.t) :
  SerieService.Update (map AsSerie.item tbl) now userID (AsSerie.update_input input)
  = (AsSerie.result AsSerie.item (MovieService.Update tbl now userID input).1,
     map AsSerie.item (MovieService.Update tbl now userID input).2).
Proof.
  unfold SerieService.Update, MovieService.Update. simpl.
  rewrite find_map, !map_map.
  replace (fun a => SerieService.owned (UpdateMovieInput.ID input) userID (AsSerie.item a))
    with (MovieService.owned (UpdateMovieInput.ID input) userID) by reflexivity.
  assert (Hrows :
    map (fun x =>
           if SerieService.owned (UpdateMovieInput.ID input) userID (AsSerie.item x)
           then SerieService.assign now (AsSerie.update_input input) (AsSerie.item x)
           else AsSerie.item x) tbl
    = map (fun x =>
             AsSerie.item
               (if MovieService.owned (UpdateMovieInput.ID input) userID x
                then MovieService.assign now input x else x)) tbl).
  { apply map_ext. intros x.
    change (SerieService.owned (UpdateMovieInput.ID input) userID (AsSerie.item x))
      with (MovieService.owned (UpdateMovieInput.ID input) userID x).
    destruct (MovieService.owned _ _ x); reflexivity. }
  rewrite Hrows.
  destruct (find _ tbl); simpl; rewrite map_map; reflexivity.
Qed.

Lemma SerieService_Delete_mirror (tbl : list Movie.t) (id userID : uuid) :
  SerieService.Delete (map AsSerie.item tbl) id userID
  = (option_map AsSerie.err (MovieService.Delete tbl id userID).1,
     map AsSerie.item (MovieService.Delete tbl id userID).2).
Proof.
  unfold SerieService.Delete, MovieService.Delete.
  rewrite !filter_map, length_map.
  replace (fun a => SerieService.owned id userID (AsSerie.item a))
    with (MovieService.owned id userID) by reflexivity.
  replace (fun a => negb (SerieService.owned id userID (AsSerie.item a)))
    with (fun m => negb (MovieService.owned id userID m)) by reflexivity.
  destruct (length _ =? 0)%nat; reflexivity.
Qed.

(** C8.  Read through the translation of rows, inputs and relation names,
    the serie service computes on every table and input what the movie
    service computes: the same page and limit in force, the same rows in
    the same order, the same count and number of pages, the same table
    afterwards, and the same failures (conflict, missing row) under the
    same conditions; and the translation reaches every serie row and
    input. *)
Theorem SerieService_mirrors_MovieService (users : list User.t) (tbl : list Movie.t)
    (newid id userID : uuid) (now : Z) (li : ListMoviesInput.t)
    (ci : CreateMovieInput.t) (ui : UpdateMovieInput.t) :
  let stbl := map AsSerie.item tbl in
  SerieService.List stbl userID (AsSerie.list_input li)
  = AsSerie.result AsSerie.page (MovieService.List tbl userID li)
  /\ SerieService.Create users stbl newid now userID (AsSerie.create_input ci)
     = (AsSerie.result AsSerie.item (MovieService.Create users tbl newid now userID ci).1,
        map AsSerie.item (MovieService.Create users tbl newid now userID ci).2)
  /\ SerieService.Get stbl id userID
     = AsSerie.result AsSerie.item (MovieService.Get tbl id userID)
  /\ SerieService.Update stbl now userID (AsSerie.update_input ui)
     = (AsSerie.result AsSerie.item (MovieService.Update tbl now userID ui).1,
        map AsSerie.item (MovieService.Update tbl now userID ui).2)
  /\ SerieService.Delete stbl id userID
     = (option_map AsSerie.err (MovieService.Delete tbl id userID).1,
        map AsSerie.item (MovieService.Delete tbl id userID).2)
  /\ (forall s, AsSerie.item (AsSerie.item_back s) = s)
  /\ (forall i, AsSerie.list_input (AsSerie.list_input_back i) = i)
  /\ (forall i, AsSerie.create_input (AsSerie.create_input_back i) = i)
  /\ (forall i, AsSerie.update_input (AsSerie.update_input_back i) = i)
  /\ (forall e, is_ErrNoRows (AsSerie.err e) = is_ErrNoRows e)
  /\ (forall e, errors_Is (AsSerie.err e) is_ErrNoRows = errors_Is e is_ErrNoRows).
Proof.
  intros stbl. subst stbl.
  split; [apply SerieService_List_mirror|].
  split; [apply SerieService_Create_mirror|].
  split; [apply SerieService_Get_mirror|].
  split; [apply SerieService_Update_mirror|].
  split; [apply SerieService_Delete_mirror|].
  split; [intros []; reflexivity|].
  split; [intros []; reflexivity|].
  split; [intros []; reflexivity|].
  split; [intros []; reflexivity|].
  split; [intros []; reflexivity|].
  intros e. induction e; simpl; auto.
Qed.

End TwoServices.

(** * Further properties *)

(** ** SessionStore: deletion, probing, sliding expiry, failures, framing *)

Section SessionStoreMore.
Context `{EL : EnvLaws}.

Lemma session_key_inj (a b : string) : SessionStore.key a = SessionStore.key b -> a = b.
Proof. unfold SessionStore.key. simpl. intros Heq. injection Heq. auto. Qed.

(** X1.  [Delete] on a reachable store reports no error whether or not the
    token exists; afterwards [Get] of the token finds no session and a second
    [Delete] again reports no error. *)
Theorem SessionStore_Delete_forgets (s : SessionStore.t) (w : World) (now : Z)
    (token : string) :
  redis_up w = true ->
  let w1 := (SessionStore.Delete s now token w).2 in
  (SessionStore.Delete s now token w).1 = None
  /\ strings w1 !! SessionStore.key token = None
  /\ (forall now', (SessionStore.Get s now' token w1).1 = inr (Errorf "session not found"))
  /\ (forall now', (SessionStore.Delete s now' token w1).1 = None).
Proof.
  intros Hup w1.
  destruct (Delete_strings s now token w Hup) as (_ & Hgone & Hup1). fold w1 in Hgone, Hup1.
  assert (Hdel : forall now0 w0, redis_up w0 = true ->
                   (SessionStore.Delete s now0 token w0).1 = None).
  { intros now0 w0 Hup0.
    unfold SessionStore.Delete, mbind, M_bind, Redis.DEL, mret, M_ret. simpl.
    rewrite Hup0. destruct (Redis.peek now0 (strings w0) (SessionStore.key token)); reflexivity. }
  split; [apply Hdel, Hup|]. split; [exact Hgone|]. split.
  - intros now'. rewrite Get_invisible; auto using peek_None.
  - intros now'. apply Hdel, Hup1.
Qed.

(** X2.  [Exists] answers true exactly for a token whose key is present and
    unexpired, and it changes no key: unlike [Get] it does not extend the
    expiry, so a session that is only probed still expires on time. *)
Theorem SessionStore_Exists_probes (s : SessionStore.t) (w : World) (now : Z)
    (token : string) :
  redis_up w = true ->
  strings (SessionStore.Exists s now token w).2 = strings w
  /\ ((SessionStore.Exists s now token w).1 = inl true <->
      exists v t, strings w !! SessionStore.key token = Some (v, t)
                  /\ Redis.live now (v, t) = true)
  /\ ((SessionStore.Exists s now token w).1 = inl false <->
      Redis.peek now (strings w) (SessionStore.key token) = None)
  /\ (forall v t later,
        strings w !! SessionStore.key token = Some (v, Some t) -> t <= later ->
        (SessionStore.Get s later token (SessionStore.Exists s now token w).2).1
        = inr (Errorf "session not found")).
Proof.
  intros Hup.
  assert (Hex : SessionStore.Exists s now token w
                = (inl (match Redis.peek now (strings w) (SessionStore.key token) with
                        | Some _ => true
                        | None => false
                        end),
                   emit (RedisEXISTS (SessionStore.key token)) w)).
  { unfold SessionStore.Exists, mbind, M_bind, Redis.EXISTS, mret, M_ret. simpl.
    rewrite Hup. destruct (Redis.peek now (strings w) (SessionStore.key token)); reflexivity. }
  rewrite Hex. simpl. split; [reflexivity|]. split; [|split].
  - destruct (Redis.peek now (strings w) (SessionStore.key token)) as [[v t]|] eqn:Hp.
    + apply peek_Some in Hp as [Hk Hl]. split; eauto.
    + split; [discriminate|]. intros (v & t & Hk & Hl).
      unfold Redis.peek in Hp. rewrite Hk, Hl in Hp. discriminate.
  - destruct (Redis.peek now (strings w) (SessionStore.key token)); split;
      (reflexivity || discriminate).
  - intros v t later Hk Hlater. rewrite Get_invisible; [reflexivity | exact Hup |].
    simpl. eapply peek_expired; eauto.
Qed.

Lemma Get_visible_state (s : SessionStore.t) (now : Z) (token : string) (w : World)
    (v : string) (t : Z) (u : uuid) :
  0 < SessionStore.ttl s ->
  redis_up w = true ->
  strings w !! SessionStore.key token = Some (v, Some t) ->
  now < t ->
  uuid_Parse v = Some u ->
  (SessionStore.Get s now token w).1 = inl u
  /\ redis_up (SessionStore.Get s now token w).2 = true
  /\ strings (SessionStore.Get s now token w).2 !! SessionStore.key token
     = Some (v, Some (now + SessionStore.ttl s)).
Proof.
  intros Httl Hup Hk Hlt Hparse.
  erewrite Get_visible; eauto using peek_live. simpl.
  rewrite lookup_insert_eq. auto.
Qed.

Lemma reads_paced (s : SessionStore.t) (token : string) (v : string) (u : uuid)
    (times : list Z) :
  0 < SessionStore.ttl s ->
  uuid_Parse v = Some u ->
  forall (last : Z) (w : World),
    redis_up w = true ->
    strings w !! SessionStore.key token = Some (v, Some (last + SessionStore.ttl s)) ->
    paced (SessionStore.ttl s) last times ->
    (reads s token times w).1 = replicate (length times) (inl u).
Proof.
  intros Httl Hparse. induction times as [|now times IH]; intros last w Hup Hk Hp;
    [reflexivity|].
  destruct Hp as [Hnow Hp]. simpl.
  destruct (Get_visible_state s now token w v (last + SessionStore.ttl s) u)
    as (Hr & Hup' & Hk'); auto; [lia|].
  destruct (SessionStore.Get s now token w) as [r w']. simpl in *. subst r.
  specialize (IH now w' Hup' Hk' Hp).
  destruct (reads s token times w') as [rs w'']. simpl in *. rewrite IH. reflexivity.
Qed.

(** X3.  Sliding expiry: after [Set], any number of reads, each made less
    than one TTL after the previous one, all return the user ID, however long
    ago the session was set. *)
Theorem SessionStore_reads_keep_alive (s : SessionStore.t) (w : World) (now : Z)
    (token : string) (userID : uuid) (times : list Z) :
  0 < SessionStore.ttl s ->
  redis_up w = true ->
  paced (SessionStore.ttl s) now times ->
  (reads s token times (SessionStore.Set_ s now token userID w).2).1
  = replicate (length times) (inl userID).
Proof.
  intros Httl Hup Hp.
  apply (reads_paced s token (uuid_String userID) userID times Httl
           (uuid_Parse_String userID) now); [| |exact Hp].
  - unfold SessionStore.Set_, Redis.SET. simpl. rewrite Hup. exact Hup.
  - unfold SessionStore.Set_, Redis.SET, Redis.expiry. simpl. rewrite Hup. simpl.
    destruct (Z.ltb_spec 0 (SessionStore.ttl s)); [|lia]. apply lookup_insert_eq.
Qed.

(** X4.  When the store cannot be reached, [Set], [Get], [Delete] and
    [Exists] each report the transport error ([Get] and [Exists] wrapped under
    their own prefix), [Get] does not report "session not found", and nothing
    stored changes. *)
Theorem SessionStore_unreachable (s : SessionStore.t) (w : World) (now : Z)
    (token : string) (userID : uuid) :
  redis_up w = false ->
  SessionStore.Set_ s now token userID w
  = (Some Redis.conn_refused,
     emit (RedisSET (SessionStore.key token) (uuid_String userID) (SessionStore.ttl s)) w)
  /\ SessionStore.Get s now token w
     = (inr (Wrapf "failed to get session: " Redis.conn_refused),
        emit (RedisGET (SessionStore.key token)) w)
  /\ SessionStore.Delete s now token w
     = (Some Redis.conn_refused, emit (RedisDEL (SessionStore.key token)) w)
  /\ SessionStore.Exists s now token w
     = (inr (Wrapf "failed to check session existence: " Redis.conn_refused),
        emit (RedisEXISTS (SessionStore.key token)) w).
Proof.
  intros Hdown.
  unfold SessionStore.Set_, SessionStore.Get, SessionStore.Delete, SessionStore.Exists,
    mbind, M_bind, Redis.SET, Redis.GET, Redis.DEL, Redis.EXISTS, mret, M_ret. simpl.
  rewrite Hdown. auto.
Qed.

(** X5.  Sessions do not interfere: [Set], [Get] and [Delete] of one token
    leave the value and the expiry stored for every other token as they
    were. *)
Theorem SessionStore_other_tokens (s : SessionStore.t) (w : World) (now : Z)
    (token other : string) (userID : uuid) :
  token <> other ->
  strings (SessionStore.Set_ s now token userID w).2 !! SessionStore.key other
  = strings w !! SessionStore.key other
  /\ strings (SessionStore.Get s now token w).2 !! SessionStore.key other
     = strings w !! SessionStore.key other
  /\ strings (SessionStore.Delete s now token w).2 !! SessionStore.key other
     = strings w !! SessionStore.key other.
Proof.
  intros Hne.
  assert (Hk : SessionStore.key token <> SessionStore.key other).
  { intros Heq. apply Hne, session_key_inj, Heq. }
  unfold SessionStore.Set_, SessionStore.Get, SessionStore.Delete,
    mbind, M_bind, Redis.SET, Redis.GET, Redis.DEL, Redis.EXPIRE, mret, M_ret. simpl.
  destruct (redis_up w) eqn:Hup; simpl; [|auto].
  split; [apply lookup_insert_ne, Hk|]. split.
  - destruct (Redis.peek now (strings w) (SessionStore.key token)) as [[v t]|] eqn:Hp;
      simpl; [|reflexivity].
    destruct (uuid_Parse v); simpl; [|reflexivity].
    rewrite Hup, Hp. destruct (0 <? SessionStore.ttl s); simpl.
    + apply lookup_insert_ne, Hk.
    + apply lookup_delete_ne, Hk.
  - destruct (Redis.peek now (strings w) (SessionStore.key token)); simpl;
      apply lookup_delete_ne, Hk.
Qed.

End SessionStoreMore.

Lemma SessionStore_Delete_forgets_witness :
  (SessionStore.Get week 200 "tok"
     (SessionStore.Delete week 150 "tok" world_orphan).2).1
  = inr (Errorf "session not found").
Proof.
  destruct (SessionStore_Delete_forgets week world_orphan 150 "tok") as (_ & _ & Hget & _).
  - reflexivity.
  - apply Hget.
Defined.

Lemma SessionStore_Exists_probes_witness :
  (SessionStore.Get week 1000 "tok"
     (SessionStore.Exists week 150 "tok" world_orphan).2).1
  = inr (Errorf "session not found").
Proof.
  destruct (SessionStore_Exists_probes week world_orphan 150 "tok") as (_ & _ & _ & Hlate).
  - reflexivity.
  - apply (Hlate (uuid_String 42%N) 1000 1000); [vm_compute; reflexivity | lia].
Defined.

Lemma SessionStore_reads_keep_alive_witness :
  (reads week "tok" [600000; 1200000; 1800000]
     (SessionStore.Set_ week 100 "tok" 42%N world0).2).1
  = [inl 42%N; inl 42%N; inl 42%N].
Proof.
  apply (SessionStore_reads_keep_alive week world0 100 "tok" 42%N
           [600000; 1200000; 1800000]).
  - reflexivity.
  - reflexivity.
  - cbn. lia.
Defined.

Lemma SessionStore_unreachable_witness :
  (SessionStore.Get week 150 "tok" world_down).1
  = inr (Wrapf "failed to get session: " Redis.conn_refused).
Proof.
  destruct (SessionStore_unreachable week world_down 150 "tok" 42%N) as (_ & Hget & _).
  - reflexivity.
  - rewrite Hget. reflexivity.
Defined.

Lemma SessionStore_other_tokens_witness :
  strings (SessionStore.Delete week 150 "other" world_orphan).2 !! SessionStore.key "tok"
  = strings world_orphan !! SessionStore.key "tok".
Proof.
  destruct (SessionStore_other_tokens week world_orphan 150 "other" "tok" 42%N)
    as (_ & _ & Hdel).
  - discriminate.
  - exact Hdel.
Defined.

(** ** AuthMiddleware: the optional and the API variants *)

Section AuthVariants.
Context `{Env}.

Lemma Get_trace (s : SessionStore.t) (now : Z) (token : string) (w : World) :
  exists added,
    trace (SessionStore.Get s now token w).2 = trace w ++ added
    /\ Forall lookup_command added.
Proof.
  unfold SessionStore.Get, mbind, M_bind, Redis.GET, Redis.EXPIRE, mret, M_ret. simpl.
  assert (Hget : lookup_command (RedisGET (SessionStore.key token))) by (left; eauto).
  assert (Hexp : lookup_command (RedisEXPIRE (SessionStore.key token) (SessionStore.ttl s)))
    by (right; eauto).
  destruct (redis_up w) eqn:Hup; simpl.
  2:{ exists [RedisGET (SessionStore.key token)]. auto. }
  destruct (Redis.peek now (strings w) (SessionStore.key token)) as [[v t]|] eqn:Hp; simpl.
  2:{ exists [RedisGET (SessionStore.key token)]. auto. }
  destruct (uuid_Parse v); simpl.
  2:{ exists [RedisGET (SessionStore.key token)]. auto. }
  rewrite Hup, Hp.
  exists [RedisGET (SessionStore.key token);
          RedisEXPIRE (SessionStore.key token) (SessionStore.ttl s)].
  destruct (0 <? SessionStore.ttl s); simpl; rewrite <- app_assoc; auto.
Qed.

(** X6.  [OptionalAuth] never blocks: whatever the cookies, the store and
    the users, it sends nothing but the commands of the session lookup and
    then calls the next handler; it writes no redirect, no error and no
    cookie and deletes no session. *)
Theorem OptionalAuth_never_blocks (m : AuthMiddleware.t) (users : list User.t) (now : Z)
    (r : AuthMiddleware.Request) (w : World) :
  exists added identity,
    trace (AuthMiddleware.OptionalAuth m users now r w).2
    = trace w ++ added ++ [HttpServeNext identity]
    /\ Forall lookup_command added.
Proof.
  unfold AuthMiddleware.OptionalAuth.
  destruct (AuthMiddleware.Request_Cookie r (AuthMiddleware.cookieName m)) as [token|].
  2:{ exists [], None. simpl. auto. }
  unfold mbind, M_bind.
  destruct (Get_trace (AuthMiddleware.sessionStore m) now token w) as (added & Htr & Hall).
  destruct (SessionStore.Get (AuthMiddleware.sessionStore m) now token w) as [res w1].
  simpl in Htr.
  destruct res as [userID|err].
  - destruct (UserService.Get users userID) as [user|err]; simpl; rewrite Htr, <- app_assoc;
      eauto.
  - simpl. rewrite Htr, <- app_assoc. eauto.
Qed.

(** X7.  [RequireAuthAPI] ends either in the next handler with an identity
    or in a 401 with the JSON body "Unauthorized"; on the way it sends only
    the commands of the session lookup.  In particular, when the session
    resolves to a user that cannot be found, the session is left in the store
    and no cookie is written, unlike [RequireAuth]. *)
Theorem RequireAuthAPI_outcomes (m : AuthMiddleware.t) (users : list User.t) (now : Z)
    (r : AuthMiddleware.Request) (w : World) :
  (exists added final,
      trace (AuthMiddleware.RequireAuthAPI m users now r w).2 = trace w ++ added ++ [final]
      /\ Forall lookup_command added
      /\ (final = HttpError (json_error "Unauthorized") StatusUnauthorized
          \/ exists identity, final = HttpServeNext (Some identity)))
  /\ (forall token userID,
        AuthMiddleware.Request_Cookie r (AuthMiddleware.cookieName m) = inl token ->
        (SessionStore.Get (AuthMiddleware.sessionStore m) now token w).1 = inl userID ->
        (forall u, u ∈ users -> User.ID u <> userID) ->
        AuthMiddleware.RequireAuthAPI m users now r w
        = (tt, emit (HttpError (json_error "Unauthorized") StatusUnauthorized)
                 (SessionStore.Get (AuthMiddleware.sessionStore m) now token w).2)
        /\ (0 < SessionStore.ttl (AuthMiddleware.sessionStore m) ->
            exists v,
              strings (AuthMiddleware.RequireAuthAPI m users now r w).2
              !! SessionStore.key token
              = Some (v, Some (now + SessionStore.ttl (AuthMiddleware.sessionStore m))))).
Proof.
  split.
  { unfold AuthMiddleware.RequireAuthAPI.
    destruct (AuthMiddleware.Request_Cookie r (AuthMiddleware.cookieName m)) as [token|].
    2:{ exists [], (HttpError (json_error "Unauthorized") StatusUnauthorized). simpl. auto. }
    unfold mbind, M_bind.
    destruct (Get_trace (AuthMiddleware.sessionStore m) now token w) as (added & Htr & Hall).
    destruct (SessionStore.Get (AuthMiddleware.sessionStore m) now token w) as [res w1].
    simpl in Htr.
    destruct res as [userID|err].
    - destruct (UserService.Get users userID) as [user|err]; simpl;
        rewrite Htr, <- app_assoc; eauto 10.
    - simpl. rewrite Htr, <- app_assoc. eauto 10. }
  intros token userID Hc Hget Hgone.
  assert (Hu : UserService.Get users userID = inr ErrNoRows).
  { unfold UserService.Get.
    destruct (find _ users) as [u|] eqn:Hf; [|reflexivity].
    apply find_some in Hf as [Hin Heq]. apply bool_decide_eq_true in Heq.
    exfalso. apply (Hgone u); [apply list_elem_of_In; exact Hin | exact Heq]. }
  assert (Hrun : AuthMiddleware.RequireAuthAPI m users now r w
                 = (tt, emit (HttpError (json_error "Unauthorized") StatusUnauthorized)
                          (SessionStore.Get (AuthMiddleware.sessionStore m) now token w).2)).
  { unfold AuthMiddleware.RequireAuthAPI. rewrite Hc. unfold mbind, M_bind.
    destruct (SessionStore.Get (AuthMiddleware.sessionStore m) now token w) as [res w1].
    simpl in *. subst res. rewrite Hu. reflexivity. }
  split; [exact Hrun|].
  intros Httl. rewrite Hrun. simpl.
  destruct (Get_inl_inv _ _ _ _ _ Hget) as (Hup & v & t & Hp & Hparse).
  exists v. erewrite Get_visible; eauto. simpl. apply lookup_insert_eq.
Qed.

(** X8.  The three variants resolve identities alike: one of them calls the
    next handler with an identity exactly when the others do, with the same
    identity; then all three leave the same world behind, the user attached
    is a row of the user table and the user ID attached is its ID. *)
Theorem Auth_variants_agree (m : AuthMiddleware.t) (users : list User.t) (now : Z)
    (r : AuthMiddleware.Request) (w : World) (user : User.t) (userID : uuid) :
  let served := fun run : M unit =>
    last (trace (run w).2) = Some (HttpServeNext (Some (user, userID))) in
  (served (AuthMiddleware.RequireAuth m users now r)
   <-> served (AuthMiddleware.RequireAuthAPI m users now r))
  /\ (served (AuthMiddleware.RequireAuthAPI m users now r)
      <-> served (AuthMiddleware.OptionalAuth m users now r))
  /\ (served (AuthMiddleware.RequireAuth m users now r) ->
      AuthMiddleware.RequireAuthAPI m users now r w = AuthMiddleware.RequireAuth m users now r w
      /\ AuthMiddleware.OptionalAuth m users now r w = AuthMiddleware.RequireAuth m users now r w
      /\ user ∈ users /\ User.ID user = userID).
Proof.
  intros served. subst served. cbv beta.
  unfold AuthMiddleware.RequireAuth, AuthMiddleware.RequireAuthAPI,
    AuthMiddleware.OptionalAuth.
  destruct (AuthMiddleware.Request_Cookie r (AuthMiddleware.cookieName m)) as [token|].
  2:{ simpl. rewrite !last_snoc. repeat split; intros; discriminate. }
  unfold mbind, M_bind.
  destruct (SessionStore.Get (AuthMiddleware.sessionStore m) now token w) as [[uid|err] w1].
  2:{ simpl. rewrite !last_snoc. repeat split; intros; discriminate. }
  unfold UserService.Get.
  destruct (find _ users) as [u|] eqn:Hf.
  - apply find_some in Hf as [Hin Heq]. apply bool_decide_eq_true in Heq.
    simpl. rewrite !last_snoc.
    repeat split; try tauto;
      match goal with
      | Hs : Some _ = Some _ |- _ => injection Hs as <- <-
      end; [apply list_elem_of_In, Hin | exact Heq].
  - destruct (SessionStore.Delete (AuthMiddleware.sessionStore m) now token w1) as [d w2].
    simpl. rewrite !last_snoc. repeat split; intros; discriminate.
Qed.

End AuthVariants.

(** ** User accounts *)

Lemma UserService_Get_member (users : list User.t) (user : User.t) :
  NoDup (User.ID <$> users) ->
  user ∈ users ->
  UserService.Get users (User.ID user) = inl user.
Proof.
  intros Hpk Hin. unfold UserService.Get.
  destruct (find _ users) as [u|] eqn:Hf.
  - apply find_some in Hf as [Hu Heq]. apply bool_decide_eq_true in Heq.
    apply list_elem_of_In in Hu.
    apply list_elem_of_lookup in Hu as [i Hi].
    apply list_elem_of_lookup in Hin as [j Hj].
    assert (i = j).
    { eapply NoDup_lookup; [exact Hpk | |].
      - rewrite list_lookup_fmap, Hi. simpl. reflexivity.
      - rewrite list_lookup_fmap, Hj. simpl. f_equal. symmetry. exact Heq. }
    subst j. congruence.
  - pose proof (proj1 (find_none_iff _ users) Hf user Hin) as Hno. simpl in Hno.
    rewrite bool_decide_eq_true_2 in Hno by reflexivity. discriminate.
Qed.

Lemma find_app_None {A} (f : A -> bool) (l : list A) (x : A) :
  find f l = None -> f x = true -> find f (l ++ [x]) = Some x.
Proof.
  induction l as [|y l IH]; simpl; intros Hn Hx.
  - rewrite Hx. reflexivity.
  - destruct (f y); [discriminate | auto].
Qed.

Lemma existsb_find_None {A} (f : A -> bool) (l : list A) :
  find f l = None -> existsb f l = false.
Proof.
  induction l as [|y l IH]; simpl; [reflexivity|].
  destruct (f y); [discriminate | auto].
Qed.

(** What [FindOrCreate] does for a valid provider and a fresh row ID. *)
Lemma FindOrCreate_ok (users : list User.t) (newid : uuid) (now : Z)
    (providerID provider email name : string) :
  Provider_IsValid provider = true ->
  NoDup (User.ID <$> users) ->
  (forall u, u ∈ users -> User.ID u <> newid) ->
  exists user users',
    UserAccounts.FindOrCreate users newid now providerID provider email name
    = (inl user, users')
    /\ user ∈ users'
    /\ User.ProviderID user = providerID
    /\ NoDup (User.ID <$> users')
    /\ find (fun u => String.eqb (User.ProviderID u) providerID) users' = Some user
    /\ (users' = users \/ (users' = users ++ [user] /\ User.ID user = newid)).
Proof.
  intros Hvalid Hpk Hfresh. unfold UserAccounts.FindOrCreate, UserAccounts.FindByProviderID.
  destruct (find _ users) as [u|] eqn:Hf.
  - exists u, users. pose proof Hf as Hf'. apply find_some in Hf' as [Hin Heq].
    apply String.eqb_eq in Heq. repeat split; auto. apply list_elem_of_In, Hin.
  - simpl. unfold UserAccounts.Create. rewrite Hvalid. simpl.
    unfold UserAccounts.insert. simpl.
    assert (Hid : existsb (fun u => bool_decide (User.ID u = newid)) users = false).
    { apply not_true_is_false. intros He. apply existsb_exists in He as (u & Hu & Hb).
      apply bool_decide_eq_true in Hb. apply (Hfresh u); [apply list_elem_of_In, Hu | exact Hb]. }
    rewrite Hid, (existsb_find_None _ _ Hf).
    eexists _, _. split; [reflexivity|].
    split; [apply elem_of_app; right; apply list_elem_of_here|].
    split; [reflexivity|].
    split.
    { rewrite fmap_app. apply NoDup_app. split; [exact Hpk|]. split.
      - intros x Hx Hx'. apply list_elem_of_singleton in Hx'. simpl in Hx'. subst x.
        apply list_elem_of_fmap in Hx as (u & Hu & Hin). apply (Hfresh u Hin). auto.
      - simpl. apply NoDup_singleton. }
    split.
    { apply find_app_None; [exact Hf|]. simpl. apply String.eqb_refl. }
    right. split; reflexivity.
Qed.

(** X9.  [FindOrCreate] is idempotent on the provider ID: once it has
    returned a user, a later call with the same provider ID returns that same
    user and leaves the table as it is, whatever provider, e-mail or name the
    later call carries. *)
Theorem FindOrCreate_idempotent (users users' : list User.t) (user : User.t)
    (newid : uuid) (now : Z) (providerID provider email name : string) :
  UserAccounts.FindOrCreate users newid now providerID provider email name
  = (inl user, users') ->
  User.ProviderID user = providerID
  /\ forall newid' now' provider' email' name',
       UserAccounts.FindOrCreate users' newid' now' providerID provider' email' name'
       = (inl user, users').
Proof.
  unfold UserAccounts.FindOrCreate, UserAccounts.FindByProviderID.
  destruct (find _ users) as [u|] eqn:Hf.
  - intros [= <- <-]. pose proof Hf as Hf'. apply find_some in Hf' as [_ Heq].
    apply String.eqb_eq in Heq. split; [exact Heq|]. intros. rewrite Hf. reflexivity.
  - simpl. unfold UserAccounts.Create.
    destruct (negb (Provider_IsValid provider)); [discriminate|].
    unfold UserAccounts.insert. simpl.
    destruct (existsb _ users); [discriminate|].
    rewrite (existsb_find_None _ _ Hf).
    intros [= <- <-]. split; [reflexivity|]. intros.
    rewrite (find_app_None _ users _ Hf); [reflexivity|]. simpl. apply String.eqb_refl.
Qed.

Lemma filter_all_false {A} (f : A -> bool) (l : list A) :
  (forall x, x ∈ l -> f x = false) -> List.filter f l = [].
Proof.
  induction l as [|y l IH]; intros Hall; simpl; [reflexivity|].
  rewrite (Hall y) by apply list_elem_of_here.
  apply IH. intros x Hx. apply Hall, list_elem_of_further, Hx.
Qed.

Section UserDelete.
Context `{Env}.

(** X10.  Deleting a user that exists removes that user's row and every
    movie and serie the user owns, and nothing else: the rows of other users
    stay, and a [List] for the deleted user finds nothing.  Deleting an ID
    without a row fails with [pgx.ErrNoRows] and changes nothing. *)
Theorem UserAccounts_Delete_cascades (users : list User.t) (movies : list Movie.t)
    (series : list Serie.t) (id : uuid) :
  let out := UserAccounts.Delete users movies series id in
  ((exists u, u ∈ users /\ User.ID u = id) ->
     out.1 = None
     /\ (forall u, u ∈ out.2.1.1 <-> u ∈ users /\ User.ID u <> id)
     /\ (forall m, m ∈ out.2.1.2 <-> m ∈ movies /\ Movie.UserID m <> id)
     /\ (forall s, s ∈ out.2.2 <-> s ∈ series /\ Serie.UserID s <> id)
     /\ (forall input,
           exists p, MovieService.List out.2.1.2 id (with_Page 1 input) = inl p
                     /\ PaginatedMovies.Results p = []
                     /\ PaginatedMovies.Count p = 0
                     /\ PaginatedMovies.TotalPages p = 0))
  /\ ((forall u, u ∈ users -> User.ID u <> id) ->
      out = (Some ErrNoRows, (users, movies, series))).
Proof.
  intros out. subst out. unfold UserAccounts.Delete. split.
  - intros (u & Hu & Hid).
    destruct (length _ =? 0)%nat eqn:Hlen.
    { apply Nat.eqb_eq, length_zero_iff_nil in Hlen.
      assert (Hin : In u (List.filter (fun u => bool_decide (User.ID u = id)) users)).
      { apply filter_In. split; [apply list_elem_of_In, Hu | apply bool_decide_eq_true_2, Hid]. }
      rewrite Hlen in Hin. destruct Hin. }
    simpl. split; [reflexivity|].
    assert (Hmem : forall (A : Type) (f : A -> uuid) (l : list A) (x : A),
               x ∈ List.filter (fun y => negb (bool_decide (f y = id))) l
               <-> x ∈ l /\ f x <> id).
    { intros A f l x. rewrite list_elem_of_In, filter_In, <- list_elem_of_In.
      rewrite negb_true_iff, bool_decide_eq_false. reflexivity. }
    split; [apply Hmem|]. split; [apply Hmem|]. split; [apply Hmem|].
    intros input. rewrite List_unfold. cbv zeta.
    assert (Hnone : matching (List.filter (fun m => negb (bool_decide (Movie.UserID m = id))) movies)
                      id (with_Page 1 input) = []).
    { unfold matching. apply filter_all_false. intros m Hm.
      apply (Hmem Movie.t Movie.UserID) in Hm as [_ Hne].
      unfold MovieService.list_where. rewrite bool_decide_eq_false_2 by exact Hne.
      reflexivity. }
    rewrite Hnone. simpl.
    unfold effective_page. simpl.
    rewrite wrap64_small by (simpl; lia). simpl.
    eexists. split; [reflexivity|]. simpl.
    split; [unfold Pg.limit_offset; rewrite skipn_nil, firstn_nil; reflexivity|].
    split; [reflexivity|].
    unfold ceil_div. pose proof (effective_limit_range (ListMoviesInput.Limit input)).
    apply Z.div_small. lia.
  - intros Hnone. rewrite filter_all_false; [reflexivity|].
    intros u Hu. apply bool_decide_eq_false_2, Hnone, Hu.
Qed.

End UserDelete.

(** ** Logging in and out *)

Section LoginLogout.
Context `{EL : EnvLaws}.

(** X11.  Login round trip: after a Google callback that obtained the user
    info, with a fresh row ID at hand and the store reachable, the response
    sets the session cookie and redirects to [/movies]; and a request that
    brings that cookie back before the TTL has passed goes through
    [RequireAuth] to the next handler as the user of that Google ID. *)
Theorem GoogleCallback_then_RequireAuth (h : AuthHandler.t) (users : list User.t)
    (newid : uuid) (now later : Z) (code sid : string) (info : AuthHandler.GoogleUserInfo)
    (r : AuthMiddleware.Request) (w : World) :
  let m := AuthHandler.authMiddleware h in
  let s := AuthHandler.sessionStore h in
  AuthMiddleware.sessionStore m = s ->
  0 < SessionStore.ttl s ->
  redis_up w = true ->
  code <> EmptyString ->
  NoDup (User.ID <$> users) ->
  (forall u, u ∈ users -> User.ID u <> newid) ->
  now <= later < now + SessionStore.ttl s ->
  AuthMiddleware.Request_Cookie r (AuthMiddleware.cookieName m) = inl sid ->
  let out := AuthHandler.GoogleCallback h users newid now code
               (AuthHandler.UserInfo info) (Some sid) w in
  exists user,
    user ∈ out.1
    /\ User.ProviderID user = AuthHandler.Google_ID info
    /\ trace out.2
       = trace w
         ++ [RedisSET (SessionStore.key sid) (uuid_String (User.ID user)) (SessionStore.ttl s);
             HttpSetCookie
               {| Cookie_Name := AuthMiddleware.cookieName m; Cookie_Value := sid;
                  Cookie_Path := "/"; Cookie_MaxAge := 604800; Cookie_HttpOnly := true;
                  Cookie_Secure := AuthMiddleware.isProduction m;
                  Cookie_SameSiteLax := true |};
             HttpRedirect "/movies" StatusSeeOther]
    /\ last (trace (AuthMiddleware.RequireAuth m out.1 later r out.2).2)
       = Some (HttpServeNext (Some (user, User.ID user))).
Proof.
  intros m s Hstore Httl Hup Hcode Hpk Hfresh Hlater Hcookie out.
  destruct (FindOrCreate_ok users newid now (AuthHandler.Google_ID info) "GOOGLE"
              (AuthHandler.Google_Email info) (AuthHandler.Google_Name info))
    as (user & users' & Hfoc & Hin & Hpid & Hpk' & _); auto.
  assert (Hset : SessionStore.Set_ s now sid (User.ID user) w
                 = (None,
                    set_strings
                      (<[SessionStore.key sid :=
                           (uuid_String (User.ID user), Some (now + SessionStore.ttl s))]>
                         (strings w))
                      (emit (RedisSET (SessionStore.key sid) (uuid_String (User.ID user))
                               (SessionStore.ttl s)) w))).
  { unfold SessionStore.Set_, Redis.SET, Redis.expiry. simpl. rewrite Hup.
    destruct (Z.ltb_spec 0 (SessionStore.ttl s)); [reflexivity | lia]. }
  assert (Hout : exists w',
             out = (users', w')
             /\ redis_up w' = true
             /\ strings w' !! SessionStore.key sid
                = Some (uuid_String (User.ID user), Some (now + SessionStore.ttl s))
             /\ trace w'
                = trace w
                  ++ [RedisSET (SessionStore.key sid) (uuid_String (User.ID user))
                        (SessionStore.ttl s);
                      HttpSetCookie
                        {| Cookie_Name := AuthMiddleware.cookieName m; Cookie_Value := sid;
                           Cookie_Path := "/"; Cookie_MaxAge := 604800;
                           Cookie_HttpOnly := true;
                           Cookie_Secure := AuthMiddleware.isProduction m;
                           Cookie_SameSiteLax := true |};
                      HttpRedirect "/movies" StatusSeeOther]).
  { subst out. unfold AuthHandler.GoogleCallback.
    destruct (String.eqb_spec code EmptyString) as [->|_]; [congruence|].
    rewrite Hfoc. simpl. unfold mbind, M_bind. fold s. rewrite Hset. simpl.
    eexists. split; [reflexivity|]. simpl. split; [exact Hup|].
    split; [apply lookup_insert_eq|]. rewrite <- !app_assoc. reflexivity. }
  destruct Hout as (w' & -> & Hup' & Hk & Htr). simpl.
  exists user. split; [exact Hin|]. split; [exact Hpid|]. split; [exact Htr|].
  unfold AuthMiddleware.RequireAuth. fold m. rewrite Hcookie. unfold mbind, M_bind.
  rewrite Hstore.
  destruct (Get_visible_state s later sid w' (uuid_String (User.ID user))
              (now + SessionStore.ttl s) (User.ID user)) as (Hr & _ & _);
    auto using uuid_Parse_String; [lia|].
  destruct (SessionStore.Get s later sid w') as [res w'']. simpl in Hr. subst res.
  rewrite (UserService_Get_member users' user Hpk' Hin). simpl.
  apply last_snoc.
Qed.

(** X12.  [Logout] deletes the session named by the cookie called "session",
    writes the clearing cookie and redirects to [/login]; afterwards that
    token opens no session, and when the middleware's cookie is the one
    called "session" a request still carrying it is redirected to [/login] by
    [RequireAuth]. *)
Theorem Logout_ends_session (h : AuthHandler.t) (now : Z) (r : AuthMiddleware.Request)
    (token : string) (w : World) :
  let m := AuthHandler.authMiddleware h in
  let s := AuthHandler.sessionStore h in
  redis_up w = true ->
  AuthMiddleware.Request_Cookie r "session" = inl token ->
  let out := (AuthHandler.Logout h now r w).2 in
  trace out
  = trace w
    ++ [RedisDEL (SessionStore.key token);
        HttpSetCookie
          {| Cookie_Name := AuthMiddleware.cookieName m; Cookie_Value := EmptyString;
             Cookie_Path := "/"; Cookie_MaxAge := -1; Cookie_HttpOnly := true;
             Cookie_Secure := AuthMiddleware.isProduction m; Cookie_SameSiteLax := true |};
        HttpRedirect "/login" StatusSeeOther]
  /\ strings out !! SessionStore.key token = None
  /\ (forall later, (SessionStore.Get s later token out).1 = inr (Errorf "session not found"))
  /\ (AuthMiddleware.cookieName m = "session" ->
      AuthMiddleware.sessionStore m = s ->
      forall users later,
        last (trace (AuthMiddleware.RequireAuth m users later r out).2)
        = Some (HttpRedirect "/login" StatusSeeOther)).
Proof.
  intros m s Hup Hcookie out.
  destruct (Delete_strings s now token w Hup) as (Htr & Hgone & Hup1).
  assert (Hout : trace out
                 = trace (SessionStore.Delete s now token w).2
                   ++ [HttpSetCookie
                         {| Cookie_Name := AuthMiddleware.cookieName m;
                            Cookie_Value := EmptyString;
                            Cookie_Path := "/"; Cookie_MaxAge := -1; Cookie_HttpOnly := true;
                            Cookie_Secure := AuthMiddleware.isProduction m;
                            Cookie_SameSiteLax := true |};
                       HttpRedirect "/login" StatusSeeOther]
                 /\ strings out = strings (SessionStore.Delete s now token w).2
                 /\ redis_up out = redis_up (SessionStore.Delete s now token w).2).
  { subst out. unfold AuthHandler.Logout. rewrite Hcookie. unfold mbind, M_bind. fold s.
    destruct (SessionStore.Delete s now token w) as [d w1]. simpl.
    rewrite <- !app_assoc. auto. }
  destruct Hout as (Htr' & Hstr & Hupo).
  assert (Hget : forall later,
             SessionStore.Get s later token out
             = (inr (Errorf "session not found"), emit (RedisGET (SessionStore.key token)) out)).
  { intros later. apply Get_invisible; [congruence|]. apply peek_None. congruence. }
  split; [rewrite Htr', Htr, <- app_assoc; reflexivity|].
  split; [congruence|].
  split; [intros later; rewrite Hget; reflexivity|].
  intros Hname Hstore users later.
  unfold AuthMiddleware.RequireAuth. fold m. rewrite Hname, Hcookie. unfold mbind, M_bind.
  rewrite Hstore, Hget. simpl. apply last_snoc.
Qed.

End LoginLogout.

(** ** The movie service: constraints, round trips, deletion, ownership of writes *)

Lemma NoDup_fmap_filter {A B} (f : A -> B) (p : A -> bool) (l : list A) :
  NoDup (f <$> l) -> NoDup (f <$> List.filter p l).
Proof.
  induction l as [|x l IH]; [auto|].
  rewrite fmap_cons. intros Hnd. apply NoDup_cons in Hnd as [Hx Hl].
  simpl. destruct (p x); [|auto].
  rewrite fmap_cons. apply NoDup_cons. split; [|auto].
  intros Hin. apply Hx.
  apply list_elem_of_fmap in Hin as (y & -> & Hy).
  apply list_elem_of_In, filter_In in Hy as [Hy _].
  apply list_elem_of_fmap_2, list_elem_of_In, Hy.
Qed.

Lemma fmap_map_same {A B} (f : A -> B) (g : A -> A) (l : list A) :
  (forall x, f (g x) = f x) -> f <$> map g l = f <$> l.
Proof.
  intros Hfg. induction l as [|x l IH]; [reflexivity|].
  change (map g (x :: l)) with (g x :: map g l).
  rewrite !fmap_cons, Hfg, IH. reflexivity.
Qed.

Lemma existsb_false_elem {A} (f : A -> bool) (l : list A) (x : A) :
  existsb f l = false -> x ∈ l -> f x = false.
Proof.
  intros He Hx. apply not_true_is_false. intros Hf.
  rewrite (existsb_elem f l x Hx Hf) in He. discriminate.
Qed.

Section LibraryWrites.
Context `{Env}.

(** What a successful [Create] has checked and done. *)
Lemma Create_inl_inv (users : list User.t) (tbl tbl' : list Movie.t) (newid : uuid)
    (now : Z) (userID : uuid) (input : CreateMovieInput.t) (movie : Movie.t) :
  MovieService.Create users tbl newid now userID input = (inl movie, tbl') ->
  tbl' = tbl ++ [movie]
  /\ Movie.ID movie = newid
  /\ Movie.UserID movie = userID
  /\ Movie.TmdbID movie = CreateMovieInput.TmdbID input
  /\ (forall m, m ∈ tbl -> Movie.ID m <> newid)
  /\ (forall m, m ∈ tbl ->
        (Movie.TmdbID m, Movie.UserID m) <> (CreateMovieInput.TmdbID input, userID))
  /\ Pg.user_exists users userID = true.
Proof.
  unfold MovieService.Create, MovieService.insert. simpl.
  destruct (existsb _ tbl) eqn:He1; [discriminate|].
  match goal with
  | |- context [existsb ?f tbl] => destruct (existsb f tbl) eqn:He2
  end; [discriminate|].
  destruct (Pg.user_exists users userID) eqn:Hfk; [|discriminate].
  simpl. intros [= <- <-]. simpl. repeat split.
  - intros m Hm Hid. pose proof (existsb_false_elem _ _ m He1 Hm) as Hno. simpl in Hno.
    rewrite bool_decide_eq_true_2 in Hno by exact Hid. discriminate.
  - intros m Hm [= Ht Hu]. pose proof (existsb_false_elem _ _ m He2 Hm) as Hno. simpl in Hno.
    rewrite !bool_decide_eq_true_2 in Hno by assumption. discriminate.
Qed.

(** A failed [Create] leaves the table as it was. *)
Lemma Create_inr_inv (users : list User.t) (tbl tbl' : list Movie.t) (newid : uuid)
    (now : Z) (userID : uuid) (input : CreateMovieInput.t) (err : error) :
  MovieService.Create users tbl newid now userID input = (inr err, tbl') -> tbl' = tbl.
Proof.
  unfold MovieService.Create, MovieService.insert. simpl.
  destruct (existsb _ tbl); [intros [= _ <-]; reflexivity|].
  match goal with
  | |- context [existsb ?f tbl] => destruct (existsb f tbl)
  end; [intros [= _ <-]; reflexivity|].
  destruct (negb (Pg.user_exists users userID)); [intros [= _ <-]; reflexivity|].
  discriminate.
Qed.

(** X13.  The constraints of the table are kept by every write of the
    service: after any [Create], [Update] or [Delete], successful or not, row
    IDs are still unique, no user holds a tmdbId twice and every owner is
    still a user. *)
Theorem MovieService_keeps_constraints (users : list User.t) (tbl : list Movie.t)
    (newid : uuid) (now : Z) (userID id : uuid) (ci : CreateMovieInput.t)
    (ui : UpdateMovieInput.t) :
  table_ok users tbl ->
  table_ok users (MovieService.Create users tbl newid now userID ci).2
  /\ table_ok users (MovieService.Update tbl now userID ui).2
  /\ table_ok users (MovieService.Delete tbl id userID).2.
Proof.
  intros (Hpk & Huq & Hfk). split; [|split].
  - destruct (MovieService.Create users tbl newid now userID ci) as [[movie|err] tbl'] eqn:Hc.
    + apply Create_inl_inv in Hc as (-> & Hid & Hu & Ht & Hfresh & Hpair & Hex). simpl.
      unfold table_ok. rewrite !fmap_app. simpl. split; [|split].
      * apply NoDup_app. split; [exact Hpk|]. split; [|apply NoDup_singleton].
        intros x Hx Hx'. apply list_elem_of_singleton in Hx'. subst x.
        apply list_elem_of_fmap in Hx as (m & Hm & Hin). apply (Hfresh m Hin). congruence.
      * apply NoDup_app. split; [exact Huq|]. split; [|apply NoDup_singleton].
        intros x Hx Hx'. apply list_elem_of_singleton in Hx'. subst x.
        apply list_elem_of_fmap in Hx as (m & Hm & Hin). apply (Hpair m Hin). congruence.
      * intros m Hm. apply elem_of_app in Hm as [Hm|Hm]; [auto|].
        apply list_elem_of_singleton in Hm. subst m. congruence.
    + apply Create_inr_inv in Hc as ->. simpl. unfold table_ok. auto.
  - assert (Htbl : (MovieService.Update tbl now userID ui).2
                   = map (fun m => if MovieService.owned (UpdateMovieInput.ID ui) userID m
                                   then MovieService.assign now ui m else m) tbl).
    { unfold MovieService.Update. destruct (find _ tbl); reflexivity. }
    rewrite Htbl. unfold table_ok.
    rewrite !fmap_map_same by (intros x; destruct (MovieService.owned _ _ x); reflexivity).
    split; [exact Hpk|]. split; [exact Huq|].
    intros m Hm. apply list_elem_of_In, in_map_iff in Hm as (x & <- & Hx).
    apply list_elem_of_In in Hx.
    destruct (MovieService.owned _ _ x); [simpl|]; auto.
  - assert (Htbl : (MovieService.Delete tbl id userID).2
                   = List.filter (fun m => negb (MovieService.owned id userID m)) tbl).
    { unfold MovieService.Delete. destruct (_ =? _)%nat; reflexivity. }
    rewrite Htbl. unfold table_ok.
    split; [apply NoDup_fmap_filter, Hpk|]. split; [apply NoDup_fmap_filter, Huq|].
    intros m Hm. apply list_elem_of_In, filter_In in Hm as [Hm _].
    apply Hfk, list_elem_of_In, Hm.
Qed.


(** X15.  A date text is never a reason to fail: with a text that does not
    parse, or with the empty text, [Create] does exactly what it does with no
    date at all, and the row is stored without a date. *)
Theorem MovieService_Create_ignores_bad_date (users : list User.t) (tbl : list Movie.t)
    (newid : uuid) (now : Z) (userID : uuid) (input : CreateMovieInput.t) (d : string) :
  d = EmptyString \/ time_Parse d = None ->
  MovieService.Create users tbl newid now userID (with_ReleaseDate (Some d) input)
  = MovieService.Create users tbl newid now userID (with_ReleaseDate None input)
  /\ forall movie tbl',
       MovieService.Create users tbl newid now userID (with_ReleaseDate (Some d) input)
       = (inl movie, tbl') ->
       Movie.ReleaseDate movie = None.
Proof.
  intros Hd.
  assert (Hdate : (if String.eqb d EmptyString then None
                   else match time_Parse d with
                        | Some parsedDate => Some parsedDate
                        | None => None
                        end) = @None Z).
  { destruct Hd as [->|Hp]; [reflexivity|]. rewrite Hp. destruct (String.eqb d _); reflexivity. }
  assert (Heq : MovieService.Create users tbl newid now userID (with_ReleaseDate (Some d) input)
                = MovieService.Create users tbl newid now userID
                    (with_ReleaseDate None input)).
  { unfold MovieService.Create. simpl. rewrite Hdate. reflexivity. }
  split; [exact Heq|].
  intros movie tbl'. rewrite Heq. unfold MovieService.Create, MovieService.insert. simpl.
  destruct (existsb _ tbl); [discriminate|].
  match goal with
  | |- context [existsb ?f tbl] => destruct (existsb f tbl)
  end; [discriminate|].
  destruct (negb (Pg.user_exists users userID)); [discriminate|].
  intros [= <- _]. reflexivity.
Qed.

Lemma filter_owned_unique (tbl : list Movie.t) (m : Movie.t) :
  NoDup (Movie.ID <$> tbl) ->
  m ∈ tbl ->
  List.filter (MovieService.owned (Movie.ID m) (Movie.UserID m)) tbl = [m].
Proof.
  assert (Hself : MovieService.owned (Movie.ID m) (Movie.UserID m) m = true).
  { unfold MovieService.owned. rewrite !bool_decide_eq_true_2; reflexivity. }
  assert (Hid : forall x, Movie.ID x <> Movie.ID m ->
                          MovieService.owned (Movie.ID m) (Movie.UserID m) x = false).
  { intros x Hne. unfold MovieService.owned. rewrite bool_decide_eq_false_2; auto. }
  induction tbl as [|x tbl IH]; intros Hpk Hm; [inversion Hm|].
  rewrite fmap_cons in Hpk. apply NoDup_cons in Hpk as [Hx Hpk].
  simpl. apply elem_of_cons in Hm as [->|Hm].
  - rewrite Hself. f_equal. apply filter_all_false. intros y Hy. apply Hid.
    intros Heq. apply Hx. rewrite <- Heq. apply list_elem_of_fmap_2, Hy.
  - rewrite Hid; [auto|]. intros Heq. apply Hx. rewrite Heq.
    apply list_elem_of_fmap_2, Hm.
Qed.

End LibraryWrites.

Lemma filter_length_split {A} (p : A -> bool) (l : list A) :
  (length (List.filter p l) + length (List.filter (fun x => negb (p x)) l) = length l)%nat.
Proof.
  induction l as [|x l IH]; simpl; [reflexivity|].
  destruct (p x); simpl; lia.
Qed.

Section LibraryDelete.
Context `{Env}.

(** X16.  [Delete] of a row by its owner removes that row and no other: the
    table is one row shorter and holds exactly the other rows; a second
    [Delete] fails with [pgx.ErrNoRows] and changes nothing; the handler
    answers 204 the first time and 404 the second. *)
Theorem MovieService_Delete_once (tbl : list Movie.t) (m : Movie.t)
    (r : MovieHandler.Request unit) :
  NoDup (Movie.ID <$> tbl) ->
  m ∈ tbl ->
  MovieHandler.UserIDFromContext r = Some (Movie.UserID m) ->
  uuid_Parse (MovieHandler.PathValue_id r) = Some (Movie.ID m) ->
  let tbl' := (MovieService.Delete tbl (Movie.ID m) (Movie.UserID m)).2 in
  (MovieService.Delete tbl (Movie.ID m) (Movie.UserID m)).1 = None
  /\ S (length tbl') = length tbl
  /\ (forall x, x ∈ tbl' <-> x ∈ tbl /\ x <> m)
  /\ MovieService.Delete tbl' (Movie.ID m) (Movie.UserID m) = (Some ErrNoRows, tbl')
  /\ MovieHandler.Delete tbl r
     = ({| MovieHandler.Status := StatusNoContent; MovieHandler.Written := MovieHandler.NoBody |},
        tbl')
  /\ MovieHandler.Delete tbl' r
     = (MovieHandler.http_Error (json_error "Movie not found") StatusNotFound, tbl').
Proof.
  intros Hpk Hm Hctx Hid tbl'.
  pose proof (filter_owned_unique tbl m Hpk Hm) as Hone.
  assert (Hdel : MovieService.Delete tbl (Movie.ID m) (Movie.UserID m)
                 = (None, List.filter
                            (fun x => negb (MovieService.owned (Movie.ID m) (Movie.UserID m) x))
                            tbl)).
  { unfold MovieService.Delete. rewrite Hone. reflexivity. }
  assert (Htbl : tbl' = List.filter
                          (fun x => negb (MovieService.owned (Movie.ID m) (Movie.UserID m) x))
                          tbl) by (subst tbl'; rewrite Hdel; reflexivity).
  assert (Hmem : forall x, x ∈ tbl' <-> x ∈ tbl /\ x <> m).
  { intros x. rewrite Htbl, list_elem_of_In, filter_In, <- list_elem_of_In, negb_true_iff.
    split; intros [Hx Hno]; (split; [exact Hx|]).
    - intros ->. unfold MovieService.owned in Hno.
      rewrite !bool_decide_eq_true_2 in Hno by reflexivity. discriminate.
    - destruct (MovieService.owned (Movie.ID m) (Movie.UserID m) x) eqn:Ho; [|reflexivity].
      exfalso. apply Hno.
      assert (Hx' : In x (List.filter (MovieService.owned (Movie.ID m) (Movie.UserID m)) tbl)).
      { apply filter_In. split; [apply list_elem_of_In, Hx | exact Ho]. }
      rewrite Hone in Hx'. destruct Hx' as [->|[]]. reflexivity. }
  assert (Hnone : forall x, x ∈ tbl' ->
                            MovieService.owned (Movie.ID m) (Movie.UserID m) x = false).
  { intros x Hx. rewrite Htbl in Hx. apply list_elem_of_In, filter_In in Hx as [_ Hx].
    apply negb_true_iff in Hx. exact Hx. }
  assert (Hagain : MovieService.Delete tbl' (Movie.ID m) (Movie.UserID m)
                   = (Some ErrNoRows, tbl')).
  { unfold MovieService.Delete. rewrite (filter_all_false _ tbl' Hnone). simpl.
    f_equal. clear -Hnone. induction tbl' as [|x l IH]; simpl; [reflexivity|].
    rewrite (Hnone x) by apply list_elem_of_here. simpl. f_equal.
    apply IH. intros y Hy. apply Hnone, list_elem_of_further, Hy. }
  split; [rewrite Hdel; reflexivity|].
  split.
  { pose proof (filter_length_split (MovieService.owned (Movie.ID m) (Movie.UserID m)) tbl)
      as Hlen.
    rewrite Hone in Hlen. simpl in Hlen. rewrite Htbl. lia. }
  split; [exact Hmem|]. split; [exact Hagain|]. split.
  - unfold MovieHandler.Delete. rewrite Hctx, Hid, Hdel, <- Htbl. reflexivity.
  - unfold MovieHandler.Delete. rewrite Hctx, Hid, Hagain. reflexivity.
Qed.

(** X17.  A user's writes stay within the user's own rows: whatever [Create],
    [Update] or [Delete] a user makes, with whatever item ID and input, the
    rows of all other users are afterwards the same rows in the same order. *)
Theorem MovieService_writes_keep_others (users : list User.t) (tbl : list Movie.t)
    (newid : uuid) (now : Z) (userID id : uuid) (ci : CreateMovieInput.t)
    (ui : UpdateMovieInput.t) :
  others userID (MovieService.Create users tbl newid now userID ci).2 = others userID tbl
  /\ others userID (MovieService.Update tbl now userID ui).2 = others userID tbl
  /\ others userID (MovieService.Delete tbl id userID).2 = others userID tbl.
Proof.
  split; [|split].
  - destruct (MovieService.Create users tbl newid now userID ci) as [[movie|err] tbl'] eqn:Hc.
    + apply Create_inl_inv in Hc as (-> & _ & Hu & _). simpl.
      unfold others. rewrite List.filter_app. simpl.
      rewrite bool_decide_eq_true_2 by exact Hu. simpl. apply app_nil_r.
    + apply Create_inr_inv in Hc as ->. reflexivity.
  - assert (Htbl : (MovieService.Update tbl now userID ui).2
                   = map (fun m => if MovieService.owned (UpdateMovieInput.ID ui) userID m
                                   then MovieService.assign now ui m else m) tbl).
    { unfold MovieService.Update. destruct (find _ tbl); reflexivity. }
    rewrite Htbl. clear Htbl. unfold others.
    induction tbl as [|x tbl IH]; simpl; [reflexivity|].
    destruct (MovieService.owned (UpdateMovieInput.ID ui) userID x) eqn:Ho.
    + unfold MovieService.owned in Ho. apply andb_prop in Ho as [_ Hu].
      apply bool_decide_eq_true in Hu. simpl.
      rewrite !bool_decide_eq_true_2 by exact Hu. simpl. exact IH.
    + destruct (negb (bool_decide (Movie.UserID x = userID))); rewrite IH; reflexivity.
  - assert (Htbl : (MovieService.Delete tbl id userID).2
                   = List.filter (fun m => negb (MovieService.owned id userID m)) tbl).
    { unfold MovieService.Delete. destruct (_ =? _)%nat; reflexivity. }
    rewrite Htbl. clear Htbl. unfold others.
    induction tbl as [|x tbl IH]; simpl; [reflexivity|].
    destruct (MovieService.owned id userID x) eqn:Ho; simpl.
    + unfold MovieService.owned in Ho. apply andb_prop in Ho as [_ Hu].
      apply bool_decide_eq_true in Hu.
      rewrite bool_decide_eq_true_2 by exact Hu. simpl. exact IH.
    + destruct (negb (bool_decide (Movie.UserID x = userID))); rewrite IH; reflexivity.
Qed.

End LibraryDelete.

(** ** The movie service: order and pages of [List] *)

Lemma insert_desc_sorted {A} (key : A -> Z) (x : A) (l : list A) :
  StronglySorted (fun a b => key b <= key a) l ->
  StronglySorted (fun a b => key b <= key a) (Pg.insert_desc key x l).
Proof.
  induction l as [|y l IH]; simpl; intros Hs.
  - repeat constructor.
  - apply StronglySorted_inv in Hs as [Hs Hy].
    destruct (Z.leb_spec (key y) (key x)).
    + constructor; [constructor; assumption|].
      constructor; [assumption|].
      eapply Forall_impl; [exact Hy|]. simpl. intros. lia.
    + constructor; [auto|].
      apply Forall_forall. intros z Hz. apply insert_desc_elem in Hz as [->|Hz]; [lia|].
      rewrite Forall_forall in Hy. apply Hy, Hz.
Qed.

Lemma order_by_desc_sorted {A} (key : A -> Z) (l : list A) :
  StronglySorted (fun a b => key b <= key a) (Pg.order_by_desc key l).
Proof.
  unfold Pg.order_by_desc. induction l as [|x l IH]; simpl; [constructor|].
  apply insert_desc_sorted, IH.
Qed.

Lemma StronglySorted_drop {A} (R : A -> A -> Prop) (n : nat) (l : list A) :
  StronglySorted R l -> StronglySorted R (drop n l).
Proof.
  revert l. induction n as [|n IH]; intros l Hs; [exact Hs|].
  destruct l as [|x l]; [exact Hs|]. simpl. apply IH.
  apply StronglySorted_inv in Hs as [Hs _]. exact Hs.
Qed.

Lemma StronglySorted_take {A} (R : A -> A -> Prop) (n : nat) (l : list A) :
  StronglySorted R l -> StronglySorted R (take n l).
Proof.
  revert l. induction n as [|n IH]; intros l Hs; [constructor|].
  destruct l as [|x l]; [constructor|]. simpl.
  apply StronglySorted_inv in Hs as [Hs Hx].
  constructor; [auto|].
  apply Forall_forall. intros y Hy. rewrite Forall_forall in Hx.
  apply Hx. apply (subseteq_take n l), Hy.
Qed.

Lemma insert_desc_length {A} (key : A -> Z) (x : A) (l : list A) :
  length (Pg.insert_desc key x l) = S (length l).
Proof.
  induction l as [|y l IH]; simpl; [reflexivity|].
  destruct (key y <=? key x); simpl; [reflexivity | rewrite IH; reflexivity].
Qed.

Lemma order_by_desc_length {A} (key : A -> Z) (l : list A) :
  length (Pg.order_by_desc key l) = length l.
Proof.
  unfold Pg.order_by_desc. induction l as [|x l IH]; simpl; [reflexivity|].
  rewrite insert_desc_length, IH. reflexivity.
Qed.


Section LibraryList.
Context `{Env}.

(** X18.  What [List] returns is a page of the caller's matching rows: at
    most as many rows as the limit in force, each of them a row of the table
    owned by the caller with the watched flag asked for and, when a query
    text is given, a title matching it; and they come rated by the catalog
    from highest to lowest. *)
Theorem MovieService_List_page (tbl : list Movie.t) (userID : uuid)
    (input : ListMoviesInput.t) (p : PaginatedMovies.t) :
  MovieService.List tbl userID input = inl p ->
  Z.of_nat (length (PaginatedMovies.Results p))
  <= effective_limit (ListMoviesInput.Limit input)
  /\ by_rating (PaginatedMovies.Results p)
  /\ PaginatedMovies.Page p = effective_page (ListMoviesInput.Page input)
  /\ forall x, x ∈ PaginatedMovies.Results p ->
       x ∈ tbl
       /\ Movie.UserID x = userID
       /\ Movie.Watched x = ListMoviesInput.Watched input
       /\ (ListMoviesInput.Query input <> EmptyString ->
           ilike (Movie.Title x) ("%" +:+ ListMoviesInput.Query input +:+ "%") = true).
Proof.
  rewrite List_unfold. cbv zeta.
  destruct (_ <? 0); [discriminate|]. intros [= <-]. simpl.
  pose proof (effective_limit_range (ListMoviesInput.Limit input)) as Hlim.
  split.
  { unfold Pg.limit_offset. rewrite length_take. lia. }
  split.
  { unfold by_rating, Pg.limit_offset.
    apply StronglySorted_take, StronglySorted_drop, order_by_desc_sorted. }
  split; [reflexivity|].
  intros x Hx. apply limit_offset_elem, order_by_desc_elem in Hx.
  unfold matching in Hx. apply list_elem_of_In, filter_In in Hx as [Hin Hw].
  unfold MovieService.list_where in Hw.
  apply andb_prop in Hw as [Hw Hq]. apply andb_prop in Hw as [Hu Hwatched].
  apply bool_decide_eq_true in Hu. apply Bool.eqb_prop in Hwatched.
  split; [apply list_elem_of_In, Hin|]. split; [exact Hu|]. split; [exact Hwatched|].
  intros Hne. destruct (String.eqb_spec (ListMoviesInput.Query input) EmptyString);
    [contradiction | exact Hq].
Qed.



(** X20.  A page past the last one is not an error: [List] answers with no
    rows, the same count and the same number of pages as for page 1. *)
Theorem MovieService_List_past_the_end (tbl : list Movie.t) (userID : uuid)
    (input : ListMoviesInput.t) (p : PaginatedMovies.t) :
  ListMoviesInput.Page input < 2 ^ 56 ->
  MovieService.List tbl userID input = inl p ->
  PaginatedMovies.TotalPages p < ListMoviesInput.Page input ->
  PaginatedMovies.Results p = []
  /\ PaginatedMovies.Count p = Z.of_nat (length (matching tbl userID input))
  /\ exists q, MovieService.List tbl userID (with_Page 1 input) = inl q
               /\ PaginatedMovies.Count q = PaginatedMovies.Count p
               /\ PaginatedMovies.TotalPages q = PaginatedMovies.TotalPages p.
Proof.
  intros Hsmall. rewrite !List_unfold. cbv zeta.
  change (ListMoviesInput.Limit (with_Page 1 input)) with (ListMoviesInput.Limit input).
  change (ListMoviesInput.Page (with_Page 1 input)) with 1.
  change (matching tbl userID (with_Page 1 input)) with (matching tbl userID input).
  pose proof (effective_limit_range (ListMoviesInput.Limit input)) as Hlim.
  set (L := effective_limit (ListMoviesInput.Limit input)) in *.
  set (total := Z.of_nat (length (matching tbl userID input))).
  destruct (wrap64 ((effective_page (ListMoviesInput.Page input) - 1) * L) <? 0);
    [discriminate|].
  intros [= <-]. simpl. intros Hpast.
  pose proof (ceil_div_spec total L ltac:(lia)) as Hceil.
  assert (Hnn : 0 <= total) by (subst total; lia).
  assert (Hpage : effective_page (ListMoviesInput.Page input) = ListMoviesInput.Page input).
  { unfold effective_page. case_decide; [reflexivity | nia]. }
  split.
  { unfold Pg.limit_offset. rewrite drop_ge; [apply take_nil|].
    rewrite order_by_desc_length, Hpage.
    rewrite wrap64_small.
    2:{ split; [nia|].
        assert ((ListMoviesInput.Page input - 1) * L < 2 ^ 56 * 100) by nia.
        assert (2 ^ 56 * 100 < 2 ^ 63) by reflexivity. lia. }
    assert (total <= (ListMoviesInput.Page input - 1) * L) by nia.
    subst total. lia. }
  split; [reflexivity|].
  assert (Hone : effective_page 1 = 1) by reflexivity.
  rewrite Hone. replace ((1 - 1) * L) with 0 by lia.
  change (wrap64 0 <? 0) with false. cbv iota. eexists. split; [reflexivity|]. auto.
Qed.

End LibraryList.

(** ** RateLimiter: what a window holds *)

Lemma ratelimit_key_inj (a b : string) : RateLimiter.key a = RateLimiter.key b -> a = b.
Proof. unfold RateLimiter.key. simpl. intros Heq. injection Heq. auto. Qed.

Lemma zstore_lookup (key : string) (z : gmap string Z) (t : option Z) (w : World) :
  z <> ∅ -> zsets (Redis.zstore key z t w) !! key = Some (z, t).
Proof.
  intros Hne. unfold Redis.zstore. destruct (decide (z = ∅)); [contradiction|].
  simpl. apply lookup_insert_eq.
Qed.

Lemma zstore_other (key other : string) (z : gmap string Z) (t : option Z) (w : World) :
  key <> other ->
  zsets (Redis.zstore key z t w) !! other = zsets w !! other
  /\ redis_up (Redis.zstore key z t w) = redis_up w.
Proof.
  intros Hne. unfold Redis.zstore. destruct (decide (z = ∅)); simpl.
  - rewrite lookup_delete_ne by exact Hne. auto.
  - rewrite lookup_insert_ne by exact Hne. auto.
Qed.

Lemma zstore_up (key : string) (z : gmap string Z) (t : option Z) (w : World) :
  redis_up (Redis.zstore key z t w) = redis_up w.
Proof. unfold Redis.zstore. destruct (decide (z = ∅)); reflexivity. Qed.

Lemma insert_nonempty (m : string) (s : Z) (z : gmap string Z) : <[m := s]> z <> ∅.
Proof.
  intros He. apply (f_equal (fun x => x !! m)) in He.
  rewrite lookup_insert_eq, lookup_empty in He. discriminate.
Qed.

(** The state a check leaves, in production, on a reachable store. *)
Lemma check_step (rl : RateLimiter.t) (now : Z) (identifier : string) (w : World) :
  RateLimiter.isProduction rl = true ->
  redis_up w = true ->
  0 < RateLimiter.window rl ->
  let key := RateLimiter.key identifier in
  let kept :=
    filter (fun kv : string * Z =>
              negb ((0 <=? kv.2) && (kv.2 <=? now - RateLimiter.window rl)) = true)
      (Redis.zpeek now w key) in
  exists w',
    RateLimiter.checkRateLimit rl now identifier w
    = ((Z.of_nat (size kept) <? RateLimiter.maxRequests rl, None), w')
    /\ redis_up w' = true
    /\ zsets w' !! key = Some (<[pretty now := now]> kept, Some (now + RateLimiter.window rl)).
Proof.
  intros Hprod Hup Hwin key kept.
  unfold RateLimiter.checkRateLimit. rewrite Hprod. simpl. rewrite Hup. fold key.
  set (w0 := emit _ (emit _ (emit _ (emit _ w)))).
  set (w1 := Redis.ZREMRANGEBYSCORE now key 0 (now - RateLimiter.window rl) w0).
  assert (H1 : Redis.zpeek now w1 key = kept).
  { subst w1. unfold Redis.ZREMRANGEBYSCORE. rewrite zpeek_zstore by apply live_zexpiry.
    reflexivity. }
  assert (Hup1 : redis_up w1 = true).
  { subst w1. unfold Redis.ZREMRANGEBYSCORE. rewrite zstore_up. exact Hup. }
  eexists. split.
  { unfold Redis.ZCARD. rewrite H1. reflexivity. }
  set (w2 := Redis.ZADD now key now (pretty now) w1).
  assert (H2 : Redis.peek now (zsets w2) key
               = Some (<[pretty now := now]> kept, Redis.zexpiry now w1 key)).
  { subst w2. unfold Redis.ZADD. rewrite H1. unfold Redis.peek.
    rewrite zstore_lookup by apply insert_nonempty. rewrite live_zexpiry. reflexivity. }
  assert (Hup2 : redis_up w2 = true).
  { subst w2. unfold Redis.ZADD. rewrite zstore_up. exact Hup1. }
  unfold Redis.ZEXPIRE. rewrite H2.
  destruct (Z.ltb_spec 0 (RateLimiter.window rl)); [|lia].
  simpl. split; [exact Hup2|]. apply lookup_insert_eq.
Qed.

(** A window whose members are stamped within a range of [n] seconds has at
    most [n] members. *)
Lemma stamped_size (z : gmap string Z) (a n : Z) :
  0 <= n ->
  (forall m s, z !! m = Some s -> m = pretty s /\ a < s <= a + n) ->
  Z.of_nat (size z) <= n.
Proof.
  intros Hn Hst.
  assert (Hl : forall l : list (string * Z),
             NoDup l.*1 ->
             (forall m s, (m, s) ∈ l -> m = pretty s /\ a < s <= a + n) ->
             Z.of_nat (length l) <= n).
  { intros l Hnd Hall.
    assert (Hkeys : l.*1 = pretty <$> l.*2).
    { clear Hnd. induction l as [|[m s] l IH]; [reflexivity|].
      rewrite !fmap_cons. simpl. f_equal.
      - apply (Hall m s), list_elem_of_here.
      - apply IH. intros m' s' Hin. apply Hall, list_elem_of_further, Hin. }
    rewrite Hkeys in Hnd. apply NoDup_fmap_1 in Hnd.
    assert (Hsub : l.*2 ⊆+ seqZ (a + 1) n).
    { apply NoDup_submseteq; [exact Hnd|]. intros s Hs.
      apply list_elem_of_fmap in Hs as ([m s'] & -> & Hin). simpl.
      apply elem_of_seqZ. destruct (Hall m s' Hin) as [_ Hr]. lia. }
    apply submseteq_length in Hsub. rewrite length_fmap, length_seqZ in Hsub. lia. }
  rewrite <- length_map_to_list. apply Hl.
  - apply NoDup_fst_map_to_list.
  - intros m s Hin. apply elem_of_map_to_list in Hin. auto.
Qed.

Lemma stamped_zpeek (now : Z) (w : World) (key : string) (lo hi : Z) :
  (forall z t, zsets w !! key = Some (z, t) -> stamped z lo hi) ->
  stamped (Redis.zpeek now w key) lo hi.
Proof.
  intros Hraw. unfold Redis.zpeek, Redis.peek.
  destruct (zsets w !! key) as [[z t]|] eqn:Hk.
  - destruct (Redis.live now (z, t)); [eauto|]. intros m s Hm. rewrite lookup_empty in Hm.
    discriminate.
  - intros m s Hm. rewrite lookup_empty in Hm. discriminate.
Qed.

Lemma checks_ascending (rl : RateLimiter.t) (identifier : string) (times : list Z) :
  RateLimiter.isProduction rl = true ->
  0 < RateLimiter.window rl < RateLimiter.maxRequests rl ->
  forall (last : Z) (w : World),
    0 <= last ->
    redis_up w = true ->
    (forall z t, zsets w !! RateLimiter.key identifier = Some (z, t) -> stamped z 0 last) ->
    ascending last times ->
    (checks rl identifier times w).1 = replicate (length times) (true, None).
Proof.
  intros Hprod Hwin. induction times as [|now times IH]; intros last w Hlast Hup Hraw Hasc;
    [reflexivity|].
  destruct Hasc as [Hnow Hasc]. simpl.
  destruct (check_step rl now identifier w Hprod Hup ltac:(lia)) as (w' & Hrun & Hup' & Hk').
  cbv zeta in Hrun, Hk'.
  set (kept := filter _ (Redis.zpeek now w (RateLimiter.key identifier))) in *.
  assert (Hkept : forall m s, kept !! m = Some s ->
                    m = pretty s /\ now - RateLimiter.window rl < s <= now /\ 0 <= s).
  { intros m s Hm. subst kept. apply map_lookup_filter_Some in Hm as [Hm Hkeep].
    simpl in Hkeep.
    destruct (stamped_zpeek now w _ 0 last Hraw m s Hm) as [-> Hr]. split; [reflexivity|].
    apply negb_true_iff, andb_false_iff in Hkeep as [Hk|Hk];
      [apply Z.leb_gt in Hk | apply Z.leb_gt in Hk]; lia. }
  clear Hraw.
  assert (Hsize : Z.of_nat (size kept) <= RateLimiter.window rl).
  { apply (stamped_size kept (now - RateLimiter.window rl)); [lia|].
    intros m s Hm. destruct (Hkept m s Hm) as (? & ? & ?). split; [assumption | lia]. }
  rewrite Hrun.
  specialize (IH now w' ltac:(lia) Hup').
  destruct (checks rl identifier times w') as [rs w'']. simpl in *.
  rewrite IH; [| |exact Hasc].
  - destruct (Z.ltb_spec (Z.of_nat (size kept)) (RateLimiter.maxRequests rl)); [reflexivity|lia].
  - intros z t Hz. rewrite Hk' in Hz. injection Hz as <- <-.
    intros m s Hm. destruct (decide (m = pretty now)) as [->|Hne].
    + rewrite lookup_insert_eq in Hm. injection Hm as <-. split; [reflexivity | lia].
    + rewrite lookup_insert_ne in Hm by congruence.
      destruct (Hkept m s Hm) as (? & ? & ?). split; [assumption | lia].
Qed.

(** X21.  A window no longer than the limit never rejects: in production,
    when the window lasts fewer seconds than the limit counts requests, every
    check of an identifier is allowed, however many are made and however
    close together, as long as the clock does not go back.  This is the case
    of the limiter [main] builds (100 requests, 60 seconds). *)
Theorem RateLimiter_short_window_never_rejects (rl : RateLimiter.t) (identifier : string)
    (times : list Z) (w : World) :
  RateLimiter.isProduction rl = true ->
  0 < RateLimiter.window rl < RateLimiter.maxRequests rl ->
  redis_up w = true ->
  zsets w !! RateLimiter.key identifier = None ->
  ascending 0 times ->
  (checks rl identifier times w).1 = replicate (length times) (true, None).
Proof.
  intros Hprod Hwin Hup Hnone Hasc.
  apply (checks_ascending rl identifier times Hprod Hwin 0 w); auto; [lia|].
  intros z t Hz. rewrite Hnone in Hz. discriminate.
Qed.

(** X22.  As [main] builds it, the limiter lets every request through, in
    production and outside it, on a reachable store and with a clock that
    does not go back. *)
Theorem main_rateLimiter_never_rejects (isProduction : bool) (identifier : string)
    (times : list Z) (w : World) :
  redis_up w = true ->
  zsets w !! RateLimiter.key identifier = None ->
  ascending 0 times ->
  (checks (main_rateLimiter isProduction) identifier times w).1
  = replicate (length times) (true, None).
Proof.
  intros Hup Hnone Hasc. destruct isProduction.
  - apply (checks_ascending (main_rateLimiter true) identifier times eq_refl
             ltac:(simpl; lia) 0 w); auto; [lia|].
    intros z t Hz. rewrite Hnone in Hz. discriminate.
  - clear Hup Hnone Hasc. revert w. induction times as [|now times IH]; intros w;
      [reflexivity|].
    simpl. specialize (IH w).
    destruct (checks (main_rateLimiter false) identifier times w) as [rs w'']. simpl in *.
    rewrite IH. reflexivity.
Qed.

Lemma check_other (rl : RateLimiter.t) (now : Z) (identifier : string) (w : World)
    (k : string) :
  RateLimiter.key identifier <> k ->
  zsets (RateLimiter.checkRateLimit rl now identifier w).2 !! k = zsets w !! k
  /\ redis_up (RateLimiter.checkRateLimit rl now identifier w).2 = redis_up w.
Proof.
  intros Hne. unfold RateLimiter.checkRateLimit.
  destruct (RateLimiter.isProduction rl); simpl; [|auto].
  destruct (redis_up w) eqn:Hup; simpl; [|auto].
  set (w0 := emit _ (emit _ (emit _ (emit _ w)))).
  set (w1 := Redis.ZREMRANGEBYSCORE now _ 0 _ w0).
  set (w2 := Redis.ZADD now _ now _ w1).
  assert (H1 : zsets w1 !! k = zsets w !! k /\ redis_up w1 = true).
  { subst w1. unfold Redis.ZREMRANGEBYSCORE.
    destruct (zstore_other (RateLimiter.key identifier) k
                (filter (fun kv : string * Z =>
                           negb ((0 <=? kv.2) && (kv.2 <=? now - RateLimiter.window rl)) = true)
                   (Redis.zpeek now w0 (RateLimiter.key identifier)))
                (Redis.zexpiry now w0 (RateLimiter.key identifier)) w0 Hne) as [-> ->].
    auto. }
  assert (H2 : zsets w2 !! k = zsets w !! k /\ redis_up w2 = true).
  { subst w2. unfold Redis.ZADD.
    destruct (zstore_other (RateLimiter.key identifier) k
                (<[pretty now := now]> (Redis.zpeek now w1 (RateLimiter.key identifier)))
                (Redis.zexpiry now w1 (RateLimiter.key identifier)) w1 Hne) as [-> ->].
    exact H1. }
  destruct H2 as [H2 Hup2]. unfold Redis.ZEXPIRE.
  destruct (Redis.peek now (zsets w2) (RateLimiter.key identifier)) as [[z t]|]; [|auto].
  destruct (0 <? RateLimiter.window rl); simpl.
  - rewrite lookup_insert_ne by exact Hne. auto.
  - rewrite lookup_delete_ne by exact Hne. auto.
Qed.

(** The answer of a check depends on the store only through its reachability
    and the window of the identifier. *)
Lemma check_answer (rl : RateLimiter.t) (now : Z) (identifier : string) (w : World) :
  (RateLimiter.checkRateLimit rl now identifier w).1
  = if negb (RateLimiter.isProduction rl) then (true, None)
    else if redis_up w then
      (Z.of_nat
         (size (filter (fun kv : string * Z =>
                          negb ((0 <=? kv.2) && (kv.2 <=? now - RateLimiter.window rl)) = true)
                  (Redis.zpeek now w (RateLimiter.key identifier))))
       <? RateLimiter.maxRequests rl, None)
    else (false, Some Redis.conn_refused).
Proof.
  unfold RateLimiter.checkRateLimit.
  destruct (RateLimiter.isProduction rl); simpl; [|reflexivity].
  destruct (redis_up w) eqn:Hup; simpl; [|reflexivity].
  unfold Redis.ZCARD, Redis.ZREMRANGEBYSCORE. rewrite zpeek_zstore by apply live_zexpiry.
  reflexivity.
Qed.

(** X23.  Identifiers do not interfere: a check of one identifier leaves
    what is stored for every other identifier as it was, and does not change
    the answer the other's next check gets. *)
Theorem RateLimiter_identifiers_independent (rl : RateLimiter.t) (now later : Z)
    (identifier other : string) (w : World) :
  identifier <> other ->
  let w' := (RateLimiter.checkRateLimit rl now identifier w).2 in
  zsets w' !! RateLimiter.key other = zsets w !! RateLimiter.key other
  /\ (RateLimiter.checkRateLimit rl later other w').1
     = (RateLimiter.checkRateLimit rl later other w).1.
Proof.
  intros Hne w'.
  assert (Hk : RateLimiter.key identifier <> RateLimiter.key other).
  { intros Heq. apply Hne, ratelimit_key_inj, Heq. }
  destruct (check_other rl now identifier w (RateLimiter.key other) Hk) as [Hz Hup].
  fold w' in Hz, Hup. split; [exact Hz|].
  rewrite !check_answer, Hup. unfold Redis.zpeek, Redis.peek. rewrite Hz. reflexivity.
Qed.

Lemma fmap_seq_shift {A} (f : nat -> A) (k n : nat) :
  (fun i => f (k + i)%nat) <$> seq 0 (S n)
  = f k :: ((fun i => f (S k + i)%nat) <$> seq 0 n).
Proof.
  simpl. rewrite Nat.add_0_r. f_equal.
  rewrite <- fmap_S_seq, <- list_fmap_compose.
  apply list_fmap_ext. intros i x _. simpl. f_equal. lia.
Qed.

Lemma checks_climbing (rl : RateLimiter.t) (identifier : string) (first : Z)
    (times : list Z) :
  RateLimiter.isProduction rl = true ->
  0 < RateLimiter.window rl ->
  0 <= first ->
  Forall (fun t => t < first + RateLimiter.window rl) times ->
  forall (k : nat) (last : Z) (w : World) (z : gmap string Z),
    redis_up w = true ->
    first - 1 <= last ->
    (zsets w !! RateLimiter.key identifier = None /\ z = ∅
     \/ zsets w !! RateLimiter.key identifier
        = Some (z, Some (last + RateLimiter.window rl)) /\ first <= last) ->
    stamped z first last ->
    size z = k ->
    climbing last times ->
    (checks rl identifier times w).1
    = (fun i => (Z.of_nat (k + i) <? RateLimiter.maxRequests rl, None))
        <$> seq 0 (length times).
Proof.
  intros Hprod Hwin Hfirst. induction times as [|now times IH];
    intros Hin k last w z Hup Hlast Hstate Hst Hsize Hcl; [reflexivity|].
  apply Forall_cons in Hin as [Hnow Hin]. cbv beta in Hnow. destruct Hcl as [Hlt Hcl].
  change (length (now :: times)) with (S (length times)).
  rewrite (fmap_seq_shift
             (fun j => (Z.of_nat j <? RateLimiter.maxRequests rl, @None error))).
  simpl.
  destruct (check_step rl now identifier w Hprod Hup Hwin) as (w' & Hrun & Hup' & Hk').
  cbv zeta in Hrun, Hk'.
  assert (Hpeek : Redis.zpeek now w (RateLimiter.key identifier) = z).
  { unfold Redis.zpeek. destruct Hstate as [[Hnone ->]|[Hsome Hfl]].
    - rewrite (peek_None now _ _ Hnone). reflexivity.
    - erewrite peek_live; [reflexivity | exact Hsome | lia]. }
  rewrite Hpeek in Hrun, Hk'.
  assert (Hkept : filter (fun kv : string * Z =>
                            negb ((0 <=? kv.2) && (kv.2 <=? now - RateLimiter.window rl)) = true)
                    z = z).
  { apply map_filter_id. intros m s Hm. simpl. destruct (Hst m s Hm) as [_ Hr].
    apply negb_true_iff, andb_false_iff. right. apply Z.leb_gt. lia. }
  rewrite Hkept in Hrun, Hk'. rewrite Hrun, Hsize.
  assert (Hfresh : z !! pretty now = None).
  { destruct (z !! pretty now) as [s|] eqn:Hm; [|reflexivity].
    destruct (Hst _ _ Hm) as [Heq Hr]. apply (inj pretty) in Heq. lia. }
  assert (Hfn : first <= now) by lia.
  assert (Hfn' : first - 1 <= now) by lia.
  specialize (IH Hin (S k) now w' (<[pretty now := now]> z) Hup' Hfn'
                (or_intror (conj Hk' Hfn))).
  destruct (checks rl identifier times w') as [rs w'']. simpl in *.
  rewrite IH; [reflexivity | | | exact Hcl].
  - intros m s Hm. destruct (decide (m = pretty now)) as [->|Hne].
    + rewrite lookup_insert_eq in Hm. injection Hm as <-. split; [reflexivity | lia].
    + rewrite lookup_insert_ne in Hm by congruence.
      destruct (Hst m s Hm). split; [assumption | lia].
  - rewrite map_size_insert_None by exact Hfresh. rewrite Hsize. reflexivity.
Qed.

(** X24.  With at most one request a second the limit is kept: in
    production, for checks of a new identifier at strictly increasing seconds
    that all fall within one window, the first [maxRequests] are allowed and
    every later one is rejected. *)
Theorem RateLimiter_limits_one_per_second (rl : RateLimiter.t) (identifier : string)
    (first : Z) (times : list Z) (w : World) :
  RateLimiter.isProduction rl = true ->
  0 < RateLimiter.window rl ->
  0 <= first ->
  redis_up w = true ->
  zsets w !! RateLimiter.key identifier = None ->
  climbing (first - 1) times ->
  Forall (fun t => t < first + RateLimiter.window rl) times ->
  (checks rl identifier times w).1
  = (fun i => (Z.of_nat i <? RateLimiter.maxRequests rl, None)) <$> seq 0 (length times).
Proof.
  intros Hprod Hwin Hfirst Hup Hnone Hcl Hin.
  apply (checks_climbing rl identifier first times Hprod Hwin Hfirst Hin 0%nat (first - 1)
           w ∅); auto; try lia.
  - intros m s Hm. rewrite lookup_empty in Hm. discriminate.
Qed.

(** ** The rate-limit middleware *)

Section LimitProperties.
Context `{Env}.

(** X25.  [Limit] passes a request on only on an allowed check.  Outside
    production it always passes the request on and leaves the world as it
    was, reachable store or not; in production with the store out of reach it
    answers 500 "Rate limit check failed" and does not pass the request on;
    and it answers 429 exactly when the check says no. *)
Theorem Limit_outcomes (rl : RateLimiter.t) (now : Z) (r : RateLimitMiddleware.Request)
    (w : World) :
  let check := RateLimiter.checkRateLimit rl now (RateLimitMiddleware.getIdentifier r) w in
  let out := (RateLimitMiddleware.Limit rl now r w).1 in
  (RateLimiter.isProduction rl = false ->
     RateLimitMiddleware.Limit rl now r w = (RateLimitMiddleware.ServeNext, w))
  /\ (RateLimiter.isProduction rl = true -> redis_up w = false ->
      out = RateLimitMiddleware.Wrote StatusInternalServerError "text/plain; charset=utf-8"
              (json_error "Rate limit check failed")
      /\ zsets (RateLimitMiddleware.Limit rl now r w).2 = zsets w)
  /\ (out = RateLimitMiddleware.ServeNext <-> check.1 = (true, None))
  /\ (out = RateLimitMiddleware.Wrote RateLimitMiddleware.StatusTooManyRequests
              "application/json" (json_error "Too many requests. Please try again later.")
      <-> check.1 = (false, None)).
Proof.
  intros check out. subst check out. unfold RateLimitMiddleware.Limit, mbind, M_bind.
  split.
  { intros Hdev. unfold RateLimiter.checkRateLimit. rewrite Hdev. reflexivity. }
  split.
  { intros Hprod Hdown. unfold RateLimiter.checkRateLimit. rewrite Hprod. simpl.
    rewrite Hdown. simpl. auto. }
  destruct (RateLimiter.checkRateLimit rl now (RateLimitMiddleware.getIdentifier r) w)
    as [[[|] [err|]] w']; simpl; split; split; (discriminate || reflexivity).
Qed.

Lemma getIdentifier_forwarded (r : RateLimitMiddleware.Request) :
  RateLimitMiddleware.UserIDFromContext r = None ->
  RateLimitMiddleware.XForwardedFor r <> EmptyString ->
  RateLimitMiddleware.getIdentifier r = "ip:" +:+ RateLimitMiddleware.XForwardedFor r.
Proof.
  intros Hctx Hxff. unfold RateLimitMiddleware.getIdentifier. rewrite Hctx.
  destruct (String.eqb_spec (RateLimitMiddleware.XForwardedFor r) EmptyString);
    [contradiction | reflexivity].
Qed.

(** X26.  The identifier of a request without a user is taken from the
    [X-Forwarded-For] header when there is one, the remote address being
    ignored, so requests that each carry a header value not used before are
    never limited: in production, with any positive limit, every one of them
    is passed on, whatever their number and timing. *)
Theorem Limit_forwarded_for_rotation (rl : RateLimiter.t)
    (requests : list (Z * RateLimitMiddleware.Request)) (w : World) :
  RateLimiter.isProduction rl = true ->
  0 < RateLimiter.window rl ->
  0 < RateLimiter.maxRequests rl ->
  redis_up w = true ->
  Forall (fun tr => RateLimitMiddleware.UserIDFromContext tr.2 = None
                    /\ RateLimitMiddleware.XForwardedFor tr.2 <> EmptyString
                    /\ zsets w !! RateLimiter.key ("ip:" +:+ RateLimitMiddleware.XForwardedFor tr.2)
                       = None) requests ->
  NoDup ((fun tr => RateLimitMiddleware.XForwardedFor tr.2) <$> requests) ->
  (RateLimitMiddleware.serve rl requests w).1
  = replicate (length requests) RateLimitMiddleware.ServeNext.
Proof.
  intros Hprod Hwin Hmax. revert w.
  induction requests as [|[now r] requests IH]; intros w Hup Hall Hnd; [reflexivity|].
  apply Forall_cons in Hall as [(Hctx & Hxff & Hnone) Hall]. simpl in Hctx, Hxff, Hnone.
  rewrite fmap_cons in Hnd. apply NoDup_cons in Hnd as [Hnew Hnd]. simpl in Hnew.
  simpl. unfold RateLimitMiddleware.Limit, mbind, M_bind.
  rewrite (getIdentifier_forwarded r Hctx Hxff).
  set (id := "ip:" +:+ RateLimitMiddleware.XForwardedFor r) in *.
  destruct (check_step rl now id w Hprod Hup Hwin) as (w' & Hrun & Hup' & _).
  cbv zeta in Hrun.
  assert (Hempty : Redis.zpeek now w (RateLimiter.key id) = ∅).
  { unfold Redis.zpeek. rewrite (peek_None now _ _ Hnone). reflexivity. }
  rewrite Hempty, map_filter_empty, map_size_empty in Hrun.
  assert (Hother : forall k, RateLimiter.key id <> k -> zsets w' !! k = zsets w !! k).
  { intros k Hk. pose proof (check_other rl now id w k Hk) as [Hz _].
    rewrite Hrun in Hz. exact Hz. }
  rewrite Hrun. simpl. change (Z.of_nat 0) with 0.
  destruct (Z.ltb_spec 0 (RateLimiter.maxRequests rl)); [|lia].
  unfold mret, M_ret.
  specialize (IH w' Hup').
  destruct (RateLimitMiddleware.serve rl requests w') as [os w'']. simpl in *.
  rewrite IH; [reflexivity| |exact Hnd].
  apply Forall_forall. intros [t' r'] Hin. rewrite Forall_forall in Hall.
  destruct (Hall _ Hin) as (Hctx' & Hxff' & Hnone'). simpl in *.
  split; [exact Hctx'|]. split; [exact Hxff'|].
  rewrite Hother; [exact Hnone'|].
  intros Heq. apply ratelimit_key_inj in Heq. subst id. simpl in Heq.
  injection Heq as Heq. change (RateLimitMiddleware.XForwardedFor r
                                = RateLimitMiddleware.XForwardedFor r') in Heq.
  apply Hnew. rewrite Heq.
  apply (list_elem_of_fmap_2 (fun tr : Z * RateLimitMiddleware.Request =>
                                RateLimitMiddleware.XForwardedFor tr.2) _ _ Hin).
Qed.

End LimitProperties.

(** ** The movie handler: identity and item IDs *)

Section HandlerGuards.
Context `{Env}.

(** X30.  The handlers act for the user of the context and on the ID of the
    path only: without a user in the context each of them answers 401 and
    leaves the table as it is; with a path ID that does not parse, [Get],
    [Update] and [Delete] answer 400 and leave the table as it is; [Update]
    takes the item ID from the path, whatever ID the body carries; and a row
    [Create] adds is owned by the user of the context. *)
Theorem MovieHandler_identity_and_ids (users : list User.t) (tbl : list Movie.t)
    (newid : uuid) (now : Z) :
  (forall (rc : MovieHandler.Request CreateMovieInput.t)
          (ru : MovieHandler.Request UpdateMovieInput.t) (rg : MovieHandler.Request unit),
      MovieHandler.UserIDFromContext rc = None ->
      MovieHandler.UserIDFromContext ru = None ->
      MovieHandler.UserIDFromContext rg = None ->
      let unauthorized :=
        MovieHandler.http_Error (json_error "Unauthorized") StatusUnauthorized in
      MovieHandler.Create users tbl newid now rc = (unauthorized, tbl)
      /\ MovieHandler.Update tbl now ru = (unauthorized, tbl)
      /\ MovieHandler.Delete tbl rg = (unauthorized, tbl)
      /\ MovieHandler.Get tbl rg = unauthorized)
  /\ (forall (ru : MovieHandler.Request UpdateMovieInput.t) (rg : MovieHandler.Request unit)
             (userID : uuid),
        MovieHandler.UserIDFromContext ru = Some userID ->
        MovieHandler.UserIDFromContext rg = Some userID ->
        uuid_Parse (MovieHandler.PathValue_id ru) = None ->
        uuid_Parse (MovieHandler.PathValue_id rg) = None ->
        let invalid :=
          MovieHandler.http_Error (json_error "Invalid movie ID") StatusBadRequest in
        MovieHandler.Update tbl now ru = (invalid, tbl)
        /\ MovieHandler.Delete tbl rg = (invalid, tbl)
        /\ MovieHandler.Get tbl rg = invalid)
  /\ (forall (ctx : option uuid) (path : string) (body body' : UpdateMovieInput.t),
        UpdateMovieInput.Score body = UpdateMovieInput.Score body' ->
        UpdateMovieInput.Watched body = UpdateMovieInput.Watched body' ->
        MovieHandler.Update tbl now
          {| MovieHandler.UserIDFromContext := ctx; MovieHandler.PathValue_id := path;
             MovieHandler.Body := Some body |}
        = MovieHandler.Update tbl now
            {| MovieHandler.UserIDFromContext := ctx; MovieHandler.PathValue_id := path;
               MovieHandler.Body := Some body' |})
  /\ (forall (rc : MovieHandler.Request CreateMovieInput.t) (userID : uuid),
        MovieHandler.UserIDFromContext rc = Some userID ->
        MovieHandler.Status (MovieHandler.Create users tbl newid now rc).1 = StatusCreated ->
        exists movie,
          MovieHandler.Create users tbl newid now rc
          = ({| MovieHandler.Status := StatusCreated;
                MovieHandler.Written :=
                  MovieHandler.CreatedJSON movie "Movie added to your library!" |},
             tbl ++ [movie])
          /\ Movie.UserID movie = userID).
Proof.
  split.
  { intros rc ru rg Hc Hu Hg unauthorized.
    unfold MovieHandler.Create, MovieHandler.Update, MovieHandler.Delete, MovieHandler.Get.
    rewrite Hc, Hu, Hg. auto. }
  split.
  { intros ru rg userID Hu Hg Hpu Hpg invalid.
    unfold MovieHandler.Update, MovieHandler.Delete, MovieHandler.Get.
    rewrite Hu, Hg, Hpu, Hpg. auto. }
  split.
  { intros ctx path body body' Hs Hw. unfold MovieHandler.Update. simpl.
    rewrite Hs, Hw. reflexivity. }
  intros rc userID Hc. unfold MovieHandler.Create. rewrite Hc.
  destruct (MovieHandler.Body rc) as [input|]; [|discriminate].
  destruct (MovieService.Create users tbl newid now userID input) as [[movie|err] tbl'] eqn:Hcr.
  - intros _. apply Create_inl_inv in Hcr as (-> & _ & Hown & _). eauto.
  - destruct (String.eqb (Error err) _); discriminate.
Qed.

End HandlerGuards.

(** ** The further properties on the sample data *)

Lemma library_ids : NoDup (Movie.ID <$> library).
Proof.
  apply NoDup_cons. split; [|apply NoDup_singleton].
  intros Hin. apply list_elem_of_singleton in Hin. discriminate.
Defined.

Lemma library_ok : table_ok [alice; bob] library.
Proof.
  split; [exact library_ids|]. split.
  - apply NoDup_cons. split; [|apply NoDup_singleton].
    intros Hin. apply list_elem_of_singleton in Hin. discriminate.
  - intros m Hm.
    repeat (apply elem_of_cons in Hm as [->|Hm]; [reflexivity|]). inversion Hm.
Defined.

Lemma RequireAuthAPI_outcomes_witness :
  exists v,
    strings (AuthMiddleware.RequireAuthAPI auth [] 150 request_tok world_orphan).2
    !! SessionStore.key "tok" = Some (v, Some (150 + 604800)).
Proof.
  destruct (RequireAuthAPI_outcomes auth [] 150 request_tok world_orphan) as [_ Hvanished].
  destruct (Hvanished "tok" 42%N) as [_ Hkept].
  - reflexivity.
  - vm_compute. reflexivity.
  - intros u Hu. inversion Hu.
  - apply Hkept. reflexivity.
Defined.

Lemma Auth_variants_agree_witness :
  AuthMiddleware.OptionalAuth auth [alice; bob] 150 request_tok world_alice
  = AuthMiddleware.RequireAuth auth [alice; bob] 150 request_tok world_alice
  /\ AuthMiddleware.RequireAuthAPI auth [alice; bob] 150 request_tok world_alice
     = AuthMiddleware.RequireAuth auth [alice; bob] 150 request_tok world_alice.
Proof.
  destruct (Auth_variants_agree auth [alice; bob] 150 request_tok world_alice alice 7%N)
    as (_ & _ & Hsame).
  destruct Hsame as (Hapi & Hopt & _).
  - vm_compute. reflexivity.
  - split; [exact Hopt | exact Hapi].
Defined.

Lemma FindOrCreate_idempotent_witness :
  UserAccounts.FindOrCreate [alice; carol] 10%N 60 "gg-9" "GITHUB" "c@example.org" "C"
  = (inl carol, [alice; carol]).
Proof.
  destruct (FindOrCreate_idempotent [alice] [alice; carol] carol 9%N 50 "gg-9" "GOOGLE"
              "carol@example.org" "Carol") as [_ Hagain].
  - reflexivity.
  - apply Hagain.
Defined.

Lemma UserAccounts_Delete_cascades_witness :
  (UserAccounts.Delete [alice; bob] library [] 7%N).1 = None
  /\ forall m, m ∈ (UserAccounts.Delete [alice; bob] library [] 7%N).2.1.2 ->
               Movie.UserID m <> 7%N.
Proof.
  destruct (UserAccounts_Delete_cascades [alice; bob] library [] 7%N) as [Hdel _].
  destruct Hdel as (Hnone & _ & Hmovies & _).
  - exists alice. split; [apply list_elem_of_here | reflexivity].
  - split; [exact Hnone|]. intros m Hm. apply Hmovies in Hm as [_ Hne]. exact Hne.
Defined.

Lemma GoogleCallback_then_RequireAuth_witness :
  exists user,
    User.ProviderID user = "gg-9"
    /\ last (trace
               (AuthMiddleware.RequireAuth auth
                  (AuthHandler.GoogleCallback auth_handler [alice] 9%N 100 "code"
                     (AuthHandler.UserInfo carol_at_google) (Some "tok") world0).1
                  200 request_tok
                  (AuthHandler.GoogleCallback auth_handler [alice] 9%N 100 "code"
                     (AuthHandler.UserInfo carol_at_google) (Some "tok") world0).2).2)
       = Some (HttpServeNext (Some (user, User.ID user))).
Proof.
  destruct (GoogleCallback_then_RequireAuth auth_handler [alice] 9%N 100 200 "code" "tok"
              carol_at_google request_tok world0) as (user & _ & Hpid & _ & Hlast).
  - reflexivity.
  - reflexivity.
  - reflexivity.
  - discriminate.
  - apply NoDup_singleton.
  - intros u Hu. apply list_elem_of_singleton in Hu. subst u. discriminate.
  - cbn. lia.
  - reflexivity.
  - exists user. split; [exact Hpid | exact Hlast].
Defined.

Lemma Logout_ends_session_witness :
  strings (AuthHandler.Logout auth_handler 150 request_tok world_orphan).2
  !! SessionStore.key "tok" = None
  /\ last (trace (AuthMiddleware.RequireAuth auth [alice] 160 request_tok
                    (AuthHandler.Logout auth_handler 150 request_tok world_orphan).2).2)
     = Some (HttpRedirect "/login" StatusSeeOther).
Proof.
  destruct (Logout_ends_session auth_handler 150 request_tok "tok" world_orphan)
    as (_ & Hgone & _ & Hauth).
  - reflexivity.
  - reflexivity.
  - split; [exact Hgone|]. apply Hauth; reflexivity.
Defined.

Lemma MovieService_keeps_constraints_witness :
  table_ok [alice; bob] (MovieService.Create [alice; bob] library 3%N 30 8%N add_the_matrix).2.
Proof.
  destruct (MovieService_keeps_constraints [alice; bob] library 3%N 30 8%N 1%N
              add_the_matrix mark_watched library_ok) as [Hcreate _].
  exact Hcreate.
Defined.


Lemma MovieService_Create_ignores_bad_date_witness :
  MovieService.Create [alice; bob] library 3%N 30 8%N
    (with_ReleaseDate (Some "next year") add_the_matrix)
  = MovieService.Create [alice; bob] library 3%N 30 8%N
      (with_ReleaseDate None add_the_matrix).
Proof.
  destruct (MovieService_Create_ignores_bad_date [alice; bob] library 3%N 30 8%N
              add_the_matrix "next year") as [Hsame _].
  - right. reflexivity.
  - exact Hsame.
Defined.

Lemma MovieService_Delete_once_witness :
  MovieHandler.Status (MovieHandler.Delete library delete_the_matrix).1 = StatusNoContent
  /\ MovieHandler.Status
       (MovieHandler.Delete
          (MovieService.Delete library (Movie.ID the_matrix) (Movie.UserID the_matrix)).2
          delete_the_matrix).1 = StatusNotFound.
Proof.
  destruct (MovieService_Delete_once library the_matrix delete_the_matrix library_ids)
    as (_ & _ & _ & _ & Hfirst & Hsecond).
  - apply list_elem_of_here.
  - reflexivity.
  - vm_compute. reflexivity.
  - split; [rewrite Hfirst | rewrite Hsecond]; reflexivity.
Defined.

Lemma MovieService_List_page_witness :
  by_rating (PaginatedMovies.Results watchlist_page)
  /\ forall x, x ∈ PaginatedMovies.Results watchlist_page -> Movie.UserID x = 7%N.
Proof.
  destruct (MovieService_List_page library 7%N page_zero watchlist_page)
    as (_ & Hsorted & _ & Hrows).
  - vm_compute. reflexivity.
  - split; [exact Hsorted|]. intros x Hx. destruct (Hrows x Hx) as (_ & Hu & _). exact Hu.
Defined.


Lemma MovieService_List_past_the_end_witness :
  PaginatedMovies.Results empty_page_five = []
  /\ exists q, MovieService.List library 7%N (with_Page 1 page_five) = inl q
               /\ PaginatedMovies.Count q = 1.
Proof.
  destruct (MovieService_List_past_the_end library 7%N page_five empty_page_five)
    as (Hnone & _ & q & Hq & Hcount & _).
  - reflexivity.
  - vm_compute. reflexivity.
  - reflexivity.
  - split; [exact Hnone|]. exists q. split; [exact Hq | exact Hcount].
Defined.

Lemma RateLimiter_short_window_never_rejects_witness :
  (checks two_per_second "ip:10.0.0.1" [1000; 1000; 1000; 1001; 1001] world0).1
  = replicate 5 (true, None).
Proof.
  apply (RateLimiter_short_window_never_rejects two_per_second "ip:10.0.0.1"
           [1000; 1000; 1000; 1001; 1001] world0).
  - reflexivity.
  - cbn. lia.
  - reflexivity.
  - reflexivity.
  - cbn. lia.
Defined.

Lemma main_rateLimiter_never_rejects_witness :
  (checks (main_rateLimiter true) "ip:10.0.0.1" [1000; 1000; 1000] world0).1
  = replicate 3 (true, None).
Proof.
  apply (main_rateLimiter_never_rejects true "ip:10.0.0.1" [1000; 1000; 1000] world0).
  - reflexivity.
  - reflexivity.
  - cbn. lia.
Defined.

Lemma RateLimiter_identifiers_independent_witness :
  (RateLimiter.checkRateLimit one_per_minute 1001 "ip:b"
     (RateLimiter.checkRateLimit one_per_minute 1000 "ip:a" world0).2).1
  = (RateLimiter.checkRateLimit one_per_minute 1001 "ip:b" world0).1.
Proof.
  destruct (RateLimiter_identifiers_independent one_per_minute 1000 1001 "ip:a" "ip:b"
              world0) as [_ Hsame].
  - discriminate.
  - exact Hsame.
Defined.

Lemma RateLimiter_limits_one_per_second_witness :
  (checks two_per_minute "ip:10.0.0.1" [1000; 1001; 1002] world0).1
  = [(true, None); (true, None); (false, None)].
Proof.
  apply (RateLimiter_limits_one_per_second two_per_minute "ip:10.0.0.1" 1000
           [1000; 1001; 1002] world0).
  - reflexivity.
  - reflexivity.
  - lia.
  - reflexivity.
  - reflexivity.
  - cbn. lia.
  - repeat constructor; cbn; lia.
Defined.

Lemma Limit_outcomes_witness :
  RateLimitMiddleware.Limit dev_limiter 1000 (from_proxy "203.0.113.7") world_down
  = (RateLimitMiddleware.ServeNext, world_down)
  /\ (RateLimitMiddleware.Limit two_per_minute 1000 (from_proxy "203.0.113.7") world_down).1
     = RateLimitMiddleware.Wrote StatusInternalServerError "text/plain; charset=utf-8"
         (json_error "Rate limit check failed").
Proof.
  destruct (Limit_outcomes dev_limiter 1000 (from_proxy "203.0.113.7") world_down)
    as (Hdev & _).
  destruct (Limit_outcomes two_per_minute 1000 (from_proxy "203.0.113.7") world_down)
    as (_ & Hdown & _).
  split; [apply Hdev; reflexivity|].
  destruct Hdown as [Hout _]; [reflexivity | reflexivity | exact Hout].
Defined.

Lemma Limit_forwarded_for_rotation_witness :
  (RateLimitMiddleware.serve one_per_minute
     [(1000, from_proxy "203.0.113.7"); (1000, from_proxy "203.0.113.8");
      (1000, from_proxy "203.0.113.9")] world0).1
  = replicate 3 RateLimitMiddleware.ServeNext.
Proof.
  apply (Limit_forwarded_for_rotation one_per_minute
           [(1000, from_proxy "203.0.113.7"); (1000, from_proxy "203.0.113.8");
            (1000, from_proxy "203.0.113.9")] world0).
  - reflexivity.
  - reflexivity.
  - reflexivity.
  - reflexivity.
  - repeat constructor; discriminate.
  - repeat (apply NoDup_cons; split;
              [rewrite ?elem_of_cons, elem_of_nil; intros Hin;
               repeat destruct Hin as [Hin|Hin]; (discriminate || exact Hin)|]).
    apply NoDup_nil. exact I.
Defined.



Lemma checkRateLimit_rule_witness :
  (RateLimiter.checkRateLimit one_per_minute 1000 "ip:a" world0).1 = (true, None)
  /\ Redis.zpeek 1000 (RateLimiter.checkRateLimit one_per_minute 1000 "ip:a" world0).2
       (RateLimiter.key "ip:a") !! pretty 1000 = Some 1000.
Proof.
  destruct (checkRateLimit_rule one_per_minute 1000 "ip:a" world0) as [Hans Hin].
  - reflexivity.
  - reflexivity.
  - reflexivity.
  - split; [rewrite Hans; reflexivity | exact Hin].
Defined.

Lemma MovieHandler_identity_and_ids_witness :
  MovieHandler.Update library 30 anonymous_patch
  = (MovieHandler.http_Error (json_error "Unauthorized") StatusUnauthorized, library).
Proof.
  destruct (MovieHandler_identity_and_ids [alice; bob] library 3%N 30) as (Hanon & _).
  destruct (Hanon {| MovieHandler.UserIDFromContext := None;
                     MovieHandler.PathValue_id := EmptyString;
                     MovieHandler.Body := None |}
              anonymous_patch
              {| MovieHandler.UserIDFromContext := None;
                 MovieHandler.PathValue_id := EmptyString;
                 MovieHandler.Body := None |}) as (_ & Hupdate & _).
  - reflexivity.
  - reflexivity.
  - reflexivity.
  - exact Hupdate.
Defined.
